(** * The BusTub buffer pool core: LRU-K replacer and buffer pool manager

    A shallow embedding of [src/buffer/lru_k_replacer.cpp] and
    [src/buffer/buffer_pool_manager.cpp].  Every member function becomes a
    state transformer over a record that mirrors the class's data members;
    a call ends by returning, by throwing, or by not returning at all
    (undefined behaviour, a latch that is never granted). *)

From Stdlib Require Import ZArith Lia.
From stdpp Require Import gmap list fin_maps sorting.

Open Scope Z_scope.

(** ** Machine integers *)

(** [size_t] is a 64-bit unsigned integer: arithmetic wraps modulo [2^64]. *)
Definition SIZE_MAX : Z := 2 ^ 64 - 1.

(** [static_cast<size_t>(z)], and the result of [size_t] arithmetic. *)
Definition to_size_t (z : Z) : Z := z mod 2 ^ 64.

Definition is_size_t (z : Z) : Prop := 0 <= z <= SIZE_MAX.

(** [frame_id_t] and [page_id_t] are [int32_t]; the pin count is an [int]. *)
Definition INT_MIN : Z := - 2 ^ 31.
Definition INT_MAX : Z := 2 ^ 31 - 1.

Definition is_int (z : Z) : Prop := INT_MIN <= z <= INT_MAX.

(** ** How a call ends *)

Inductive exception : Set :=
| NotImplementedException
| std_out_of_range
| std_logic_error.

(** Reasons for which a call does not come back to its caller. *)
Inductive fault : Set :=
| null_dereference      (* a member call through [nullptr] *)
| index_out_of_bounds   (* [pages_[i]] outside the array *)
| empty_list_access     (* [front()] or [pop_front()] of an empty [std::list] *)
| signed_overflow       (* [++] of an [int] holding [INT_MAX] *)
| ensure_failed         (* [BUSTUB_ENSURE] on a false condition *)
| latch_never_granted.  (* a latch requested by the thread that blocks it *)

(** A call on an object of state [S] returns [a] and leaves [s], or throws [e]
    and leaves [s] (the state as it was when the exception left the function),
    or has no defined continuation. *)
Inductive outcome (S A : Type) : Type :=
| Ok (a : A) (s : S)
| Throw (e : exception) (s : S)
| Stuck (f : fault).

Arguments Ok {S A} a s.
Arguments Throw {S A} e s.
Arguments Stuck {S A} f.

Definition M (S A : Type) : Type := S -> outcome S A.

Definition ret {S A : Type} (a : A) : M S A := fun s => Ok a s.

Definition bind {S A B : Type} (m : M S A) (k : A -> M S B) : M S B :=
  fun s =>
    match m s with
    | Ok a s' => k a s'
    | Throw e s' => Throw e s'
    | Stuck f => Stuck f
    end.

Definition throw {S A : Type} (e : exception) : M S A := fun s => Throw e s.

Definition stuck {S A : Type} (f : fault) : M S A := fun _ => Stuck f.

Definition get {S : Type} : M S S := fun s => Ok s s.

Definition modify {S : Type} (f : S -> S) : M S unit := fun s => Ok tt (f s).

Declare Scope prog_scope.
Delimit Scope prog_scope with prog.
Notation "x <- m ;; k" := (bind m (fun x => k))
  (at level 100, m at next level, right associativity) : prog_scope.
Notation "m ;;; k" := (bind m (fun _ => k))
  (at level 100, right associativity) : prog_scope.

(** ** [lru_k_replacer.cpp] *)

Module lru_k_replacer.

(** The hint passed to [RecordAccess]; the replacer does not look at it. *)
Inductive AccessType : Set := Unknown | Lookup | Scan | Index.

(** Modelled from the spec: the class declarations of [lru_k_replacer.h] are
    not among the sources.  A replacer node holds "a bounded access-timestamp
    history and an [is_evictable] flag"; the members the code uses are
    [history_] (a [std::list<size_t>], oldest entry at the front) and
    [is_evictable_]. *)
Record LRUKNode : Set := mkNode {
  history_ : list Z;
  is_evictable_ : bool
}.

(** Modelled from the spec: [LRUKNode{}], the node [RecordAccess] creates
    for an unknown frame.  Its history is empty, and since [record_access]
    "does not change evictability" and an untracked frame cannot be evicted,
    its flag is [false]. *)
Definition LRUKNode_default : LRUKNode :=
  {| history_ := []; is_evictable_ := false |}.

Record LRUKReplacer : Type := mkReplacer {
  node_store_ : gmap Z LRUKNode;   (* std::unordered_map<frame_id_t, LRUKNode> *)
  current_timestamp_ : Z;          (* size_t *)
  curr_size_ : Z;                  (* size_t *)
  replacer_size_ : Z;              (* size_t *)
  k_ : Z                           (* size_t *)
}.

Definition set_node_store (m : gmap Z LRUKNode) (r : LRUKReplacer) : LRUKReplacer :=
  {| node_store_ := m;
     current_timestamp_ := current_timestamp_ r;
     curr_size_ := curr_size_ r;
     replacer_size_ := replacer_size_ r;
     k_ := k_ r |}.

Definition set_current_timestamp (t : Z) (r : LRUKReplacer) : LRUKReplacer :=
  {| node_store_ := node_store_ r;
     current_timestamp_ := t;
     curr_size_ := curr_size_ r;
     replacer_size_ := replacer_size_ r;
     k_ := k_ r |}.

Definition set_curr_size (n : Z) (r : LRUKReplacer) : LRUKReplacer :=
  {| node_store_ := node_store_ r;
     current_timestamp_ := current_timestamp_ r;
     curr_size_ := n;
     replacer_size_ := replacer_size_ r;
     k_ := k_ r |}.

Definition set_history (h : list Z) (n : LRUKNode) : LRUKNode :=
  {| history_ := h; is_evictable_ := is_evictable_ n |}.

Definition set_is_evictable (b : bool) (n : LRUKNode) : LRUKNode :=
  {| history_ := history_ n; is_evictable_ := b |}.

(** [LRUKReplacer::LRUKReplacer(num_frames, k)].
    Modelled from the spec: the member initialisers of the header, an empty
    node store, [current_timestamp_ = 0] and [curr_size_ = 0] ("size() is the
    count of evictable nodes", and a new replacer tracks no node). *)
Definition LRUKReplacer_ctor (num_frames k : Z) : LRUKReplacer :=
  {| node_store_ := ∅;
     current_timestamp_ := 0;
     curr_size_ := 0;
     replacer_size_ := num_frames;
     k_ := k |}.

(** [node_store_.count(frame_id)] *)
Definition count (m : gmap Z LRUKNode) (frame_id : Z) : Z :=
  match m !! frame_id with Some _ => 1 | None => 0 end.

(** [node_store_[frame_id]], read: the node stored there, or the
    value-initialised node that [operator[]] would insert. *)
Definition at_ (m : gmap Z LRUKNode) (frame_id : Z) : LRUKNode :=
  default LRUKNode_default (m !! frame_id).

(** [history_.size()] *)
Definition size_ (h : list Z) : Z := Z.of_nat (length h).

(** An element of [evict_list]: frame id, k-distance, oldest timestamp. *)
Definition candidate : Set := Z * Z * Z.

(** The body of the loop of [Evict] for one entry of [node_store_];
    [None] when [history_.front()] is taken of an empty list. *)
Definition push_candidate (r : LRUKReplacer) (entry : Z * LRUKNode)
    : option (list candidate) :=
  let '(fid, node) := entry in
  if is_evictable_ node then
    match history_ node with
    | [] => None
    | front :: _ =>
        if size_ (history_ node) <? k_ r
        then Some [(fid, SIZE_MAX, front)]
        else Some [(fid, to_size_t (current_timestamp_ r - front), front)]
    end
  else Some [].

Fixpoint build_evict_list (r : LRUKReplacer) (entries : list (Z * LRUKNode))
    : option (list candidate) :=
  match entries with
  | [] => Some []
  | e :: rest =>
      match push_candidate r e, build_evict_list r rest with
      | Some c, Some cs => Some (c ++ cs)
      | _, _ => None
      end
  end.

(** The comparator handed to [std::sort]: [lhs] goes before [rhs]. *)
Definition before (lhs rhs : candidate) : bool :=
  let '(_, dl, tl) := lhs in
  let '(_, dr, tr) := rhs in
  if dl =? dr then tl <? tr else dl >? dr.

(** [std::sort] with that comparator, as an insertion sort. *)
Fixpoint insert_sorted (x : candidate) (l : list candidate) : list candidate :=
  match l with
  | [] => [x]
  | y :: l' => if before x y then x :: y :: l' else y :: insert_sorted x l'
  end.

Definition sort (l : list candidate) : list candidate :=
  foldr insert_sorted [] l.

(** [Evict(&frame_id)]: [Some fid] stands for [true] with [*frame_id = fid],
    [None] for [false] with [*frame_id] untouched. *)
Definition Evict : M LRUKReplacer (option Z) := fun r =>
  match build_evict_list r (map_to_list (node_store_ r)) with
  | None => Stuck empty_list_access
  | Some [] => Ok None r
  | Some (c :: cs) =>
      let '(frame_id, _, _) := hd c (sort (c :: cs)) in
      let node := at_ (node_store_ r) frame_id in
      let node := set_is_evictable false (set_history [] node) in
      let store := <[frame_id := node]> (node_store_ r) in
      let store := delete frame_id store in
      Ok (Some frame_id)
         (set_curr_size (to_size_t (curr_size_ r - 1)) (set_node_store store r))
  end.

Definition RecordAccess (frame_id : Z) (access_type : AccessType)
    : M LRUKReplacer unit := fun r =>
  if replacer_size_ r <=? to_size_t frame_id then Throw std_out_of_range r
  else
    let popped : option (gmap Z LRUKNode) :=
      match node_store_ r !! frame_id with
      | None => Some (<[frame_id := LRUKNode_default]> (node_store_ r))
      | Some node =>
          if k_ r <=? size_ (history_ node) then
            match history_ node with
            | [] => None
            | _ :: rest => Some (<[frame_id := set_history rest node]> (node_store_ r))
            end
          else Some (node_store_ r)
      end in
    match popped with
    | None => Stuck empty_list_access
    | Some store =>
        let node := at_ store frame_id in
        let node := set_history (history_ node ++ [current_timestamp_ r]) node in
        Ok tt (set_current_timestamp (to_size_t (current_timestamp_ r + 1))
                 (set_node_store (<[frame_id := node]> store) r))
    end.

Definition SetEvictable (frame_id : Z) (set_evictable : bool)
    : M LRUKReplacer unit := fun r =>
  if (replacer_size_ r <=? to_size_t frame_id) || (count (node_store_ r) frame_id =? 0)
  then Throw std_out_of_range r
  else
    let old_evictable := is_evictable_ (at_ (node_store_ r) frame_id) in
    if negb (eqb set_evictable old_evictable) then
      let r :=
        if set_evictable
        then set_curr_size (to_size_t (curr_size_ r + 1)) r
        else set_curr_size (to_size_t (curr_size_ r - 1)) r in
      let node := set_is_evictable set_evictable (at_ (node_store_ r) frame_id) in
      Ok tt (set_node_store (<[frame_id := node]> (node_store_ r)) r)
    else Ok tt r.

Definition Remove (frame_id : Z) : M LRUKReplacer unit := fun r =>
  if replacer_size_ r <=? to_size_t frame_id then Throw std_out_of_range r
  else if count (node_store_ r) frame_id =? 0 then Ok tt r
  else
    let node := at_ (node_store_ r) frame_id in
    if eqb (is_evictable_ node) false then Throw std_logic_error r
    else
      let node := set_is_evictable false (set_history [] node) in
      let store := <[frame_id := node]> (node_store_ r) in
      let store := delete frame_id store in
      Ok tt (set_curr_size (to_size_t (curr_size_ r - 1)) (set_node_store store r)).

Definition Size (r : LRUKReplacer) : Z := curr_size_ r.

End lru_k_replacer.

(** ** [buffer_pool_manager.cpp] *)

Module buffer_pool_manager.
Import lru_k_replacer.
Open Scope prog_scope.

(** Modelled from the spec: [common/config.h] is not among the sources.
    "A sentinel value denotes invalid"; page ids are non-negative and frame
    ids lie in [[0, pool_size)], so the sentinel is a negative [int32_t]. *)
Definition INVALID_PAGE_ID : Z := -1.

(** Modelled from the spec: the page size "is a build-time constant",
    "typically 4 KiB". *)
Definition BUSTUB_PAGE_SIZE : nat := 4096.

(** Modelled from the spec: the reader-writer latch of a frame, seen from
    the one thread of this model.  A latch it cannot be granted at once will
    never be granted. *)
Inductive ReaderWriterLatch : Set :=
| Unlatched
| ReadLatched (readers : positive)
| WriteLatched.

(** Modelled from the spec: [storage/page/page.h] is not among the sources.
    A frame is "a fixed-size byte buffer plus metadata": [page_id],
    [pin_count], [is_dirty], [rw_latch]. *)
Record Page : Set := mkPage {
  data_ : list Byte.byte;
  page_id_ : Z;                 (* page_id_t *)
  pin_count_ : Z;               (* int *)
  is_dirty_ : bool;
  rwlatch_ : ReaderWriterLatch
}.

Definition set_data (d : list Byte.byte) (p : Page) : Page :=
  {| data_ := d; page_id_ := page_id_ p; pin_count_ := pin_count_ p;
     is_dirty_ := is_dirty_ p; rwlatch_ := rwlatch_ p |}.

Definition set_page_id (i : Z) (p : Page) : Page :=
  {| data_ := data_ p; page_id_ := i; pin_count_ := pin_count_ p;
     is_dirty_ := is_dirty_ p; rwlatch_ := rwlatch_ p |}.

Definition set_pin_count (n : Z) (p : Page) : Page :=
  {| data_ := data_ p; page_id_ := page_id_ p; pin_count_ := n;
     is_dirty_ := is_dirty_ p; rwlatch_ := rwlatch_ p |}.

Definition set_is_dirty (b : bool) (p : Page) : Page :=
  {| data_ := data_ p; page_id_ := page_id_ p; pin_count_ := pin_count_ p;
     is_dirty_ := b; rwlatch_ := rwlatch_ p |}.

Definition set_rwlatch (l : ReaderWriterLatch) (p : Page) : Page :=
  {| data_ := data_ p; page_id_ := page_id_ p; pin_count_ := pin_count_ p;
     is_dirty_ := is_dirty_ p; rwlatch_ := l |}.

(** Modelled from the spec: [Page::ResetMemory] zeroes the byte buffer. *)
Definition ResetMemory (p : Page) : Page :=
  set_data (replicate BUSTUB_PAGE_SIZE Byte.x00) p.

Definition IsDirty (p : Page) : bool := is_dirty_ p.
Definition GetPageId (p : Page) : Z := page_id_ p.
Definition GetData (p : Page) : list Byte.byte := data_ p.

(** Modelled from the spec: a frame "is created at pool construction (empty,
    in free list)", and a frame in the free list has [page_id = invalid],
    [pin_count = 0], [is_dirty = false]. *)
Definition Page_default : Page :=
  {| data_ := replicate BUSTUB_PAGE_SIZE Byte.x00;
     page_id_ := INVALID_PAGE_ID;
     pin_count_ := 0;
     is_dirty_ := false;
     rwlatch_ := Unlatched |}.

(** Modelled from the spec: [Page::RLatch] and [Page::WLatch]. *)
Definition RLatch (p : Page) : option Page :=
  match rwlatch_ p with
  | Unlatched => Some (set_rwlatch (ReadLatched 1) p)
  | ReadLatched n => Some (set_rwlatch (ReadLatched (n + 1)) p)
  | WriteLatched => None
  end.

Definition WLatch (p : Page) : option Page :=
  match rwlatch_ p with
  | Unlatched => Some (set_rwlatch WriteLatched p)
  | _ => None
  end.

(** A request as [ReadFrame] and [WriteFrame] build it; the promise is
    fulfilled by the scheduler before [future.get()] returns. *)
Record DiskRequest : Set := mkRequest {
  is_write_ : bool;
  request_data_ : list Byte.byte;   (* the frame's buffer when the request is scheduled *)
  request_page_id_ : Z
}.

(** Modelled from the spec: the disk scheduler and the disk manager behind
    it are collaborators, which "read and write entire pages addressed by
    page id".  [stable_storage] is what the disk holds, [scheduled] the
    requests in the order in which they were submitted. *)
Record DiskScheduler : Type := mkScheduler {
  stable_storage : gmap Z (list Byte.byte);
  scheduled : list DiskRequest
}.

(** Modelled from the spec: [DiskScheduler::Schedule] followed by
    [future.get()].  A write stores the buffer under the page id; a read
    yields the stored page, and leaves the buffer as it is when the disk
    holds no such page. *)
Definition Schedule (req : DiskRequest) (d : DiskScheduler)
    : DiskScheduler * list Byte.byte :=
  if is_write_ req then
    ({| stable_storage := <[request_page_id_ req := request_data_ req]> (stable_storage d);
        scheduled := scheduled d ++ [req] |},
     request_data_ req)
  else
    ({| stable_storage := stable_storage d;
        scheduled := scheduled d ++ [req] |},
     default (request_data_ req) (stable_storage d !! request_page_id_ req)).

Record BufferPoolManager : Type := mkBPM {
  pool_size_ : Z;                      (* size_t *)
  next_page_id_ : Z;                   (* std::atomic<page_id_t> *)
  pages_ : list Page;                  (* Page *, an array of pool_size_ frames *)
  disk_scheduler_ : DiskScheduler;
  log_manager_ : option unit;          (* LogManager *, never used *)
  page_table_ : gmap Z Z;              (* std::unordered_map<page_id_t, frame_id_t> *)
  replacer_ : LRUKReplacer;
  free_list_ : list Z                  (* std::list<frame_id_t> *)
}.

Definition set_next_page_id (n : Z) (b : BufferPoolManager) : BufferPoolManager :=
  {| pool_size_ := pool_size_ b; next_page_id_ := n; pages_ := pages_ b;
     disk_scheduler_ := disk_scheduler_ b; log_manager_ := log_manager_ b;
     page_table_ := page_table_ b; replacer_ := replacer_ b;
     free_list_ := free_list_ b |}.

Definition set_pages (ps : list Page) (b : BufferPoolManager) : BufferPoolManager :=
  {| pool_size_ := pool_size_ b; next_page_id_ := next_page_id_ b; pages_ := ps;
     disk_scheduler_ := disk_scheduler_ b; log_manager_ := log_manager_ b;
     page_table_ := page_table_ b; replacer_ := replacer_ b;
     free_list_ := free_list_ b |}.

Definition set_disk_scheduler (d : DiskScheduler) (b : BufferPoolManager) : BufferPoolManager :=
  {| pool_size_ := pool_size_ b; next_page_id_ := next_page_id_ b; pages_ := pages_ b;
     disk_scheduler_ := d; log_manager_ := log_manager_ b;
     page_table_ := page_table_ b; replacer_ := replacer_ b;
     free_list_ := free_list_ b |}.

Definition set_page_table (t : gmap Z Z) (b : BufferPoolManager) : BufferPoolManager :=
  {| pool_size_ := pool_size_ b; next_page_id_ := next_page_id_ b; pages_ := pages_ b;
     disk_scheduler_ := disk_scheduler_ b; log_manager_ := log_manager_ b;
     page_table_ := t; replacer_ := replacer_ b;
     free_list_ := free_list_ b |}.

Definition set_replacer (r : LRUKReplacer) (b : BufferPoolManager) : BufferPoolManager :=
  {| pool_size_ := pool_size_ b; next_page_id_ := next_page_id_ b; pages_ := pages_ b;
     disk_scheduler_ := disk_scheduler_ b; log_manager_ := log_manager_ b;
     page_table_ := page_table_ b; replacer_ := r;
     free_list_ := free_list_ b |}.

Definition set_free_list (l : list Z) (b : BufferPoolManager) : BufferPoolManager :=
  {| pool_size_ := pool_size_ b; next_page_id_ := next_page_id_ b; pages_ := pages_ b;
     disk_scheduler_ := disk_scheduler_ b; log_manager_ := log_manager_ b;
     page_table_ := page_table_ b; replacer_ := replacer_ b;
     free_list_ := l |}.

(** [static_cast<int>(i)] for a [size_t] [i]. *)
Definition to_int (z : Z) : Z := (z + 2 ^ 31) mod 2 ^ 32 - 2 ^ 31.

(** The statements of the constructor that follow the [throw]: the frame
    array, the replacer, and the free list filled with [0 .. pool_size - 1].
    [disk] is the scheduler that the member initialisers make from
    [disk_manager].  Modelled from the spec: the page-id allocator is an
    "internal monotone counter starting at 0", and the page table and the free
    list of a new object are empty. *)
Definition ctor_body (pool_size : Z) (disk : DiskScheduler) (replacer_k : Z)
    (log_manager : option unit) : BufferPoolManager :=
  {| pool_size_ := pool_size;
     next_page_id_ := 0;
     pages_ := replicate (Z.to_nat pool_size) Page_default;
     disk_scheduler_ := disk;
     log_manager_ := log_manager;
     page_table_ := ∅;
     replacer_ := LRUKReplacer_ctor pool_size replacer_k;
     free_list_ := to_int <$> seqZ 0 pool_size |}.

(** [BufferPoolManager::BufferPoolManager]: the object under construction
    does not exist for the caller until the body has run to its end. *)
Definition BufferPoolManager_ctor (pool_size : Z) (disk : DiskScheduler)
    (replacer_k : Z) (log_manager : option unit) : M unit BufferPoolManager :=
  (throw NotImplementedException : M unit unit) ;;;
  ret (ctor_body pool_size disk replacer_k log_manager).

(** [pages_[frame_id]], read and written. *)
Definition page_lookup (ps : list Page) (frame_id : Z) : option Page :=
  if frame_id <? 0 then None else ps !! Z.to_nat frame_id.

Definition page_at (frame_id : Z) : M BufferPoolManager Page := fun b =>
  match page_lookup (pages_ b) frame_id with
  | Some p => Ok p b
  | None => Stuck index_out_of_bounds
  end.

Definition update_page (frame_id : Z) (f : Page -> Page) : M BufferPoolManager unit :=
  p <- page_at frame_id ;;
  modify (fun b => set_pages (<[Z.to_nat frame_id := f p]> (pages_ b)) b).

(** [replacer_->m(...)] *)
Definition replacer {A : Type} (m : M LRUKReplacer A) : M BufferPoolManager A := fun b =>
  match m (replacer_ b) with
  | Ok a r => Ok a (set_replacer r b)
  | Throw e r => Throw e (set_replacer r b)
  | Stuck f => Stuck f
  end.

Definition ReadFrame (frame_id page_id : Z) : M BufferPoolManager unit :=
  p <- page_at frame_id ;;
  b <- get ;;
  let request := {| is_write_ := false; request_data_ := GetData p;
                    request_page_id_ := page_id |} in
  let '(d, buffer) := Schedule request (disk_scheduler_ b) in
  modify (set_disk_scheduler d) ;;;
  update_page frame_id (set_data buffer).

Definition WriteFrame (frame_id page_id : Z) : M BufferPoolManager unit :=
  p <- page_at frame_id ;;
  b <- get ;;
  let request := {| is_write_ := true; request_data_ := GetData p;
                    request_page_id_ := page_id |} in
  let '(d, _) := Schedule request (disk_scheduler_ b) in
  modify (set_disk_scheduler d).

Definition AllocateFrame : M BufferPoolManager Z :=
  b <- get ;;
  match free_list_ b with
  | front :: rest =>
      modify (set_free_list rest) ;;;
      ret front
  | [] =>
      evicted <- replacer Evict ;;
      match evicted with
      | Some frame_id =>
          p <- page_at frame_id ;;
          (if IsDirty p then WriteFrame frame_id (GetPageId p) else ret tt) ;;;
          p <- page_at frame_id ;;
          modify (fun b => set_page_table (delete (GetPageId p) (page_table_ b)) b) ;;;
          ret frame_id
      | None => ret INVALID_PAGE_ID
      end
  end.

(** [next_page_id_++] on a [std::atomic<page_id_t>], which wraps. *)
Definition AllocatePage : M BufferPoolManager Z :=
  b <- get ;;
  modify (set_next_page_id (to_int (next_page_id_ b + 1))) ;;;
  ret (next_page_id_ b).

(** Modelled from the spec: the deallocation hook "may be a no-op". *)
Definition DeallocatePage (page_id : Z) : M BufferPoolManager unit := ret tt.

(** [NewPage(&page_id)]: [Some (id, f)] stands for [*page_id = id] and the
    pointer [&pages_[f]], [None] for [nullptr] with [*page_id] untouched. *)
Definition NewPage : M BufferPoolManager (option (Z * Z)) :=
  frame_id <- AllocateFrame ;;
  if frame_id =? INVALID_PAGE_ID then ret None
  else
    page_id <- AllocatePage ;;
    update_page frame_id ResetMemory ;;;
    update_page frame_id (set_page_id page_id) ;;;
    update_page frame_id (set_pin_count 1) ;;;
    update_page frame_id (set_is_dirty false) ;;;
    replacer (RecordAccess frame_id Unknown) ;;;
    replacer (SetEvictable frame_id false) ;;;
    modify (fun b => set_page_table (<[page_id := frame_id]> (page_table_ b)) b) ;;;
    ret (Some (page_id, frame_id)).

(** [FetchPage]: the pointer [&pages_[f]] is [Some f], [nullptr] is [None]. *)
Definition FetchPage (page_id : Z) (access_type : AccessType)
    : M BufferPoolManager (option Z) :=
  b <- get ;;
  match page_table_ b !! page_id with
  | Some frame_id =>
      p <- page_at frame_id ;;
      (if pin_count_ p =? INT_MAX then stuck signed_overflow
       else update_page frame_id (set_pin_count (pin_count_ p + 1))) ;;;
      replacer (RecordAccess frame_id access_type) ;;;
      replacer (SetEvictable frame_id false) ;;;
      ret (Some frame_id)
  | None =>
      frame_id <- AllocateFrame ;;
      if frame_id =? INVALID_PAGE_ID then ret None
      else
        ReadFrame frame_id page_id ;;;
        update_page frame_id (set_page_id page_id) ;;;
        update_page frame_id (set_pin_count 1) ;;;
        update_page frame_id (set_is_dirty false) ;;;
        replacer (RecordAccess frame_id access_type) ;;;
        replacer (SetEvictable frame_id false) ;;;
        modify (fun b => set_page_table (<[page_id := frame_id]> (page_table_ b)) b) ;;;
        ret (Some frame_id)
  end.

Definition UnpinPage (page_id : Z) (is_dirty : bool) (access_type : AccessType)
    : M BufferPoolManager bool :=
  b <- get ;;
  match page_table_ b !! page_id with
  | None => ret false
  | Some frame_id =>
      p <- page_at frame_id ;;
      if pin_count_ p <=? 0 then ret false
      else
        update_page frame_id (set_pin_count (pin_count_ p - 1)) ;;;
        update_page frame_id (fun p => set_is_dirty (is_dirty_ p || is_dirty) p) ;;;
        p <- page_at frame_id ;;
        (if pin_count_ p =? 0 then replacer (SetEvictable frame_id true) else ret tt) ;;;
        ret true
  end.

(** Modelled from the spec: [BUSTUB_ENSURE] of [common/macros.h] guards a
    "programmer-error assertion"; a false condition ends the program. *)
Definition BUSTUB_ENSURE (condition : bool) : M BufferPoolManager unit :=
  if condition then ret tt else stuck ensure_failed.

Definition FlushPage (page_id : Z) : M BufferPoolManager bool :=
  BUSTUB_ENSURE (negb (page_id =? INVALID_PAGE_ID)) ;;;
  b <- get ;;
  match page_table_ b !! page_id with
  | None => ret false
  | Some frame_id =>
      WriteFrame frame_id page_id ;;;
      update_page frame_id (set_is_dirty false) ;;;
      ret true
  end.

(** The loop of [FlushAllPages] over the entries of [page_table_]. *)
Fixpoint flush_entries (entries : list (Z * Z)) : M BufferPoolManager unit :=
  match entries with
  | [] => ret tt
  | (page_id, frame_id) :: rest =>
      WriteFrame frame_id page_id ;;;
      update_page frame_id (set_is_dirty false) ;;;
      flush_entries rest
  end.

Definition FlushAllPages : M BufferPoolManager unit :=
  b <- get ;;
  flush_entries (map_to_list (page_table_ b)).

Definition DeletePage (page_id : Z) : M BufferPoolManager bool :=
  b <- get ;;
  match page_table_ b !! page_id with
  | None => ret true
  | Some frame_id =>
      p <- page_at frame_id ;;
      if 0 <? pin_count_ p then ret false
      else
        modify (fun b => set_page_table (delete page_id (page_table_ b)) b) ;;;
        modify (fun b => set_free_list (free_list_ b ++ [frame_id]) b) ;;;
        replacer (Remove frame_id) ;;;
        update_page frame_id ResetMemory ;;;
        update_page frame_id (set_page_id INVALID_PAGE_ID) ;;;
        update_page frame_id (set_pin_count 0) ;;;
        update_page frame_id (set_is_dirty false) ;;;
        DeallocatePage page_id ;;;
        ret true
  end.

(** Modelled from the spec: [storage/page/page_guard.h] is not among the
    sources.  A guard is a scoped handle that wraps the page pointer it was
    built from ([None] is [nullptr]); the pool it refers to is the one that
    issued it. *)
Inductive BasicPageGuard : Set := mkBasicPageGuard (page : option Z).
Inductive ReadPageGuard : Set := mkReadPageGuard (page : option Z).
Inductive WritePageGuard : Set := mkWritePageGuard (page : option Z).

(** [page->RLatch()] and [page->WLatch()] through a [Page *]. *)
Definition latch_through (page : option Z) (acquire : Page -> option Page)
    : M BufferPoolManager unit :=
  match page with
  | None => stuck null_dereference
  | Some frame_id =>
      p <- page_at frame_id ;;
      match acquire p with
      | Some p' => update_page frame_id (fun _ => p')
      | None => stuck latch_never_granted
      end
  end.

Definition FetchPageBasic (page_id : Z) : M BufferPoolManager BasicPageGuard :=
  page <- FetchPage page_id Unknown ;;
  ret (mkBasicPageGuard page).

Definition FetchPageRead (page_id : Z) : M BufferPoolManager ReadPageGuard :=
  page <- FetchPage page_id Unknown ;;
  latch_through page RLatch ;;;
  ret (mkReadPageGuard page).

Definition FetchPageWrite (page_id : Z) : M BufferPoolManager WritePageGuard :=
  page <- FetchPage page_id Unknown ;;
  latch_through page WLatch ;;;
  ret (mkWritePageGuard page).

(** [NewPageGuarded(&page_id)]: the guard, and the id written to [*page_id]
    when a page was created. *)
Definition NewPageGuarded : M BufferPoolManager (option Z * BasicPageGuard) :=
  created <- NewPage ;;
  ret (fst <$> created, mkBasicPageGuard (snd <$> created)).

End buffer_pool_manager.

(** ** The vocabulary of the properties *)

Module replacer_spec.
Import lru_k_replacer.

(** An entry of the node store whose [is_evictable_] flag is set. *)
Definition evictable (entry : Z * LRUKNode) : Prop :=
  is_evictable_ entry.2 = true.

#[export] Instance evictable_dec entry : Decision (evictable entry).
Proof. unfold evictable. apply _. Defined.

(** The number of nodes in the node store whose flag is set. *)
Definition evictable_count (r : LRUKReplacer) : nat :=
  size (filter evictable (node_store_ r)).

(** The size invariant of the data model: [curr_size_] is a [size_t] that
    holds the number of evictable nodes. *)
Definition size_accounted (r : LRUKReplacer) : Prop :=
  is_size_t (curr_size_ r) /\ curr_size_ r = Z.of_nat (evictable_count r).

#[export] Instance size_accounted_dec r : Decision (size_accounted r).
Proof. unfold size_accounted, is_size_t. apply _. Defined.

(** What a node adds to the number of evictable nodes. *)
Definition flag_weight (n : LRUKNode) : nat := if is_evictable_ n then 1%nat else 0%nat.

(** The distance [Evict] stores in [evict_list] for a node whose oldest
    timestamp is [oldest]. *)
Definition stored_distance (r : LRUKReplacer) (node : LRUKNode) (oldest : Z) : Z :=
  if size_ (history_ node) <? k_ r then SIZE_MAX
  else to_size_t (current_timestamp_ r - oldest).

(** *** [record_access] as the specification words it *)

(** "If the frame is unknown, create a node.  Append current timestamp to
    its history; if the history now exceeds k entries, drop the oldest.
    Fails with OutOfRange if frame_id >= num_frames."  The timestamp is
    "incremented on each recorded access". *)
Definition record_access_spec (frame_id : Z) (access_type : AccessType)
    : M LRUKReplacer unit := fun r =>
  if replacer_size_ r <=? to_size_t frame_id then Throw std_out_of_range r
  else
    let node := default LRUKNode_default (node_store_ r !! frame_id) in
    let appended := history_ node ++ [current_timestamp_ r] in
    let kept := if k_ r <? size_ appended then tail appended else appended in
    Ok tt (set_current_timestamp (to_size_t (current_timestamp_ r + 1))
             (set_node_store (<[frame_id := set_history kept node]> (node_store_ r)) r)).

(** "Append then trim to at most k entries": the oldest entries go until
    no more than [k] are left. *)
Definition trim (k : Z) (h : list Z) : list Z :=
  drop (length h - Z.to_nat k) h.

Definition record_access_trim (frame_id : Z) (access_type : AccessType)
    : M LRUKReplacer unit := fun r =>
  if replacer_size_ r <=? to_size_t frame_id then Throw std_out_of_range r
  else
    let node := default LRUKNode_default (node_store_ r !! frame_id) in
    let kept := trim (k_ r) (history_ node ++ [current_timestamp_ r]) in
    Ok tt (set_current_timestamp (to_size_t (current_timestamp_ r + 1))
             (set_node_store (<[frame_id := set_history kept node]> (node_store_ r)) r)).

(** The history of [frame_id], if the frame is tracked, holds at most [k]
    timestamps. *)
Definition history_within_k (frame_id : Z) (r : LRUKReplacer) : Prop :=
  match node_store_ r !! frame_id with
  | Some node => size_ (history_ node) <= k_ r
  | None => True
  end.

#[export] Instance history_within_k_dec frame_id r : Decision (history_within_k frame_id r).
Proof. unfold history_within_k. destruct (node_store_ r !! frame_id); apply _. Defined.

(** *** Sequences of replacer operations *)

Inductive replacer_op : Set :=
| op_record_access (frame_id : Z) (access_type : AccessType)
| op_set_evictable (frame_id : Z) (flag : bool)
| op_evict
| op_remove (frame_id : Z).

(** A [frame_id_t] argument is an [int32_t]. *)
Definition op_typed (op : replacer_op) : Prop :=
  match op with
  | op_record_access frame_id _ => is_int frame_id
  | op_set_evictable frame_id _ => is_int frame_id
  | op_evict => True
  | op_remove frame_id => is_int frame_id
  end.

#[export] Instance op_typed_dec op : Decision (op_typed op).
Proof. destruct op; unfold op_typed, is_int; apply _. Defined.

(** The state a call leaves to the next one: a caller that catches the
    exception goes on with the object as the throwing call left it. *)
Definition state_after {S A : Type} (o : outcome S A) : option S :=
  match o with
  | Ok _ s => Some s
  | Throw _ s => Some s
  | Stuck _ => None
  end.

Definition exec (op : replacer_op) (r : LRUKReplacer) : option LRUKReplacer :=
  match op with
  | op_record_access frame_id access_type => state_after (RecordAccess frame_id access_type r)
  | op_set_evictable frame_id flag => state_after (SetEvictable frame_id flag r)
  | op_evict => state_after (Evict r)
  | op_remove frame_id => state_after (Remove frame_id r)
  end.

Fixpoint run (ops : list replacer_op) (r : LRUKReplacer) : option LRUKReplacer :=
  match ops with
  | [] => Some r
  | op :: rest =>
      match exec op r with
      | Some r' => run rest r'
      | None => None
      end
  end.

(** *** The eviction policy *)

(** The k-distance of the specification: "+infinity" for a node with fewer
    than [k] recorded accesses, and [current_timestamp] minus the oldest
    recorded timestamp otherwise. *)
Inductive k_distance : Set :=
| Finite (d : Z)
| Infinite.

Definition k_distance_of (r : LRUKReplacer) (node : LRUKNode) (oldest : Z) : k_distance :=
  if size_ (history_ node) <? k_ r then Infinite
  else Finite (current_timestamp_ r - oldest).

(** [a] is a smaller distance than [b]. *)
Definition nearer (a b : k_distance) : Prop :=
  match a, b with
  | Finite x, Finite y => x < y
  | Finite _, Infinite => True
  | Infinite, _ => False
  end.

(** The states in which the loop of [Evict] reads defined values: every
    evictable node has an oldest timestamp, which is not in the future, and
    the clock has not reached the largest [size_t]. *)
Definition oldest_in_past (now : Z) (node : LRUKNode) : Prop :=
  match history_ node with
  | [] => False
  | t :: _ => 0 <= t <= now
  end.

#[export] Instance oldest_in_past_dec now node : Decision (oldest_in_past now node).
Proof. unfold oldest_in_past. destruct (history_ node); apply _. Defined.

Definition evict_ready (r : LRUKReplacer) : Prop :=
  current_timestamp_ r < SIZE_MAX
  /\ map_Forall (fun _ node => is_evictable_ node = true ->
                               oldest_in_past (current_timestamp_ r) node)
       (node_store_ r).

#[export] Instance evict_ready_dec r : Decision (evict_ready r).
Proof. unfold evict_ready. apply _. Defined.

(** *** Concrete replacers *)

(** The replacer that a sequence of calls leaves when started on a new one
    (the new one itself if the sequence does not run to its end). *)
Definition replacer_after (ops : list replacer_op) (num_frames k : Z) : LRUKReplacer :=
  default (LRUKReplacer_ctor num_frames k) (run ops (LRUKReplacer_ctor num_frames k)).

(** The warm-up scenario with [k = 2]: frame 0 accessed once, frame 1 twice,
    both evictable. *)
Definition warmup_ops : list replacer_op :=
  [op_record_access 0 Unknown; op_record_access 1 Unknown; op_record_access 1 Unknown;
   op_set_evictable 0 true; op_set_evictable 1 true].

Definition warmup_replacer : LRUKReplacer := replacer_after warmup_ops 7 2.

(** *** The invariant behind the size accounting *)

(** Besides the accounting itself: every key is an [int32_t], and every
    tracked node has recorded at least one access. *)
Definition size_invariant (r : LRUKReplacer) : Prop :=
  size_accounted r
  /\ map_Forall (fun fid _ => is_int fid) (node_store_ r)
  /\ map_Forall (fun _ node => history_ node <> []) (node_store_ r).

(** The clock is ahead of every recorded timestamp. *)
Definition clock_invariant (r : LRUKReplacer) : Prop :=
  0 <= current_timestamp_ r
  /\ map_Forall (fun _ node => Forall (fun t => 0 <= t < current_timestamp_ r) (history_ node))
       (node_store_ r).

(** The node that [RecordAccess] leaves for [frame_id]. *)
Definition accessed (r : LRUKReplacer) (frame_id : Z) : LRUKNode :=
  match node_store_ r !! frame_id with
  | None => {| history_ := [current_timestamp_ r]; is_evictable_ := false |}
  | Some node =>
      set_history
        ((if k_ r <=? size_ (history_ node) then tail (history_ node) else history_ node)
           ++ [current_timestamp_ r])
        node
  end.

(** No timestamp is recorded for two frames. *)
Definition timestamps_distinct (r : LRUKReplacer) : Prop :=
  forall f g nf ng t,
    node_store_ r !! f = Some nf -> node_store_ r !! g = Some ng ->
    t ∈ history_ nf -> t ∈ history_ ng -> f = g.

(** *** What the histories of a replacer look like *)

(** A history as [RecordAccess] builds it: not empty, of at most [k] entries
    (one when [k] is zero), strictly increasing from the front, and written
    before the clock reached [now]. *)
Definition history_ok (k now : Z) (h : list Z) : Prop :=
  h <> []
  /\ size_ h <= Z.max k 1
  /\ StronglySorted Z.lt h
  /\ Forall (fun t => 0 <= t < now) h.

Definition histories_ok (r : LRUKReplacer) : Prop :=
  map_Forall (fun _ node => history_ok (k_ r) (current_timestamp_ r) (history_ node))
    (node_store_ r).

(** Every tracked frame id passed the range check of [RecordAccess]. *)
Definition tracked_in_range (r : LRUKReplacer) : Prop :=
  map_Forall (fun fid _ => to_size_t fid < replacer_size_ r) (node_store_ r).

End replacer_spec.

Module pool_spec.
Import lru_k_replacer buffer_pool_manager replacer_spec.

(** The frame [frame_id] is a slot of the array, and the replacer tracks it. *)
Definition frame_tracked (b : BufferPoolManager) (frame_id : Z) : Prop :=
  is_Some (page_lookup (pages_ b) frame_id)
  /\ to_size_t frame_id < replacer_size_ (replacer_ b)
  /\ is_Some (node_store_ (replacer_ b) !! frame_id).

#[export] Instance frame_tracked_dec b frame_id : Decision (frame_tracked b frame_id).
Proof. unfold frame_tracked. apply _. Defined.

(** Every resident page sits in a frame of the array that the replacer tracks
    (each was handed to [RecordAccess] when its page came in). *)
Definition resident_frames_tracked (b : BufferPoolManager) : Prop :=
  map_Forall (fun _ frame_id => frame_tracked b frame_id) (page_table_ b).

#[export] Instance resident_frames_tracked_dec b : Decision (resident_frames_tracked b).
Proof. unfold resident_frames_tracked. apply _. Defined.

(** A frame whose pin count is not positive is evictable, if its node is
    tracked (the last [UnpinPage] marked it). *)
Definition unpinned_is_evictable (b : BufferPoolManager) (frame_id : Z) : Prop :=
  match page_lookup (pages_ b) frame_id, node_store_ (replacer_ b) !! frame_id with
  | Some p, Some node => pin_count_ p <= 0 -> is_evictable_ node = true
  | _, _ => True
  end.

#[export] Instance unpinned_is_evictable_dec b frame_id :
  Decision (unpinned_is_evictable b frame_id).
Proof.
  unfold unpinned_is_evictable.
  destruct (page_lookup (pages_ b) frame_id), (node_store_ (replacer_ b) !! frame_id);
    apply _.
Defined.

Definition unpinned_frames_evictable (b : BufferPoolManager) : Prop :=
  map_Forall (fun _ frame_id => unpinned_is_evictable b frame_id) (page_table_ b).

#[export] Instance unpinned_frames_evictable_dec b : Decision (unpinned_frames_evictable b).
Proof. unfold unpinned_frames_evictable. apply _. Defined.

(** The frame metadata after a successful [UnpinPage]. *)
Definition unpinned (is_dirty : bool) (p : Page) : Page :=
  set_is_dirty (is_dirty_ p || is_dirty) (set_pin_count (pin_count_ p - 1) p).

(** The frame after [DeletePage]: buffer zeroed, no page, no pin, clean. *)
Definition emptied (p : Page) : Page :=
  set_is_dirty false (set_pin_count 0 (set_page_id INVALID_PAGE_ID (ResetMemory p))).

(** The disk after the buffer of [p] has been written under [p]'s page id. *)
Definition written_back (p : Page) (d : DiskScheduler) : DiskScheduler :=
  {| stable_storage := <[page_id_ p := data_ p]> (stable_storage d);
     scheduled := scheduled d ++ [{| is_write_ := true; request_data_ := data_ p;
                                     request_page_id_ := page_id_ p |}] |}.

(** A step of a pool operation that, when it returns, has left what the
    disk holds as it was. *)
Definition keeps_storage {A : Type} (m : M BufferPoolManager A) : Prop :=
  forall b a b', m b = Ok a b' ->
                 stable_storage (disk_scheduler_ b') = stable_storage (disk_scheduler_ b).

(** What a call returned together with the state it left, when it returned. *)
Definition state_after_result {S A : Type} (o : outcome S A) : option (A * S) :=
  match o with
  | Ok a s => Some (a, s)
  | _ => None
  end.

(** *** Sequences of pool operations and the invariant they keep *)

Inductive pool_op : Set :=
| op_new_page
| op_fetch_page (page_id : Z) (access_type : AccessType)
| op_unpin_page (page_id : Z) (is_dirty : bool) (access_type : AccessType)
| op_flush_page (page_id : Z)
| op_flush_all_pages
| op_delete_page (page_id : Z)
| op_fetch_page_basic (page_id : Z)
| op_fetch_page_read (page_id : Z)
| op_fetch_page_write (page_id : Z)
| op_new_page_guarded.

Definition exec_pool (op : pool_op) (b : BufferPoolManager) : option BufferPoolManager :=
  match op with
  | op_new_page => state_after (NewPage b)
  | op_fetch_page page_id access_type => state_after (FetchPage page_id access_type b)
  | op_unpin_page page_id is_dirty access_type =>
      state_after (UnpinPage page_id is_dirty access_type b)
  | op_flush_page page_id => state_after (FlushPage page_id b)
  | op_flush_all_pages => state_after (FlushAllPages b)
  | op_delete_page page_id => state_after (DeletePage page_id b)
  | op_fetch_page_basic page_id => state_after (FetchPageBasic page_id b)
  | op_fetch_page_read page_id => state_after (FetchPageRead page_id b)
  | op_fetch_page_write page_id => state_after (FetchPageWrite page_id b)
  | op_new_page_guarded => state_after (NewPageGuarded b)
  end.

Fixpoint run_pool (ops : list pool_op) (b : BufferPoolManager) : option BufferPoolManager :=
  match ops with
  | [] => Some b
  | op :: rest =>
      match exec_pool op b with
      | Some b' => run_pool rest b'
      | None => None
      end
  end.

(** A frame id that indexes the frame array. *)
Definition valid_frame (b : BufferPoolManager) (frame_id : Z) : Prop :=
  0 <= frame_id < pool_size_ b.

(** What the pool operations keep between calls: the array has [pool_size_]
    frames and the replacer was made for as many; the free list holds distinct
    frames of the array that no resident page maps to; a resident page sits in
    a frame of the array that carries its id and a pin count that is not
    negative, tracked by the replacer and evictable when the pin count is
    zero; the replacer tracks frames of the array only. *)
Record pool_invariant (b : BufferPoolManager) : Prop := {
  inv_pool_size : pool_size_ b = Z.of_nat (length (pages_ b)) /\ pool_size_ b <= 2 ^ 31;
  inv_replacer_size : replacer_size_ (replacer_ b) = pool_size_ b;
  inv_free_valid : Forall (valid_frame b) (free_list_ b);
  inv_free_nodup : NoDup (free_list_ b);
  inv_free_unmapped : forall pid f, page_table_ b !! pid = Some f -> f ∉ free_list_ b;
  inv_resident :
    forall pid f,
      page_table_ b !! pid = Some f ->
      valid_frame b f
      /\ exists p node,
           page_lookup (pages_ b) f = Some p
           /\ page_id_ p = pid
           /\ 0 <= pin_count_ p
           /\ node_store_ (replacer_ b) !! f = Some node
           /\ (pin_count_ p = 0 -> is_evictable_ node = true);
  inv_tracked_valid :
    forall f node, node_store_ (replacer_ b) !! f = Some node -> valid_frame b f;
  inv_replacer : size_invariant (replacer_ b)
}.

(** Two pools that differ at most in the bytes, the dirty flags and the
    latches of their frames, in the disk and in the page id counter. *)
Definition same_core (b b' : BufferPoolManager) : Prop :=
  pool_size_ b' = pool_size_ b
  /\ free_list_ b' = free_list_ b
  /\ page_table_ b' = page_table_ b
  /\ replacer_ b' = replacer_ b
  /\ length (pages_ b') = length (pages_ b)
  /\ forall f p, page_lookup (pages_ b) f = Some p ->
                 exists p', page_lookup (pages_ b') f = Some p'
                            /\ page_id_ p' = page_id_ p /\ pin_count_ p' = pin_count_ p.

(** The statements that [NewPage] and [FetchPage] share once the frame
    [frame_id] has been obtained and its buffer filled. *)
Definition install {A : Type} (frame_id page_id : Z) (access_type : AccessType) (result : A)
    : M BufferPoolManager A :=
  (update_page frame_id (set_page_id page_id) ;;;
   update_page frame_id (set_pin_count 1) ;;;
   update_page frame_id (set_is_dirty false) ;;;
   replacer (RecordAccess frame_id access_type) ;;;
   replacer (SetEvictable frame_id false) ;;;
   modify (fun b => set_page_table (<[page_id := frame_id]> (page_table_ b)) b) ;;;
   ret result)%prog.

(** A frame that [AllocateFrame] has handed out: a frame of the array that is
    neither on the free list nor the frame of a resident page. *)
Definition allocated (f : Z) (b : BufferPoolManager) : Prop :=
  pool_invariant b
  /\ valid_frame b f
  /\ (f ∉ free_list_ b)
  /\ forall pid, page_table_ b !! pid <> Some f.

(** [m], started where [P] holds, ends where [Q] holds of its result if it
    returns, and leaves the pool invariant if it throws. *)
Definition triple {A : Type} (P : BufferPoolManager -> Prop) (m : M BufferPoolManager A)
    (Q : A -> BufferPoolManager -> Prop) : Prop :=
  forall b, P b ->
            match m b with
            | Ok a b' => Q a b'
            | Throw _ b' => pool_invariant b'
            | Stuck _ => True
            end.

(** [m] leaves the core of the pool as it is, however it ends. *)
Definition steps_core {A : Type} (m : M BufferPoolManager A) : Prop :=
  forall b, match m b with
            | Ok _ b' => same_core b b'
            | Throw _ b' => same_core b b'
            | Stuck _ => True
            end.

(** *** Vocabulary of the further properties of the pool *)

(** The frame metadata that [NewPage] and [FetchPage] write for a page that
    comes in. *)
Definition installed (page_id : Z) (p : Page) : Page :=
  set_is_dirty false (set_pin_count 1 (set_page_id page_id p)).

(** [m] leaves the disk scheduler (what the disk holds and what was
    scheduled) as it is, however it ends. *)
Definition keeps_disk {A : Type} (m : M BufferPoolManager A) : Prop :=
  forall b, match m b with
            | Ok _ b' => disk_scheduler_ b' = disk_scheduler_ b
            | Throw _ b' => disk_scheduler_ b' = disk_scheduler_ b
            | Stuck _ => True
            end.

(** The frames that [AllocateFrame] can hand out are not pinned: neither a
    frame that the replacer holds as evictable, nor a frame on the free list. *)
Definition reusable_frames_unpinned (b : BufferPoolManager) : Prop :=
  (forall f node p,
      node_store_ (replacer_ b) !! f = Some node ->
      is_evictable_ node = true ->
      page_lookup (pages_ b) f = Some p ->
      pin_count_ p = 0)
  /\ (forall f p,
        f ∈ free_list_ b ->
        page_lookup (pages_ b) f = Some p ->
        pin_count_ p = 0).

(** [m] keeps the frames that can be handed out unpinned, in a pool that
    satisfies the invariant. *)
Definition keeps_pins {A : Type} (m : M BufferPoolManager A) : Prop :=
  forall b, pool_invariant b -> reusable_frames_unpinned b ->
            match m b with
            | Ok _ b' => reusable_frames_unpinned b'
            | Throw _ b' => reusable_frames_unpinned b'
            | Stuck _ => True
            end.

(** A pool that a program can be in: one that a sequence of operations leads
    to from the pool that the constructor body builds for at most [2^31]
    frames. *)
Definition reached (b : BufferPoolManager) : Prop :=
  exists pool_size disk replacer_k log_manager ops,
    0 <= pool_size <= 2 ^ 31
    /\ run_pool ops (ctor_body pool_size disk replacer_k log_manager) = Some b.

(** The disk after a read of [page_id] into the buffer of [p]. *)
Definition read_into (page_id : Z) (p : Page) (d : DiskScheduler) : DiskScheduler :=
  {| stable_storage := stable_storage d;
     scheduled := scheduled d ++ [{| is_write_ := false; request_data_ := data_ p;
                                     request_page_id_ := page_id |}] |}.

(** *** Concrete pools *)

Definition empty_disk : DiskScheduler := {| stable_storage := ∅; scheduled := [] |}.

(** What the constructor body would build for [pool_size] frames and
    [replacer_k = 2]. *)
Definition fresh_pool (pool_size : Z) : BufferPoolManager :=
  ctor_body pool_size empty_disk 2 None.

(** The state a program leaves, when it comes back. *)
Definition state_of {A : Type} (o : outcome BufferPoolManager A) (otherwise : BufferPoolManager)
    : BufferPoolManager :=
  match o with
  | Ok _ b => b
  | Throw _ b => b
  | Stuck _ => otherwise
  end.

(** One frame, holding page 0, pinned once. *)
Definition pinned_pool : BufferPoolManager :=
  state_of (NewPage (fresh_pool 1)) (fresh_pool 1).

(** One frame, holding page 0, unpinned and dirty. *)
Definition dirty_pool : BufferPoolManager :=
  state_of (UnpinPage 0 true Unknown pinned_pool) pinned_pool.

End pool_spec.

(** ** Properties of the replacer *)

Section replacer_properties.
Import lru_k_replacer replacer_spec.

Lemma count_Some m fid node : m !! fid = Some node -> count m fid = 1.
Proof. unfold count. by intros ->. Qed.

Lemma count_None m fid : m !! fid = None -> count m fid = 0.
Proof. unfold count. by intros ->. Qed.

Lemma at_Some m fid node : m !! fid = Some node -> at_ m fid = node.
Proof. unfold at_. by intros ->. Qed.

Lemma in_range_test (r : LRUKReplacer) fid :
  to_size_t fid < replacer_size_ r -> (replacer_size_ r <=? to_size_t fid) = false.
Proof. intros. by apply Z.leb_gt. Qed.

(** C10: for a tracked frame id below [num_frames], [SetEvictable] with the
    flag the node already has returns normally and leaves the whole replacer
    (node store, the node's flag and history, [Size()]) as it was. *)
Theorem SetEvictable_same_flag_noop (r : LRUKReplacer) (fid : Z) (node : LRUKNode) :
  to_size_t fid < replacer_size_ r ->
  node_store_ r !! fid = Some node ->
  SetEvictable fid (is_evictable_ node) r = Ok tt r
  /\ (forall r', SetEvictable fid (is_evictable_ node) r = Ok tt r' ->
        node_store_ r' = node_store_ r
        /\ node_store_ r' !! fid = Some node
        /\ Size r' = Size r).
Proof.
  intros Hrange Hnode.
  assert (Heq : SetEvictable fid (is_evictable_ node) r = Ok tt r).
  { unfold SetEvictable.
    rewrite (in_range_test _ _ Hrange), (count_Some _ _ _ Hnode), (at_Some _ _ _ Hnode).
    simpl. by destruct (is_evictable_ node). }
  split; [exact Heq|].
  intros r' Hr'. rewrite Heq in Hr'. by inversion Hr'; subst.
Qed.

(** *** Counting evictable nodes across updates of the node store *)

Lemma evictable_size_insert (m : gmap Z LRUKNode) fid node :
  size (filter evictable (<[fid := node]> m))
  = (flag_weight node + size (filter evictable (delete fid m)))%nat.
Proof.
  unfold flag_weight. rewrite map_filter_insert. destruct (decide _) as [Hev|Hev].
  - unfold evictable in Hev; simpl in Hev. rewrite Hev.
    rewrite <- insert_delete_eq, map_size_insert_None by apply lookup_delete_eq.
    by rewrite map_filter_delete.
  - unfold evictable in Hev; simpl in Hev.
    by destruct (is_evictable_ node).
Qed.

Lemma evictable_size_split (m : gmap Z LRUKNode) fid :
  size (filter evictable m)
  = (from_option flag_weight 0%nat (m !! fid) + size (filter evictable (delete fid m)))%nat.
Proof.
  destruct (m !! fid) as [node|] eqn:Hfid; simpl.
  - rewrite <- (insert_delete_id m fid node) at 1 by done.
    rewrite evictable_size_insert. by rewrite delete_delete_eq.
  - by rewrite delete_id.
Qed.

Lemma to_size_t_small z : is_size_t z -> to_size_t z = z.
Proof. unfold is_size_t, SIZE_MAX, to_size_t. intros. apply Z.mod_small. lia. Qed.

Lemma erase_after_clear (m : gmap Z LRUKNode) fid node :
  delete fid (<[fid := node]> m) = delete fid m.
Proof. apply delete_insert_eq. Qed.

(** What [Remove] does with a frame id below [num_frames], whatever
    [curr_size_] holds. *)
Lemma Remove_outcome (r : LRUKReplacer) (fid : Z) :
  to_size_t fid < replacer_size_ r ->
  Remove fid r
  = match node_store_ r !! fid with
    | None => Ok tt r
    | Some node =>
        if is_evictable_ node
        then Ok tt (set_curr_size (to_size_t (curr_size_ r - 1))
                      (set_node_store (delete fid (node_store_ r)) r))
        else Throw std_logic_error r
    end.
Proof.
  intros Hrange. unfold Remove. rewrite (in_range_test _ _ Hrange).
  destruct (node_store_ r !! fid) as [node|] eqn:Hfid.
  - rewrite (count_Some _ _ _ Hfid), (at_Some _ _ _ Hfid). simpl.
    destruct (is_evictable_ node); simpl; [|done].
    by rewrite erase_after_clear.
  - by rewrite (count_None _ _ Hfid).
Qed.

Lemma evictable_count_pos (r : LRUKReplacer) fid node :
  node_store_ r !! fid = Some node -> is_evictable_ node = true ->
  (1 <= evictable_count r)%nat.
Proof.
  intros Hfid Hev. unfold evictable_count.
  rewrite (evictable_size_split _ fid), Hfid. simpl.
  unfold flag_weight. rewrite Hev. lia.
Qed.

(** With the size accounting, the decrement of [Evict] and [Remove] does
    not wrap. *)
Lemma decrement_no_wrap (r : LRUKReplacer) fid node :
  size_accounted r ->
  node_store_ r !! fid = Some node -> is_evictable_ node = true ->
  to_size_t (curr_size_ r - 1) = curr_size_ r - 1.
Proof.
  intros [Hsz Hcount] Hfid Hev. apply to_size_t_small.
  pose proof (evictable_count_pos r fid node Hfid Hev).
  unfold is_size_t in *. lia.
Qed.

(** C8: for a frame id below [num_frames], in a replacer whose size
    accounting holds, [Remove] returns with the state unchanged when the frame
    is not tracked; throws [std::logic_error] with the state unchanged when
    the frame is tracked and not evictable; and otherwise returns with the
    node erased and [curr_size_] smaller by one. *)
Theorem Remove_cases (r : LRUKReplacer) (fid : Z) :
  to_size_t fid < replacer_size_ r ->
  size_accounted r ->
  match node_store_ r !! fid with
  | None => Remove fid r = Ok tt r
  | Some node =>
      if is_evictable_ node
      then Remove fid r
           = Ok tt (set_curr_size (curr_size_ r - 1)
                      (set_node_store (delete fid (node_store_ r)) r))
      else Remove fid r = Throw std_logic_error r
  end.
Proof.
  intros Hrange Hacc. rewrite (Remove_outcome r fid Hrange).
  destruct (node_store_ r !! fid) as [node|] eqn:Hfid; [|done].
  destruct (is_evictable_ node) eqn:Hev; [|done].
  by rewrite (decrement_no_wrap r fid node).
Qed.

(** C4: with [k >= 1] and a frame id below [num_frames], [RecordAccess]
    ends exactly as the specification's [record_access] does (append the
    timestamp, then drop the oldest entry if more than [k] are held), from
    every state; and where the frame's history holds at most [k] entries it
    also ends as "append, then trim to at most k entries" does. *)
Theorem RecordAccess_refines_spec (r : LRUKReplacer) (fid : Z) (access_type : AccessType) :
  1 <= k_ r ->
  to_size_t fid < replacer_size_ r ->
  RecordAccess fid access_type r = record_access_spec fid access_type r
  /\ (history_within_k fid r ->
      RecordAccess fid access_type r = record_access_trim fid access_type r).
Proof.
  intros Hk Hrange.
  assert (Hspec : RecordAccess fid access_type r = record_access_spec fid access_type r).
  { unfold RecordAccess, record_access_spec. rewrite (in_range_test _ _ Hrange).
    destruct (node_store_ r !! fid) as [node|] eqn:Hfid; simpl.
    - unfold size_. rewrite length_app. simpl.
      destruct (k_ r <=? Z.of_nat (length (history_ node))) eqn:Hfull.
      + apply Z.leb_le in Hfull.
        destruct (history_ node) as [|t0 rest] eqn:Hh; [simpl in Hfull; lia|].
        unfold at_. rewrite lookup_insert_eq. simpl.
        rewrite insert_insert_eq.
        destruct (Z.ltb_spec (k_ r) (Z.of_nat (S (length rest + 1)))); [done|].
        simpl in Hfull. lia.
      + apply Z.leb_gt in Hfull.
        rewrite (at_Some _ _ _ Hfid).
        replace (k_ r <? Z.of_nat (length (history_ node) + 1)) with false
          by (symmetry; apply Z.ltb_ge; lia).
        done.
    - unfold at_. rewrite lookup_insert_eq. simpl. rewrite insert_insert_eq.
      replace (k_ r <? size_ [current_timestamp_ r]) with false
        by (symmetry; apply Z.ltb_ge; unfold size_; simpl; lia).
      done. }
  split; [exact Hspec|].
  intros Hbound. rewrite Hspec. unfold record_access_spec, record_access_trim.
  destruct (replacer_size_ r <=? to_size_t fid); [done|].
  do 4 f_equal.
  unfold history_within_k in Hbound.
  set (node := default LRUKNode_default (node_store_ r !! fid)).
  assert (Hlen : size_ (history_ node) <= k_ r).
  { subst node. destruct (node_store_ r !! fid); simpl; [done|]. unfold size_; simpl; lia. }
  unfold trim, size_ in *. rewrite length_app in *. simpl.
  destruct (k_ r <? Z.of_nat (length (history_ node) + 1)) eqn:Hover.
  - apply Z.ltb_lt in Hover.
    replace (length (history_ node) + 1 - Z.to_nat (k_ r))%nat with 1%nat by lia.
    by destruct (history_ node).
  - apply Z.ltb_ge in Hover.
    replace (length (history_ node) + 1 - Z.to_nat (k_ r))%nat with 0%nat by lia.
    done.
Qed.

(** *** The front of the sorted candidate list *)

Lemma before_irrefl c : before c c = false.
Proof. destruct c as [[f d] t]. simpl. rewrite Z.eqb_refl. apply Z.ltb_irrefl. Qed.

Lemma before_spec f1 d1 t1 f2 d2 t2 :
  before (f1, d1, t1) (f2, d2, t2) = true <-> d1 > d2 \/ (d1 = d2 /\ t1 < t2).
Proof.
  simpl. destruct (Z.eqb_spec d1 d2) as [->|Hne].
  - rewrite Z.ltb_lt. lia.
  - rewrite Z.gtb_gt. lia.
Qed.

Lemma before_trans a b c : before a b = true -> before b c = true -> before a c = true.
Proof.
  destruct a as [[fa da] ta], b as [[fb db] tb], c as [[fc dc] tc].
  rewrite !before_spec. lia.
Qed.

Lemma hd_insert_sorted x l d :
  hd d (insert_sorted x l)
  = match l with
    | [] => x
    | y :: _ => if before x y then x else y
    end.
Proof. destruct l as [|y l]; simpl; [done|]. by destruct (before x y). Qed.

Lemma insert_sorted_not_nil x l : insert_sorted x l <> [].
Proof. destruct l as [|y l]; simpl; [done|]. by destruct (before x y). Qed.

(** The element [std::sort] leaves at the front is one of the candidates,
    and the comparator puts no candidate before it. *)
Lemma sort_front_least (l : list candidate) (d : candidate) :
  l <> [] ->
  hd d (sort l) ∈ l /\ forall y, y ∈ l -> before y (hd d (sort l)) = false.
Proof.
  induction l as [|x l IH]; [done|]. intros _. simpl.
  rewrite hd_insert_sorted.
  destruct l as [|x' l'].
  - simpl. split; [apply list_elem_of_here|].
    intros y Hy. apply list_elem_of_singleton in Hy as ->. apply before_irrefl.
  - destruct (IH ltac:(done)) as [Hin Hleast].
    destruct (sort (x' :: l')) as [|m s] eqn:Hs.
    { simpl in Hs. by apply insert_sorted_not_nil in Hs. }
    simpl in Hin, Hleast.
    destruct (before x m) eqn:Hxm.
    + split; [apply list_elem_of_here|].
      intros y Hy. apply elem_of_cons in Hy as [->|Hy]; [apply before_irrefl|].
      destruct (before y x) eqn:Hyx; [|done].
      rewrite <- (Hleast y Hy). symmetry. by eapply before_trans.
    + split; [by apply list_elem_of_further|].
      intros y Hy. apply elem_of_cons in Hy as [->|Hy]; [done|by apply Hleast].
Qed.

(** *** What the loop of [Evict] collects *)

Lemma build_evict_list_collects (r : LRUKReplacer) (entries : list (Z * LRUKNode)) :
  (forall fid node, (fid, node) ∈ entries -> is_evictable_ node = true ->
                    history_ node <> []) ->
  exists l,
    build_evict_list r entries = Some l
    /\ forall fid d t,
         (fid, d, t) ∈ l <->
         exists node, (fid, node) ∈ entries /\ is_evictable_ node = true
                      /\ head (history_ node) = Some t
                      /\ d = stored_distance r node t.
Proof.
  induction entries as [|[fid0 node0] rest IH]; intros Hne.
  - exists []. split; [done|]. intros fid d t. split.
    + by intros ?%elem_of_nil.
    + by intros (node & ?%elem_of_nil & _).
  - destruct IH as (cs & Hcs & Hmem).
    { intros fid node Hin. apply (Hne fid). by apply list_elem_of_further. }
    simpl. rewrite Hcs.
    destruct (is_evictable_ node0) eqn:Hev0.
    + destruct (history_ node0) as [|t0 h0] eqn:Hh0.
      { exfalso. eapply (Hne fid0 node0); [apply list_elem_of_here|done|done]. }
      exists ((fid0, stored_distance r node0 t0, t0) :: cs). split.
      { unfold stored_distance. rewrite Hh0. by destruct (_ <? _). }
      intros fid d t. rewrite elem_of_cons, Hmem. split.
      * intros [Heq|(node & Hin & Hev & Hhd & Hd)].
        -- inversion Heq; subst. exists node0.
           split; [apply list_elem_of_here|]. by rewrite Hh0.
        -- exists node. split; [by apply list_elem_of_further|done].
      * intros (node & Hin & Hev & Hhd & Hd).
        apply elem_of_cons in Hin as [Heq|Hin].
        -- inversion Heq; subst. rewrite Hh0 in Hhd. simpl in Hhd.
           inversion Hhd; subst. by left.
        -- right. by exists node.
    + eexists. split; [reflexivity|].
      intros fid d t. simpl. rewrite Hmem. split.
      * intros (node & Hin & Hrest). exists node.
        split; [by apply list_elem_of_further|done].
      * intros (node & Hin & Hev & Hrest).
        apply elem_of_cons in Hin as [Heq|Hin].
        -- inversion Heq; subst. congruence.
        -- by exists node.
Qed.

(** [Evict] either finds no evictable node and returns [false], or erases
    an evictable node before which the comparator puts no other candidate. *)
Lemma Evict_outcome (r : LRUKReplacer) :
  (forall fid node, node_store_ r !! fid = Some node -> is_evictable_ node = true ->
                    history_ node <> []) ->
  (Evict r = Ok None r
   /\ forall fid node, node_store_ r !! fid = Some node -> is_evictable_ node = false)
  \/ (exists f n t,
        node_store_ r !! f = Some n /\ is_evictable_ n = true
        /\ head (history_ n) = Some t
        /\ Evict r = Ok (Some f)
                       (set_curr_size (to_size_t (curr_size_ r - 1))
                          (set_node_store (delete f (node_store_ r)) r))
        /\ forall g ng tg,
             node_store_ r !! g = Some ng -> is_evictable_ ng = true ->
             head (history_ ng) = Some tg ->
             before (g, stored_distance r ng tg, tg) (f, stored_distance r n t, t) = false).
Proof.
  intros Hne.
  destruct (build_evict_list_collects r (map_to_list (node_store_ r))) as (l & Hl & Hmem).
  { intros fid node Hin. apply (Hne fid). by apply elem_of_map_to_list. }
  unfold Evict. rewrite Hl. destruct l as [|c cs].
  - left. split; [done|]. intros fid node Hfid.
    destruct (is_evictable_ node) eqn:Hev; [|done]. exfalso.
    destruct (history_ node) as [|t h] eqn:Hh; [by eapply Hne|].
    eapply elem_of_nil, Hmem. exists node.
    split; [by apply elem_of_map_to_list|]. by rewrite Hh.
  - right.
    destruct (sort_front_least (c :: cs) c ltac:(done)) as [Hin Hleast].
    destruct (hd c (sort (c :: cs))) as [[f d] t] eqn:Hfront.
    apply Hmem in Hin as (n & Hn & Hev & Hhd & ->).
    apply elem_of_map_to_list in Hn.
    exists f, n, t. repeat split; try done.
    + by rewrite erase_after_clear.
    + intros g ng tg Hg Hevg Hhdg. apply Hleast, Hmem.
      exists ng. split; [by apply elem_of_map_to_list|done].
Qed.

(** *** The stored distance and the k-distance of the specification *)

Lemma stored_distance_in_past (r : LRUKReplacer) (node : LRUKNode) (t : Z) :
  current_timestamp_ r < SIZE_MAX ->
  0 <= t <= current_timestamp_ r ->
  stored_distance r node t
  = match k_distance_of r node t with
    | Infinite => SIZE_MAX
    | Finite d => d
    end
  /\ match k_distance_of r node t with
     | Infinite => True
     | Finite d => 0 <= d < SIZE_MAX
     end.
Proof.
  intros Hnow Ht. unfold stored_distance, k_distance_of.
  destruct (size_ (history_ node) <? k_ r); [done|].
  split; [|lia]. apply to_size_t_small. unfold is_size_t. lia.
Qed.

Lemma evict_ready_oldest (r : LRUKReplacer) fid node t :
  evict_ready r -> node_store_ r !! fid = Some node -> is_evictable_ node = true ->
  head (history_ node) = Some t -> 0 <= t <= current_timestamp_ r.
Proof.
  intros [_ Hall] Hfid Hev Hhd.
  pose proof (map_Forall_lookup_1 _ _ _ _ Hall Hfid Hev) as Hpast.
  unfold oldest_in_past in Hpast.
  destruct (history_ node); [done|]. simpl in Hhd. by inversion Hhd; subst.
Qed.

Lemma evict_ready_nonempty (r : LRUKReplacer) fid node :
  evict_ready r -> node_store_ r !! fid = Some node -> is_evictable_ node = true ->
  history_ node <> [].
Proof.
  intros [_ Hall] Hfid Hev Hnil.
  pose proof (map_Forall_lookup_1 _ _ _ _ Hall Hfid Hev) as Hpast.
  unfold oldest_in_past in Hpast. by rewrite Hnil in Hpast.
Qed.

(** C2: in a replacer whose evictable nodes carry an oldest timestamp that
    is not in the future, whose clock is below the largest [size_t] and
    whose size accounting holds, [Evict] returns [false] and changes nothing
    when no node is evictable; otherwise it returns an evictable frame to
    which every evictable node is nearer in k-distance, or as far and with an
    oldest timestamp that is not smaller, erases that node, and lowers
    [curr_size_] by one. *)
Theorem Evict_selects_largest_k_distance (r : LRUKReplacer) :
  evict_ready r ->
  size_accounted r ->
  ((forall fid node, node_store_ r !! fid = Some node -> is_evictable_ node = false) ->
   Evict r = Ok None r)
  /\ ((exists fid node, node_store_ r !! fid = Some node /\ is_evictable_ node = true) ->
      exists f n t,
        node_store_ r !! f = Some n
        /\ is_evictable_ n = true
        /\ head (history_ n) = Some t
        /\ Evict r = Ok (Some f)
                       (set_curr_size (curr_size_ r - 1)
                          (set_node_store (delete f (node_store_ r)) r))
        /\ forall g ng tg,
             node_store_ r !! g = Some ng -> is_evictable_ ng = true ->
             head (history_ ng) = Some tg ->
             nearer (k_distance_of r ng tg) (k_distance_of r n t)
             \/ (k_distance_of r ng tg = k_distance_of r n t /\ t <= tg)).
Proof.
  intros Hready Hacc.
  destruct (Evict_outcome r) as [[Hnone Hall]|(f & n & t & Hf & Hev & Hhd & Hevict & Hleast)].
  { intros fid node. by apply evict_ready_nonempty. }
  - split; [done|]. intros (fid & node & Hfid & Hev).
    rewrite (Hall _ _ Hfid) in Hev. done.
  - split.
    { intros Hno. rewrite (Hno _ _ Hf) in Hev. done. }
    intros _. exists f, n, t. repeat split; try done.
    + rewrite Hevict. do 3 f_equal. apply to_size_t_small.
      pose proof (evictable_count_pos r f n Hf Hev).
      destruct Hacc as [Hsz Hcount]. unfold is_size_t in *. lia.
    + intros g ng tg Hg Hevg Hhdg.
      pose proof (Hleast g ng tg Hg Hevg Hhdg) as Hnot.
      pose proof (proj1 Hready) as Hnow.
      destruct (stored_distance_in_past r ng tg Hnow
                  (evict_ready_oldest r g ng tg Hready Hg Hevg Hhdg)) as [Hdg Hbg].
      destruct (stored_distance_in_past r n t Hnow
                  (evict_ready_oldest r f n t Hready Hf Hev Hhd)) as [Hdf Hbf].
      assert (Hord : ~ (stored_distance r ng tg > stored_distance r n t
                        \/ (stored_distance r ng tg = stored_distance r n t /\ tg < t))).
      { rewrite <- before_spec, Hnot. done. }
      rewrite Hdg, Hdf in Hord.
      destruct (k_distance_of r ng tg) as [dg|], (k_distance_of r n t) as [df|]; simpl.
      * destruct (decide (dg < df)); [by left|]. right. split; [f_equal|]; lia.
      * by left.
      * lia.
      * right. split; [done|]. lia.
Qed.

(** *** The size invariant is kept by every operation *)

Lemma keys_in_range_size {A : Type} (n : nat) :
  forall (lo : Z) (m : gmap Z A),
    (forall k x, m !! k = Some x -> lo <= k < lo + Z.of_nat n) ->
    (size m <= n)%nat.
Proof.
  induction n as [|n IH]; intros lo m Hkeys.
  - assert (m = ∅) as ->; [|by rewrite map_size_empty].
    apply map_empty. intros i. destruct (m !! i) eqn:Hi; [|done].
    apply Hkeys in Hi. lia.
  - specialize (IH lo (delete (lo + Z.of_nat n) m)).
    rewrite map_size_delete in IH.
    assert (Hrest : forall k x, delete (lo + Z.of_nat n) m !! k = Some x ->
                                lo <= k < lo + Z.of_nat n).
    { intros k x [Hne Hk]%lookup_delete_Some. apply Hkeys in Hk. lia. }
    specialize (IH Hrest).
    destruct (m !! (lo + Z.of_nat n)); simpl in IH; unfold id in IH; lia.
Qed.

Lemma int_keys_size {A : Type} (m : gmap Z A) :
  map_Forall (fun fid _ => is_int fid) m -> Z.of_nat (size m) <= 4294967296.
Proof.
  intros Hkeys.
  pose proof (keys_in_range_size (Z.to_nat 4294967296) INT_MIN m) as Hsize.
  rewrite Z2Nat.id in Hsize by lia.
  assert (size m <= Z.to_nat 4294967296)%nat; [|lia].
  apply Hsize. intros k x Hk.
  pose proof (map_Forall_lookup_1 _ _ _ _ Hkeys Hk) as Hint.
  unfold is_int, INT_MIN, INT_MAX in *. lia.
Qed.

Lemma evictable_count_bound (m : gmap Z LRUKNode) :
  map_Forall (fun fid _ => is_int fid) m ->
  Z.of_nat (size (filter evictable m)) <= 4294967296.
Proof.
  intros Hkeys. pose proof (int_keys_size m Hkeys).
  pose proof (map_size_filter evictable m). lia.
Qed.

(** Replacing the node of [fid], or adding one: the accounting follows when
    [curr_size_] moves by the change of the node's weight. *)
Lemma size_invariant_store (r : LRUKReplacer) fid node t c :
  is_int fid ->
  history_ node <> [] ->
  c + Z.of_nat (from_option flag_weight 0%nat (node_store_ r !! fid))
    = curr_size_ r + Z.of_nat (flag_weight node) ->
  size_invariant r ->
  size_invariant
    (set_current_timestamp t
       (set_curr_size c (set_node_store (<[fid := node]> (node_store_ r)) r))).
Proof.
  intros Hint Hhist Hc ([Hsz Hcount] & Hkeys & Hne).
  assert (Hkeys' : map_Forall (fun fid _ => is_int fid) (<[fid := node]> (node_store_ r))).
  { by apply map_Forall_insert_2. }
  pose proof (evictable_count_bound _ Hkeys') as Hbound.
  unfold evictable_count in Hcount.
  rewrite evictable_size_insert in Hbound.
  rewrite (evictable_size_split _ fid) in Hcount.
  split; [|split]; simpl; [|done|by apply map_Forall_insert_2].
  unfold size_accounted, evictable_count, is_size_t, SIZE_MAX in *. simpl.
  rewrite evictable_size_insert. lia.
Qed.

Lemma size_invariant_erase (r : LRUKReplacer) fid node :
  node_store_ r !! fid = Some node ->
  is_evictable_ node = true ->
  size_invariant r ->
  size_invariant
    (set_curr_size (curr_size_ r - 1) (set_node_store (delete fid (node_store_ r)) r)).
Proof.
  intros Hfid Hev ([Hsz Hcount] & Hkeys & Hne).
  unfold evictable_count in Hcount.
  rewrite (evictable_size_split _ fid), Hfid in Hcount. simpl in Hcount.
  unfold flag_weight in Hcount. rewrite Hev in Hcount.
  split; [|split]; simpl; [|by apply map_Forall_delete..].
  unfold size_accounted, evictable_count, is_size_t in *. simpl. lia.
Qed.

Lemma set_current_timestamp_id (r : LRUKReplacer) :
  set_current_timestamp (current_timestamp_ r) r = r.
Proof. by destruct r. Qed.

Lemma set_curr_size_id (r : LRUKReplacer) : set_curr_size (curr_size_ r) r = r.
Proof. by destruct r. Qed.

Lemma size_invariant_ctor num_frames k : size_invariant (LRUKReplacer_ctor num_frames k).
Proof.
  split; [|split]; simpl; [|apply map_Forall_empty..].
  unfold size_accounted, evictable_count, is_size_t, SIZE_MAX. simpl.
  rewrite map_filter_empty, map_size_empty. lia.
Qed.

Lemma RecordAccess_invariant (r : LRUKReplacer) fid access_type :
  is_int fid -> size_invariant r ->
  exists r', state_after (RecordAccess fid access_type r) = Some r' /\ size_invariant r'.
Proof.
  intros Hint Hinv. unfold RecordAccess.
  destruct (replacer_size_ r <=? to_size_t fid); [by exists r|].
  assert (Hstore : forall node t,
    history_ node <> [] ->
    is_evictable_ node = from_option is_evictable_ false (node_store_ r !! fid) ->
    size_invariant (set_current_timestamp t
                      (set_node_store (<[fid := node]> (node_store_ r)) r))).
  { intros node t Hh Hflag.
    rewrite <- (set_curr_size_id (set_node_store _ r)). simpl.
    apply size_invariant_store; try done.
    unfold flag_weight. rewrite Hflag. by destruct (node_store_ r !! fid). }
  destruct (node_store_ r !! fid) as [node|] eqn:Hfid.
  - destruct (k_ r <=? size_ (history_ node)).
    + destruct (history_ node) as [|t0 rest] eqn:Hh.
      { destruct Hinv as (_ & _ & Hne).
        by pose proof (map_Forall_lookup_1 _ _ _ _ Hne Hfid Hh). }
      unfold at_. rewrite lookup_insert_eq. simpl. rewrite insert_insert_eq.
      eexists. split; [reflexivity|]. apply Hstore; simpl; [|done].
      by destruct rest.
    + rewrite (at_Some _ _ _ Hfid).
      eexists. split; [reflexivity|]. apply Hstore; simpl; [|done].
      by destruct (history_ node).
  - unfold at_. rewrite lookup_insert_eq. simpl. rewrite insert_insert_eq.
    eexists. split; [reflexivity|]. by apply Hstore.
Qed.

Lemma SetEvictable_invariant (r : LRUKReplacer) fid flag :
  is_int fid -> size_invariant r ->
  exists r', state_after (SetEvictable fid flag r) = Some r' /\ size_invariant r'.
Proof.
  intros Hint Hinv. unfold SetEvictable.
  destruct (replacer_size_ r <=? to_size_t fid); [by exists r|]. simpl.
  destruct (node_store_ r !! fid) as [node|] eqn:Hfid;
    [rewrite (count_Some _ _ _ Hfid)|rewrite (count_None _ _ Hfid); by exists r].
  simpl. rewrite (at_Some _ _ _ Hfid).
  assert (Hhist : history_ node <> []).
  { destruct Hinv as (_ & _ & Hne). apply (map_Forall_lookup_1 _ _ _ _ Hne Hfid). }
  assert (Hkeys' : map_Forall (fun fid _ => is_int fid)
                     (<[fid := set_is_evictable flag node]> (node_store_ r))).
  { apply map_Forall_insert_2; [done|apply Hinv]. }
  pose proof (evictable_count_bound _ Hkeys') as Hbound.
  rewrite evictable_size_insert in Hbound.
  pose proof Hinv as ([Hsz Hcount] & _).
  unfold evictable_count in Hcount.
  rewrite (evictable_size_split _ fid), Hfid in Hcount. simpl in Hcount.
  unfold flag_weight in Hbound, Hcount. simpl in Hbound.
  destruct flag, (is_evictable_ node) eqn:Hev; simpl; try by exists r.
  - rewrite (at_Some _ _ _ Hfid).
    eexists. split; [reflexivity|].
    rewrite <- (set_current_timestamp_id (set_node_store _ _)). simpl.
    rewrite to_size_t_small by (unfold is_size_t, SIZE_MAX in *; lia).
    apply (size_invariant_store r fid (set_is_evictable true node)
             (current_timestamp_ r) (curr_size_ r + 1)); try done.
    rewrite Hfid. simpl. unfold flag_weight. simpl. rewrite Hev. lia.
  - rewrite (at_Some _ _ _ Hfid).
    eexists. split; [reflexivity|].
    rewrite <- (set_current_timestamp_id (set_node_store _ _)). simpl.
    rewrite to_size_t_small by (unfold is_size_t, SIZE_MAX in *; lia).
    apply (size_invariant_store r fid (set_is_evictable false node)
             (current_timestamp_ r) (curr_size_ r - 1)); try done.
    rewrite Hfid. simpl. unfold flag_weight. simpl. rewrite Hev. lia.
Qed.

Lemma Evict_invariant (r : LRUKReplacer) :
  size_invariant r ->
  exists r', state_after (Evict r) = Some r' /\ size_invariant r'.
Proof.
  intros Hinv.
  destruct (Evict_outcome r) as [[-> _]|(f & n & t & Hf & Hev & _ & -> & _)].
  { intros fid node Hfid _. destruct Hinv as (_ & _ & Hne).
    apply (map_Forall_lookup_1 _ _ _ _ Hne Hfid). }
  - by exists r.
  - eexists. split; [reflexivity|].
    pose proof (evictable_count_pos r f n Hf Hev).
    rewrite to_size_t_small.
    + by eapply size_invariant_erase.
    + destruct Hinv as ([Hsz Hcount] & _). unfold is_size_t in *. lia.
Qed.

Lemma Remove_invariant (r : LRUKReplacer) fid :
  size_invariant r ->
  exists r', state_after (Remove fid r) = Some r' /\ size_invariant r'.
Proof.
  intros Hinv.
  destruct (Z.leb_spec (replacer_size_ r) (to_size_t fid)) as [Hout|Hin].
  - exists r. unfold Remove. apply Z.leb_le in Hout. by rewrite Hout.
  - rewrite (Remove_outcome r fid Hin).
    destruct (node_store_ r !! fid) as [node|] eqn:Hfid; [|by exists r].
    destruct (is_evictable_ node) eqn:Hev; [|by exists r].
    eexists. split; [reflexivity|].
    rewrite (decrement_no_wrap r fid node) by (done || apply Hinv).
    by eapply size_invariant_erase.
Qed.

Lemma run_invariant (ops : list replacer_op) :
  forall r, Forall op_typed ops -> size_invariant r ->
            exists r', run ops r = Some r' /\ size_invariant r'.
Proof.
  induction ops as [|op ops IH]; intros r Htyped Hinv; [by exists r|].
  apply Forall_cons in Htyped as [Hop Hops].
  assert (Hstep : exists r1, exec op r = Some r1 /\ size_invariant r1).
  { destruct op; simpl in *.
    - by apply RecordAccess_invariant.
    - by apply SetEvictable_invariant.
    - by apply Evict_invariant.
    - by apply Remove_invariant. }
  destruct Hstep as (r1 & Hexec & Hinv1). simpl. rewrite Hexec. by apply IH.
Qed.

(** C5: every sequence of [RecordAccess], [SetEvictable], [Evict] and
    [Remove] calls with [int32_t] frame ids, started on a new replacer, runs to
    its end (a call that throws leaves the state to the next call), and
    [Size()] then equals the number of nodes whose [is_evictable_] is set. *)
Theorem Size_counts_evictable_nodes (num_frames k : Z) (ops : list replacer_op) :
  Forall op_typed ops ->
  exists r, run ops (LRUKReplacer_ctor num_frames k) = Some r
            /\ Size r = Z.of_nat (evictable_count r).
Proof.
  intros Htyped.
  destruct (run_invariant ops (LRUKReplacer_ctor num_frames k) Htyped
              (size_invariant_ctor num_frames k)) as (r & Hrun & [_ Hcount] & _).
  by exists r.
Qed.

(** *** The states in which [Evict] is specified are the reachable ones *)

Lemma clock_invariant_ctor num_frames k : clock_invariant (LRUKReplacer_ctor num_frames k).
Proof. split; simpl; [done|apply map_Forall_empty]. Qed.

Lemma clock_invariant_erase (r : LRUKReplacer) fid c :
  clock_invariant r ->
  clock_invariant (set_curr_size c (set_node_store (delete fid (node_store_ r)) r)).
Proof. intros [Hnow Hall]. split; simpl; [done|by apply map_Forall_delete]. Qed.

Lemma clock_invariant_tick (r : LRUKReplacer) fid h :
  clock_invariant r ->
  current_timestamp_ r < SIZE_MAX ->
  Forall (fun t => 0 <= t < current_timestamp_ r) h ->
  forall node,
    clock_invariant
      (set_current_timestamp (to_size_t (current_timestamp_ r + 1))
         (set_node_store
            (<[fid := set_history (h ++ [current_timestamp_ r]) node]> (node_store_ r)) r)).
Proof.
  intros [Hnow Hall] Hmax Hh node.
  rewrite to_size_t_small by (unfold is_size_t; lia).
  split; simpl; [lia|].
  apply map_Forall_insert_2; simpl.
  - apply Forall_app. split.
    + eapply Forall_impl; [exact Hh|]. simpl. intros; lia.
    + apply Forall_singleton. lia.
  - eapply map_Forall_impl; [exact Hall|]. simpl. intros _ n Hn.
    eapply Forall_impl; [exact Hn|]. simpl. intros; lia.
Qed.

Lemma RecordAccess_clock (r r' : LRUKReplacer) fid access_type :
  state_after (RecordAccess fid access_type r) = Some r' ->
  clock_invariant r -> current_timestamp_ r < SIZE_MAX ->
  clock_invariant r' /\ current_timestamp_ r' <= current_timestamp_ r + 1.
Proof.
  intros Hstep Hinv Hmax. unfold RecordAccess in Hstep.
  destruct (replacer_size_ r <=? to_size_t fid).
  { simpl in Hstep. inversion Hstep; subst. split; [done|lia]. }
  assert (Hclock : to_size_t (current_timestamp_ r + 1) = current_timestamp_ r + 1).
  { apply to_size_t_small. destruct Hinv. unfold is_size_t. lia. }
  destruct (node_store_ r !! fid) as [node|] eqn:Hfid.
  - pose proof (map_Forall_lookup_1 _ _ _ _ (proj2 Hinv) Hfid) as Hh. simpl in Hh.
    destruct (k_ r <=? size_ (history_ node)).
    + destruct (history_ node) as [|t0 rest] eqn:Hhist; [done|].
      unfold at_ in Hstep. rewrite lookup_insert_eq in Hstep. simpl in Hstep.
      rewrite insert_insert_eq in Hstep. inversion Hstep; subst.
      split; [|simpl; lia].
      apply (clock_invariant_tick r fid rest Hinv Hmax); by inversion Hh.
    + rewrite (at_Some _ _ _ Hfid) in Hstep. simpl in Hstep. inversion Hstep; subst.
      split; [|simpl; lia].
      by apply (clock_invariant_tick r fid (history_ node) Hinv Hmax).
  - unfold at_ in Hstep. rewrite lookup_insert_eq in Hstep. simpl in Hstep.
    rewrite insert_insert_eq in Hstep. inversion Hstep; subst.
    split; [|simpl; lia].
    by apply (clock_invariant_tick r fid [] Hinv Hmax).
Qed.

Lemma SetEvictable_clock (r r' : LRUKReplacer) fid flag :
  state_after (SetEvictable fid flag r) = Some r' ->
  clock_invariant r ->
  clock_invariant r' /\ current_timestamp_ r' = current_timestamp_ r.
Proof.
  intros Hstep Hinv. unfold SetEvictable in Hstep.
  destruct (_ || _); [by inversion Hstep; subst|].
  destruct (node_store_ r !! fid) as [node|] eqn:Hfid.
  - rewrite (at_Some _ _ _ Hfid) in Hstep.
    destruct (negb _); [|by inversion Hstep; subst].
    assert (Hnode : forall c, at_ (node_store_ (set_curr_size c r)) fid = node)
      by (intros c; simpl; by apply at_Some).
    destruct flag; rewrite Hnode in Hstep; simpl in Hstep; inversion Hstep; subst;
      (split; [|done]); destruct Hinv as [Hnow Hall]; (split; simpl; [done|]);
      apply map_Forall_insert_2; simpl; try done;
      apply (map_Forall_lookup_1 _ _ _ _ Hall Hfid).
  - unfold at_ in Hstep. rewrite Hfid in Hstep. simpl in Hstep.
    destruct (negb _); [|by inversion Hstep; subst].
    destruct flag; simpl in Hstep; rewrite Hfid in Hstep; simpl in Hstep;
      inversion Hstep; subst; (split; [|done]); destruct Hinv as [Hnow Hall];
      (split; simpl; [done|]); apply map_Forall_insert_2; simpl; done.
Qed.

Lemma Evict_clock (r r' : LRUKReplacer) :
  state_after (Evict r) = Some r' ->
  clock_invariant r ->
  clock_invariant r' /\ current_timestamp_ r' = current_timestamp_ r.
Proof.
  intros Hstep Hinv. unfold Evict in Hstep.
  destruct (build_evict_list r (map_to_list (node_store_ r))) as [[|c cs]|]; [..|done].
  - by inversion Hstep; subst.
  - destruct (hd c (sort (c :: cs))) as [[f d] t]. simpl in Hstep.
    rewrite erase_after_clear in Hstep. inversion Hstep; subst.
    split; [|done]. by apply clock_invariant_erase.
Qed.

Lemma Remove_clock (r r' : LRUKReplacer) fid :
  state_after (Remove fid r) = Some r' ->
  clock_invariant r ->
  clock_invariant r' /\ current_timestamp_ r' = current_timestamp_ r.
Proof.
  intros Hstep Hinv. unfold Remove in Hstep.
  destruct (replacer_size_ r <=? to_size_t fid); [by inversion Hstep; subst|].
  destruct (count (node_store_ r) fid =? 0); [by inversion Hstep; subst|].
  destruct (eqb _ false); [by inversion Hstep; subst|].
  simpl in Hstep. rewrite erase_after_clear in Hstep. inversion Hstep; subst.
  split; [|done]. by apply clock_invariant_erase.
Qed.

Lemma run_clock (ops : list replacer_op) :
  forall r r',
    run ops r = Some r' ->
    clock_invariant r ->
    current_timestamp_ r + Z.of_nat (length ops) <= SIZE_MAX ->
    clock_invariant r'
    /\ current_timestamp_ r' <= current_timestamp_ r + Z.of_nat (length ops).
Proof.
  induction ops as [|op ops IH]; intros r r' Hrun Hinv Hlen; simpl in *.
  { inversion Hrun; subst. split; [done|lia]. }
  destruct (exec op r) as [r1|] eqn:Hexec; [|done].
  assert (Hstep : clock_invariant r1 /\ current_timestamp_ r1 <= current_timestamp_ r + 1).
  { destruct op; simpl in Hexec.
    - eapply RecordAccess_clock; [exact Hexec|done|lia].
    - destruct (SetEvictable_clock _ _ _ _ Hexec Hinv). split; [done|lia].
    - destruct (Evict_clock _ _ Hexec Hinv). split; [done|lia].
    - destruct (Remove_clock _ _ _ Hexec Hinv). split; [done|lia]. }
  destruct Hstep as [Hinv1 Hclock1].
  destruct (IH r1 r' Hrun Hinv1 ltac:(lia)) as [Hinv' Hclock']. split; [done|lia].
Qed.

(** Every state reached from a new replacer by fewer than [SIZE_MAX] calls
    is one in which [Evict] is specified. *)
Lemma reachable_evict_ready (num_frames k : Z) (ops : list replacer_op) :
  Forall op_typed ops ->
  Z.of_nat (length ops) < SIZE_MAX ->
  exists r, run ops (LRUKReplacer_ctor num_frames k) = Some r
            /\ evict_ready r /\ size_accounted r.
Proof.
  intros Htyped Hlen.
  destruct (run_invariant ops (LRUKReplacer_ctor num_frames k) Htyped
              (size_invariant_ctor num_frames k)) as (r & Hrun & Hacc & _ & Hne).
  destruct (run_clock ops _ r Hrun (clock_invariant_ctor num_frames k)) as [[Hnow Hall] Hclock].
  { simpl. lia. }
  simpl in Hclock.
  exists r. split; [done|]. split; [|done].
  split; [lia|]. intros fid node Hfid _. unfold oldest_in_past.
  pose proof (map_Forall_lookup_1 _ _ _ _ Hall Hfid) as Hh.
  pose proof (map_Forall_lookup_1 _ _ _ _ Hne Hfid) as Hnonempty.
  simpl in Hh, Hnonempty.
  destruct (history_ node) as [|t h]; [done|].
  apply Forall_cons in Hh as [Ht _]. lia.
Qed.

(** *** The victim is unique in reachable states *)

Lemma RecordAccess_state (r r' : LRUKReplacer) fid access_type :
  state_after (RecordAccess fid access_type r) = Some r' ->
  r' = r
  \/ r' = set_current_timestamp (to_size_t (current_timestamp_ r + 1))
            (set_node_store (<[fid := accessed r fid]> (node_store_ r)) r).
Proof.
  unfold RecordAccess, accessed.
  destruct (replacer_size_ r <=? to_size_t fid); [intros Heq; left; by inversion Heq|].
  destruct (node_store_ r !! fid) as [node|] eqn:Hfid.
  - destruct (k_ r <=? size_ (history_ node)).
    + destruct (history_ node) as [|t0 rest] eqn:Hh; [done|].
      unfold at_. rewrite lookup_insert_eq. simpl. rewrite insert_insert_eq.
      intros Heq. right. by inversion Heq.
    + rewrite (at_Some _ _ _ Hfid). intros Heq. right. by inversion Heq.
  - unfold at_. rewrite lookup_insert_eq. simpl. rewrite insert_insert_eq.
    intros Heq. right. by inversion Heq.
Qed.

Lemma accessed_history (r : LRUKReplacer) fid t :
  t ∈ history_ (accessed r fid) ->
  t = current_timestamp_ r
  \/ exists node, node_store_ r !! fid = Some node /\ t ∈ history_ node.
Proof.
  unfold accessed. destruct (node_store_ r !! fid) as [node|]; simpl.
  - intros [Hin| ->%list_elem_of_singleton]%elem_of_app; [|by left].
    right. exists node. split; [done|].
    destruct (k_ r <=? size_ (history_ node)); [|done].
    destruct (history_ node); [done|]. by apply list_elem_of_further.
  - intros ->%list_elem_of_singleton. by left.
Qed.

Lemma RecordAccess_distinct (r r' : LRUKReplacer) fid access_type :
  state_after (RecordAccess fid access_type r) = Some r' ->
  clock_invariant r -> timestamps_distinct r -> timestamps_distinct r'.
Proof.
  intros [->| ->]%RecordAccess_state [_ Hclock] Hdist; [done|].
  assert (Hfresh : forall g ng, node_store_ r !! g = Some ng ->
                                current_timestamp_ r ∉ history_ ng).
  { intros g ng Hg Hin.
    pose proof (map_Forall_lookup_1 _ _ _ _ Hclock Hg) as Hall. simpl in Hall.
    apply (proj1 (Forall_forall _ _) Hall) in Hin. lia. }
  intros f g nf ng t. simpl.
  destruct (decide (f = fid)) as [->|Hf], (decide (g = fid)) as [->|Hg]; [done|..].
  - rewrite lookup_insert_eq, lookup_insert_ne by done.
    intros [= <-] Hng [->|(node & Hnode & Hin)]%accessed_history Hin'.
    + by destruct (Hfresh g ng Hng).
    + by eapply Hdist.
  - rewrite lookup_insert_eq, lookup_insert_ne by done.
    intros Hnf [= <-] Hin [->|(node & Hnode & Hin')]%accessed_history.
    + by destruct (Hfresh f nf Hnf).
    + by eapply Hdist.
  - rewrite !lookup_insert_ne by done. apply Hdist.
Qed.

Lemma timestamps_distinct_erase (r : LRUKReplacer) fid c :
  timestamps_distinct r ->
  timestamps_distinct (set_curr_size c (set_node_store (delete fid (node_store_ r)) r)).
Proof.
  intros Hdist f g nf ng t. simpl.
  intros [_ Hf]%lookup_delete_Some [_ Hg]%lookup_delete_Some. by apply Hdist.
Qed.

Lemma SetEvictable_distinct (r r' : LRUKReplacer) fid flag :
  state_after (SetEvictable fid flag r) = Some r' ->
  timestamps_distinct r -> timestamps_distinct r'.
Proof.
  intros Hstep Hdist. unfold SetEvictable in Hstep.
  destruct (replacer_size_ r <=? to_size_t fid); [by inversion Hstep; subst|].
  simpl in Hstep. unfold count in Hstep.
  destruct (node_store_ r !! fid) as [node|] eqn:Hfid; [|by inversion Hstep; subst].
  simpl in Hstep. rewrite (at_Some _ _ _ Hfid) in Hstep.
  destruct (negb _); [|by inversion Hstep; subst].
  assert (Hkeep : forall c,
            timestamps_distinct
              (set_node_store (<[fid := set_is_evictable flag node]> (node_store_ r))
                 (set_curr_size c r))).
  { intros c f g nf ng t. simpl.
    destruct (decide (f = fid)) as [->|Hf], (decide (g = fid)) as [->|Hg]; [done|..].
    - rewrite lookup_insert_eq, lookup_insert_ne by done.
      intros [= <-] Hng Hin Hin'. by eapply Hdist.
    - rewrite lookup_insert_eq, lookup_insert_ne by done.
      intros Hnf [= <-] Hin Hin'. by eapply Hdist.
    - rewrite !lookup_insert_ne by done. apply Hdist. }
  destruct flag; simpl in Hstep; rewrite (at_Some _ _ _ Hfid) in Hstep;
    inversion Hstep; subst; apply Hkeep.
Qed.

Lemma Evict_distinct (r r' : LRUKReplacer) :
  state_after (Evict r) = Some r' -> timestamps_distinct r -> timestamps_distinct r'.
Proof.
  intros Hstep Hdist. unfold Evict in Hstep.
  destruct (build_evict_list r (map_to_list (node_store_ r))) as [[|c cs]|]; [..|done].
  - by inversion Hstep; subst.
  - destruct (hd c (sort (c :: cs))) as [[f d] t]. simpl in Hstep.
    rewrite erase_after_clear in Hstep. inversion Hstep; subst.
    by apply timestamps_distinct_erase.
Qed.

Lemma Remove_distinct (r r' : LRUKReplacer) fid :
  state_after (Remove fid r) = Some r' -> timestamps_distinct r -> timestamps_distinct r'.
Proof.
  intros Hstep Hdist. unfold Remove in Hstep.
  destruct (replacer_size_ r <=? to_size_t fid); [by inversion Hstep; subst|].
  destruct (count (node_store_ r) fid =? 0); [by inversion Hstep; subst|].
  destruct (eqb _ false); [by inversion Hstep; subst|].
  simpl in Hstep. rewrite erase_after_clear in Hstep. inversion Hstep; subst.
  by apply timestamps_distinct_erase.
Qed.

Lemma run_distinct (ops : list replacer_op) :
  forall r r',
    run ops r = Some r' ->
    clock_invariant r -> timestamps_distinct r ->
    current_timestamp_ r + Z.of_nat (length ops) <= SIZE_MAX ->
    timestamps_distinct r'.
Proof.
  induction ops as [|op ops IH]; intros r r' Hrun Hclock Hdist Hlen; simpl in *.
  { by inversion Hrun; subst. }
  destruct (exec op r) as [r1|] eqn:Hexec; [|done].
  destruct (run_clock [op] r r1) as [Hclock1 Hnow1]; [by simpl; rewrite Hexec|done|simpl; lia|].
  simpl in Hnow1.
  eapply (IH r1 r' Hrun Hclock1); [|lia].
  destruct op; simpl in Hexec.
  - by eapply RecordAccess_distinct.
  - by eapply SetEvictable_distinct.
  - by eapply Evict_distinct.
  - by eapply Remove_distinct.
Qed.

Lemma reachable_timestamps_distinct (num_frames k : Z) (ops : list replacer_op)
    (r : LRUKReplacer) :
  Z.of_nat (length ops) < SIZE_MAX ->
  run ops (LRUKReplacer_ctor num_frames k) = Some r ->
  timestamps_distinct r.
Proof.
  intros Hlen Hrun.
  eapply (run_distinct ops _ r Hrun (clock_invariant_ctor num_frames k)); [|simpl; lia].
  intros f g nf ng t Hf. simpl in Hf. by rewrite lookup_empty in Hf.
Qed.

(** Where no timestamp is shared, the frame that [Evict] returns is strictly
    preferred to every other evictable frame. *)
Lemma Evict_victim_unique (r r' : LRUKReplacer) f n t :
  evict_ready r -> timestamps_distinct r ->
  Evict r = Ok (Some f) r' ->
  node_store_ r !! f = Some n -> head (history_ n) = Some t ->
  forall g ng tg,
    g <> f ->
    node_store_ r !! g = Some ng -> is_evictable_ ng = true ->
    head (history_ ng) = Some tg ->
    nearer (k_distance_of r ng tg) (k_distance_of r n t)
    \/ (k_distance_of r ng tg = k_distance_of r n t /\ t < tg).
Proof.
  intros Hready Hdist Hevict Hf Hhd g ng tg Hne Hg Hevg Hhdg.
  destruct (Evict_outcome r)
    as [[Hnone _]|(f0 & n0 & t0 & Hf0 & Hev0 & Hhd0 & Hevict0 & Hleast)].
  { intros fid node. by apply evict_ready_nonempty. }
  { rewrite Hnone in Hevict. done. }
  rewrite Hevict0 in Hevict. inversion Hevict; subst f0.
  rewrite Hf in Hf0. inversion Hf0; subst n0.
  rewrite Hhd in Hhd0. inversion Hhd0; subst t0.
  assert (Hdiff : t <> tg).
  { intros ->. apply Hne. eapply (Hdist g f ng n tg Hg Hf).
    - destruct (history_ ng); inversion Hhdg; subst. apply list_elem_of_here.
    - destruct (history_ n); inversion Hhd; subst. apply list_elem_of_here. }
  pose proof (Hleast g ng tg Hg Hevg Hhdg) as Hnot.
  pose proof (proj1 Hready) as Hnow.
  destruct (stored_distance_in_past r ng tg Hnow
              (evict_ready_oldest r g ng tg Hready Hg Hevg Hhdg)) as [Hdg Hbg].
  destruct (stored_distance_in_past r n t Hnow
              (evict_ready_oldest r f n t Hready Hf Hev0 Hhd)) as [Hdf Hbf].
  assert (Hord : ~ (stored_distance r ng tg > stored_distance r n t
                    \/ (stored_distance r ng tg = stored_distance r n t /\ tg < t))).
  { rewrite <- before_spec, Hnot. done. }
  rewrite Hdg, Hdf in Hord.
  destruct (k_distance_of r ng tg) as [dg|], (k_distance_of r n t) as [df|]; simpl.
  - destruct (decide (dg < df)); [by left|]. right. split; [f_equal|]; lia.
  - by left.
  - lia.
  - right. split; [done|]. lia.
Qed.

End replacer_properties.

(** ** Properties of the buffer pool manager *)

Section pool_properties.
Import lru_k_replacer buffer_pool_manager pool_spec.

(** C1: whatever its arguments, the constructor leaves through the [throw]
    of its first statement; the frame array, the replacer and the free list
    of the statements after it are never built. *)
Theorem BufferPoolManager_ctor_throws (pool_size : Z) (disk : DiskScheduler)
    (replacer_k : Z) (log_manager : option unit) :
  BufferPoolManager_ctor pool_size disk replacer_k log_manager tt
  = Throw NotImplementedException tt.
Proof. reflexivity. Qed.

(** *** Reading and writing a frame of the array *)

Lemma page_at_ok (b : BufferPoolManager) f p :
  page_lookup (pages_ b) f = Some p -> page_at f b = Ok p b.
Proof. unfold page_at. by intros ->. Qed.

Lemma update_page_ok (b : BufferPoolManager) f p (g : Page -> Page) :
  page_lookup (pages_ b) f = Some p ->
  update_page f g b = Ok tt (set_pages (<[Z.to_nat f := g p]> (pages_ b)) b).
Proof. intros Hp. unfold update_page, bind. by rewrite (page_at_ok _ _ _ Hp). Qed.

Lemma page_lookup_insert (ps : list Page) f p q :
  page_lookup ps f = Some p -> page_lookup (<[Z.to_nat f := q]> ps) f = Some q.
Proof.
  unfold page_lookup. destruct (f <? 0); [done|]. intros Hp.
  apply list_lookup_insert_eq. by eapply lookup_lt_Some.
Qed.

(** *** The guard factories on an exhausted pool *)

Lemma FetchPageRead_of_nullptr (b b' : BufferPoolManager) page_id :
  FetchPage page_id Unknown b = Ok None b' ->
  FetchPageRead page_id b = Stuck null_dereference.
Proof. intros Hfetch. unfold FetchPageRead, bind. by rewrite Hfetch. Qed.

Lemma FetchPageWrite_of_nullptr (b b' : BufferPoolManager) page_id :
  FetchPage page_id Unknown b = Ok None b' ->
  FetchPageWrite page_id b = Stuck null_dereference.
Proof. intros Hfetch. unfold FetchPageWrite, bind. by rewrite Hfetch. Qed.

(** C9, on the code: in a pool of one frame whose page is pinned,
    [FetchPage] of another page returns [nullptr], and [FetchPageRead] and
    [FetchPageWrite] then call [RLatch] and [WLatch] through that null
    pointer. *)
Theorem FetchPageRead_Write_dereference_nullptr :
  FetchPage 1 Unknown pinned_pool = Ok None pinned_pool
  /\ FetchPageRead 1 pinned_pool = Stuck null_dereference
  /\ FetchPageWrite 1 pinned_pool = Stuck null_dereference.
Proof.
  assert (Hfetch : FetchPage 1 Unknown pinned_pool = Ok None pinned_pool)
    by (vm_compute; reflexivity).
  split; [exact Hfetch|]. split.
  - by eapply FetchPageRead_of_nullptr.
  - by eapply FetchPageWrite_of_nullptr.
Qed.

(** *** Calls into the replacer *)

Lemma SetEvictable_tracked (r : LRUKReplacer) f flag node :
  to_size_t f < replacer_size_ r ->
  node_store_ r !! f = Some node ->
  exists r', SetEvictable f flag r = Ok tt r'
             /\ node_store_ r' = <[f := set_is_evictable flag node]> (node_store_ r)
             /\ replacer_size_ r' = replacer_size_ r.
Proof.
  intros Hrange Hnode. unfold SetEvictable.
  rewrite (in_range_test _ _ Hrange), (count_Some _ _ _ Hnode), (at_Some _ _ _ Hnode).
  simpl.
  destruct flag, (is_evictable_ node) eqn:Hev; simpl;
    try (rewrite (at_Some _ _ _ Hnode); eexists; split; [reflexivity|done]).
  - exists r. split; [done|]. split; [|done]. symmetry. apply insert_id.
    rewrite Hnode. f_equal. destruct node. simpl in *. by subst.
  - exists r. split; [done|]. split; [|done]. symmetry. apply insert_id.
    rewrite Hnode. f_equal. destruct node. simpl in *. by subst.
Qed.

Lemma replacer_ok {A : Type} (m : M LRUKReplacer A) (b : BufferPoolManager) a r' :
  m (replacer_ b) = Ok a r' -> replacer m b = Ok a (set_replacer r' b).
Proof. unfold replacer. by intros ->. Qed.

(** [UnpinPage] of a resident page with a positive pin count, up to the
    call into the replacer. *)
Lemma UnpinPage_resident (b : BufferPoolManager) page_id is_dirty access_type f p :
  page_table_ b !! page_id = Some f ->
  page_lookup (pages_ b) f = Some p ->
  0 < pin_count_ p ->
  UnpinPage page_id is_dirty access_type b
  = ((if pin_count_ p =? 1 then replacer (SetEvictable f true) else ret tt) ;;; ret true)%prog
      (set_pages (<[Z.to_nat f := unpinned is_dirty p]> (pages_ b)) b).
Proof.
  intros Hres Hp Hpin. unfold UnpinPage, bind at 1, get. rewrite Hres.
  unfold bind at 1. rewrite (page_at_ok _ _ _ Hp).
  rewrite (proj2 (Z.leb_gt _ _)) by lia.
  unfold bind at 1. rewrite (update_page_ok _ _ _ _ Hp).
  unfold bind at 1.
  erewrite update_page_ok by (simpl; by eapply page_lookup_insert).
  simpl. rewrite list_insert_insert_eq.
  unfold bind at 1, page_at. simpl.
  rewrite (page_lookup_insert _ _ _ _ Hp). simpl.
  replace (pin_count_ p - 1 =? 0) with (pin_count_ p =? 1); [done|].
  destruct (Z.eqb_spec (pin_count_ p) 1), (Z.eqb_spec (pin_count_ p - 1) 0); lia || done.
Qed.

(** C6: in a pool whose resident pages sit in tracked frames, [UnpinPage]
    returns [false] and changes nothing when the page is not resident or its
    pin count is not positive; otherwise it lowers the pin count by one, sets
    the dirty flag to the old flag or the hint, calls [SetEvictable(frame,
    true)] exactly when the pin count has come down to zero, and returns
    [true]. *)
Theorem UnpinPage_cases (b : BufferPoolManager) (page_id : Z) (is_dirty : bool)
    (access_type : AccessType) :
  resident_frames_tracked b ->
  match page_table_ b !! page_id with
  | None => UnpinPage page_id is_dirty access_type b = Ok false b
  | Some f =>
      exists p,
        page_lookup (pages_ b) f = Some p
        /\ (pin_count_ p <= 0 -> UnpinPage page_id is_dirty access_type b = Ok false b)
        /\ (1 < pin_count_ p ->
            UnpinPage page_id is_dirty access_type b
            = Ok true (set_pages (<[Z.to_nat f := unpinned is_dirty p]> (pages_ b)) b))
        /\ (pin_count_ p = 1 ->
            exists r' node,
              SetEvictable f true (replacer_ b) = Ok tt r'
              /\ node_store_ r' !! f = Some node
              /\ is_evictable_ node = true
              /\ UnpinPage page_id is_dirty access_type b
                 = Ok true (set_replacer r'
                              (set_pages (<[Z.to_nat f := unpinned is_dirty p]> (pages_ b)) b)))
  end.
Proof.
  intros Htracked.
  destruct (page_table_ b !! page_id) as [f|] eqn:Hres.
  2: { unfold UnpinPage, bind, get. by rewrite Hres. }
  destruct (map_Forall_lookup_1 _ _ _ _ Htracked Hres) as ([p Hp] & Hrange & [node Hnode]).
  exists p. split; [done|]. split; [|split].
  - intros Hpin. unfold UnpinPage, bind, get. rewrite Hres, (page_at_ok _ _ _ Hp).
    by rewrite (proj2 (Z.leb_le _ _) Hpin).
  - intros Hpin. rewrite (UnpinPage_resident _ _ _ _ f p Hres Hp) by lia.
    by rewrite (proj2 (Z.eqb_neq _ _)) by lia.
  - intros Hpin. rewrite (UnpinPage_resident _ _ _ _ f p Hres Hp) by lia.
    rewrite (proj2 (Z.eqb_eq _ _) Hpin).
    destruct (SetEvictable_tracked _ f true node Hrange Hnode) as (r' & Hset & Hstore & _).
    exists r', (set_is_evictable true node).
    split; [done|]. split; [by rewrite Hstore, lookup_insert_eq|]. split; [done|].
    unfold bind. by erewrite replacer_ok by (simpl; exact Hset).
Qed.

(** [DeletePage] of a resident page that is not pinned, once the replacer
    has let the frame go. *)
Lemma DeletePage_unpinned (b : BufferPoolManager) page_id f p r' :
  page_table_ b !! page_id = Some f ->
  page_lookup (pages_ b) f = Some p ->
  pin_count_ p <= 0 ->
  Remove f (replacer_ b) = Ok tt r' ->
  DeletePage page_id b
  = Ok true
      (set_pages (<[Z.to_nat f := emptied p]> (pages_ b))
         (set_replacer r'
            (set_free_list (free_list_ b ++ [f])
               (set_page_table (delete page_id (page_table_ b)) b)))).
Proof.
  intros Hres Hp Hpin Hremove. unfold DeletePage, bind, get.
  rewrite Hres, (page_at_ok _ _ _ Hp), (proj2 (Z.ltb_ge _ _) Hpin).
  unfold modify. simpl.
  erewrite replacer_ok by (simpl; exact Hremove).
  erewrite update_page_ok by (simpl; exact Hp). simpl.
  erewrite update_page_ok by (simpl; by eapply page_lookup_insert). simpl.
  rewrite list_insert_insert_eq.
  erewrite update_page_ok by (simpl; by eapply page_lookup_insert). simpl.
  rewrite list_insert_insert_eq.
  erewrite update_page_ok by (simpl; by eapply page_lookup_insert). simpl.
  rewrite list_insert_insert_eq.
  reflexivity.
Qed.

(** C7: in a pool whose resident pages sit in tracked frames that are
    evictable when not pinned, [DeletePage] returns [true] and changes nothing
    when the page is not resident; returns [false] and changes nothing when
    the page is resident and pinned; and otherwise erases the page-table entry,
    appends the frame to the free list, has the replacer erase the frame's
    node, zeroes the buffer and resets the metadata, and returns [true]. *)
Theorem DeletePage_cases (b : BufferPoolManager) (page_id : Z) :
  resident_frames_tracked b ->
  unpinned_frames_evictable b ->
  match page_table_ b !! page_id with
  | None => DeletePage page_id b = Ok true b
  | Some f =>
      exists p,
        page_lookup (pages_ b) f = Some p
        /\ (0 < pin_count_ p -> DeletePage page_id b = Ok false b)
        /\ (pin_count_ p <= 0 ->
            exists r',
              Remove f (replacer_ b) = Ok tt r'
              /\ node_store_ r' = delete f (node_store_ (replacer_ b))
              /\ DeletePage page_id b
                 = Ok true
                     (set_pages (<[Z.to_nat f := emptied p]> (pages_ b))
                        (set_replacer r'
                           (set_free_list (free_list_ b ++ [f])
                              (set_page_table (delete page_id (page_table_ b)) b)))))
  end.
Proof.
  intros Htracked Hevictable.
  destruct (page_table_ b !! page_id) as [f|] eqn:Hres.
  2: { unfold DeletePage, bind, get. by rewrite Hres. }
  destruct (map_Forall_lookup_1 _ _ _ _ Htracked Hres) as ([p Hp] & Hrange & [node Hnode]).
  pose proof (map_Forall_lookup_1 _ _ _ _ Hevictable Hres) as Hev.
  unfold unpinned_is_evictable in Hev. rewrite Hp, Hnode in Hev.
  exists p. split; [done|]. split.
  - intros Hpin. unfold DeletePage, bind, get. rewrite Hres, (page_at_ok _ _ _ Hp).
    by rewrite (proj2 (Z.ltb_lt _ _) Hpin).
  - intros Hpin. specialize (Hev Hpin).
    pose proof (Remove_outcome _ f Hrange) as Hremove. rewrite Hnode, Hev in Hremove.
    eexists. split; [exact Hremove|]. split; [done|].
    by eapply DeletePage_unpinned.
Qed.

(** *** Steps that leave the disk contents alone *)

Lemma keeps_storage_ret {A : Type} (a : A) : keeps_storage (ret a).
Proof. intros b a' b' Heq. by inversion Heq. Qed.

Lemma keeps_storage_stuck {A : Type} f : keeps_storage (stuck f : M BufferPoolManager A).
Proof. by intros b a b' Heq. Qed.

Lemma keeps_storage_get : keeps_storage get.
Proof. intros b a b' Heq. by inversion Heq. Qed.

Lemma keeps_storage_bind {A B : Type} (m : M BufferPoolManager A)
    (k : A -> M BufferPoolManager B) :
  keeps_storage m -> (forall a, keeps_storage (k a)) -> keeps_storage (bind m k).
Proof.
  intros Hm Hk b x b' Heq. unfold bind in Heq.
  destruct (m b) as [a b1| |] eqn:Hmb; [|done..].
  rewrite (Hk a b1 x b' Heq). by eapply Hm.
Qed.

Lemma keeps_storage_modify (f : BufferPoolManager -> BufferPoolManager) :
  (forall b, disk_scheduler_ (f b) = disk_scheduler_ b) -> keeps_storage (modify f).
Proof. intros Hf b a b' Heq. inversion Heq. by rewrite Hf. Qed.

Lemma keeps_storage_page_at f : keeps_storage (page_at f).
Proof.
  intros b a b' Heq. unfold page_at in Heq.
  destruct (page_lookup (pages_ b) f); by inversion Heq.
Qed.

Lemma keeps_storage_update_page f g : keeps_storage (update_page f g).
Proof.
  apply keeps_storage_bind; [apply keeps_storage_page_at|].
  intros p. by apply keeps_storage_modify.
Qed.

Lemma keeps_storage_replacer {A : Type} (m : M LRUKReplacer A) : keeps_storage (replacer m).
Proof.
  intros b a b' Heq. unfold replacer in Heq.
  destruct (m (replacer_ b)); by inversion Heq.
Qed.

Lemma keeps_storage_AllocatePage : keeps_storage AllocatePage.
Proof.
  apply keeps_storage_bind; [apply keeps_storage_get|]. intros b.
  apply keeps_storage_bind; [by apply keeps_storage_modify|].
  intros _. apply keeps_storage_ret.
Qed.

Lemma keeps_storage_ReadFrame f page_id : keeps_storage (ReadFrame f page_id).
Proof.
  apply keeps_storage_bind; [apply keeps_storage_page_at|]. intros p b0 a b' Heq.
  unfold bind, get, modify in Heq. simpl in Heq.
  apply keeps_storage_update_page in Heq. by rewrite Heq.
Qed.

Create HintDb storage.
Hint Resolve keeps_storage_ret keeps_storage_stuck keeps_storage_get
  keeps_storage_page_at keeps_storage_update_page keeps_storage_replacer
  keeps_storage_AllocatePage keeps_storage_ReadFrame : storage.

Ltac keeps_storage_steps :=
  repeat first
    [ solve [auto with storage]
    | apply keeps_storage_modify; reflexivity
    | apply keeps_storage_bind; [|intros ?] ].

(** What [NewPage] does once [AllocateFrame] has returned. *)
Lemma NewPage_after_AllocateFrame (b b' : BufferPoolManager) x :
  NewPage b = Ok x b' ->
  exists f b1, AllocateFrame b = Ok f b1
               /\ stable_storage (disk_scheduler_ b') = stable_storage (disk_scheduler_ b1).
Proof.
  unfold NewPage. unfold bind at 1.
  destruct (AllocateFrame b) as [f b1| |] eqn:Halloc; [|done..].
  intros Hrest. exists f, b1. split; [done|].
  revert Hrest. generalize b1 x b'.
  change (keeps_storage
    (if f =? INVALID_PAGE_ID then ret None
     else (page_id <- AllocatePage ;;
           update_page f ResetMemory ;;;
           update_page f (set_page_id page_id) ;;;
           update_page f (set_pin_count 1) ;;;
           update_page f (set_is_dirty false) ;;;
           replacer (RecordAccess f Unknown) ;;;
           replacer (SetEvictable f false) ;;;
           modify (fun b => set_page_table (<[page_id := f]> (page_table_ b)) b) ;;;
           ret (Some (page_id, f)))%prog)).
  destruct (f =? INVALID_PAGE_ID); keeps_storage_steps.
Qed.

(** What [FetchPage] of a page that is not resident does once
    [AllocateFrame] has returned. *)
Lemma FetchPage_after_AllocateFrame (b b' : BufferPoolManager) page_id access_type x :
  page_table_ b !! page_id = None ->
  FetchPage page_id access_type b = Ok x b' ->
  exists f b1, AllocateFrame b = Ok f b1
               /\ stable_storage (disk_scheduler_ b') = stable_storage (disk_scheduler_ b1).
Proof.
  intros Hmiss. unfold FetchPage. unfold bind at 1, get. rewrite Hmiss. unfold bind at 1.
  destruct (AllocateFrame b) as [f b1| |] eqn:Halloc; [|done..].
  intros Hrest. exists f, b1. split; [done|].
  revert Hrest. generalize b1 x b'.
  change (keeps_storage
    (if f =? INVALID_PAGE_ID then ret None
     else (ReadFrame f page_id ;;;
           update_page f (set_page_id page_id) ;;;
           update_page f (set_pin_count 1) ;;;
           update_page f (set_is_dirty false) ;;;
           replacer (RecordAccess f access_type) ;;;
           replacer (SetEvictable f false) ;;;
           modify (fun b => set_page_table (<[page_id := f]> (page_table_ b)) b) ;;;
           ret (Some f))%prog)).
  destruct (f =? INVALID_PAGE_ID); keeps_storage_steps.
Qed.

(** [AllocateFrame] on a non-empty free list. *)
Lemma AllocateFrame_free (b : BufferPoolManager) f rest :
  free_list_ b = f :: rest -> AllocateFrame b = Ok f (set_free_list rest b).
Proof. intros Hfree. unfold AllocateFrame, bind, get. by rewrite Hfree. Qed.

(** [AllocateFrame] on an empty free list, when the replacer has no victim. *)
Lemma AllocateFrame_none (b : BufferPoolManager) r' :
  free_list_ b = [] ->
  Evict (replacer_ b) = Ok None r' ->
  AllocateFrame b = Ok INVALID_PAGE_ID (set_replacer r' b).
Proof.
  intros Hfree Hevict. unfold AllocateFrame, bind, get. rewrite Hfree.
  by erewrite replacer_ok by exact Hevict.
Qed.

(** [AllocateFrame] on an empty free list, when the replacer gives up [f]. *)
Lemma AllocateFrame_victim (b : BufferPoolManager) f r' p :
  free_list_ b = [] ->
  Evict (replacer_ b) = Ok (Some f) r' ->
  page_lookup (pages_ b) f = Some p ->
  AllocateFrame b
  = Ok f (set_page_table (delete (page_id_ p) (page_table_ b))
            (set_disk_scheduler
               (if is_dirty_ p then written_back p (disk_scheduler_ b)
                else disk_scheduler_ b)
               (set_replacer r' b))).
Proof.
  intros Hfree Hevict Hp. unfold AllocateFrame, bind, get. rewrite Hfree.
  erewrite replacer_ok by exact Hevict. cbv beta iota.
  erewrite page_at_ok by (simpl; exact Hp).
  unfold IsDirty, GetPageId. destruct (is_dirty_ p) eqn:Hdirty.
  - unfold WriteFrame, bind, get. erewrite page_at_ok by (simpl; exact Hp).
    simpl. erewrite page_at_ok by (simpl; exact Hp). reflexivity.
  - simpl. erewrite page_at_ok by (simpl; exact Hp). reflexivity.
Qed.


End pool_properties.

(** ** The pool invariant *)

Section pool_invariants.
Import lru_k_replacer buffer_pool_manager replacer_spec pool_spec.

Lemma valid_frame_lookup (b : BufferPoolManager) f :
  pool_invariant b -> valid_frame b f -> is_Some (page_lookup (pages_ b) f).
Proof.
  intros Hinv [Hlo Hhi]. unfold page_lookup.
  rewrite (proj2 (Z.ltb_ge _ _) Hlo). apply lookup_lt_is_Some.
  destruct (inv_pool_size b Hinv). lia.
Qed.

Lemma valid_frame_in_range (b : BufferPoolManager) f :
  pool_invariant b -> valid_frame b f ->
  is_int f /\ to_size_t f < replacer_size_ (replacer_ b).
Proof.
  intros Hinv [Hlo Hhi]. destruct (inv_pool_size b Hinv) as [_ Hmax].
  rewrite (inv_replacer_size b Hinv). split.
  - unfold is_int, INT_MIN, INT_MAX. lia.
  - unfold to_size_t. rewrite Z.mod_small; lia.
Qed.

Lemma page_lookup_insert_ne (ps : list Page) f g q :
  0 <= f -> f <> g -> page_lookup (<[Z.to_nat f := q]> ps) g = page_lookup ps g.
Proof.
  intros Hf Hne. unfold page_lookup. destruct (Z.ltb_spec g 0); [done|].
  apply list_lookup_insert_ne. lia.
Qed.

Lemma page_lookup_nonneg (ps : list Page) f p : page_lookup ps f = Some p -> 0 <= f.
Proof. unfold page_lookup. destruct (Z.ltb_spec f 0); [done|lia]. Qed.

(** *** Pools with the same core *)

Lemma same_core_refl (b : BufferPoolManager) : same_core b b.
Proof. repeat split; try done. intros f p Hp. by exists p. Qed.

Lemma same_core_trans (b1 b2 b3 : BufferPoolManager) :
  same_core b1 b2 -> same_core b2 b3 -> same_core b1 b3.
Proof.
  intros (Hs & Hf & Ht & Hr & Hl & Hp) (Hs' & Hf' & Ht' & Hr' & Hl' & Hp').
  repeat split; try congruence.
  intros f p Hfp. destruct (Hp f p Hfp) as (p2 & Hp2 & Hid & Hpin).
  destruct (Hp' f p2 Hp2) as (p3 & Hp3 & Hid' & Hpin').
  exists p3. repeat split; congruence.
Qed.

Lemma same_core_set_pages (b : BufferPoolManager) f p q :
  page_lookup (pages_ b) f = Some p ->
  page_id_ q = page_id_ p -> pin_count_ q = pin_count_ p ->
  same_core b (set_pages (<[Z.to_nat f := q]> (pages_ b)) b).
Proof.
  intros Hp Hid Hpin. repeat split; simpl; try done.
  - apply length_insert.
  - intros g pg Hg. destruct (decide (f = g)) as [<-|Hne].
    + exists q. rewrite (page_lookup_insert _ _ _ _ Hp). split; [done|].
      rewrite Hp in Hg. inversion Hg; subst. done.
    + exists pg. rewrite page_lookup_insert_ne; [done| |done].
      by eapply page_lookup_nonneg.
Qed.

Lemma same_core_invariant (b b' : BufferPoolManager) :
  same_core b b' -> pool_invariant b -> pool_invariant b'.
Proof.
  intros (Hs & Hf & Ht & Hr & Hl & Hp) Hinv.
  assert (Hvalid : forall f, valid_frame b f -> valid_frame b' f).
  { intros f. unfold valid_frame. by rewrite Hs. }
  split.
  - rewrite Hs, Hl. apply (inv_pool_size b Hinv).
  - rewrite Hr, Hs. apply (inv_replacer_size b Hinv).
  - rewrite Hf. eapply Forall_impl; [apply (inv_free_valid b Hinv)|exact Hvalid].
  - rewrite Hf. apply (inv_free_nodup b Hinv).
  - rewrite Hf, Ht. apply (inv_free_unmapped b Hinv).
  - rewrite Ht, Hr. intros pid f Hres.
    destruct (inv_resident b Hinv pid f Hres) as (Hv & p & node & Hfp & Hid & Hpin & Hnode & Hev).
    split; [by apply Hvalid|].
    destruct (Hp f p Hfp) as (p' & Hfp' & Hid' & Hpin').
    exists p', node. rewrite Hid', Hpin'. done.
  - rewrite Hr. intros f node Hnode. apply Hvalid. by eapply (inv_tracked_valid b Hinv).
  - rewrite Hr. apply (inv_replacer b Hinv).
Qed.

(** *** Steps that leave the core alone *)

Lemma steps_core_ret {A : Type} (a : A) : steps_core (ret a).
Proof. intros b. apply same_core_refl. Qed.

Lemma steps_core_stuck {A : Type} f : steps_core (stuck f : M BufferPoolManager A).
Proof. by intros b. Qed.

Lemma steps_core_get : steps_core get.
Proof. intros b. apply same_core_refl. Qed.

Lemma steps_core_bind {A B : Type} (m : M BufferPoolManager A)
    (k : A -> M BufferPoolManager B) :
  steps_core m -> (forall a, steps_core (k a)) -> steps_core (bind m k).
Proof.
  intros Hm Hk b. unfold bind. specialize (Hm b).
  destruct (m b) as [a b1|e b1|]; [|done..].
  specialize (Hk a b1). destruct (k a b1); try done; by eapply same_core_trans.
Qed.

Lemma steps_core_page_at f : steps_core (page_at f).
Proof.
  intros b. unfold page_at. destruct (page_lookup (pages_ b) f); [|done].
  apply same_core_refl.
Qed.

Lemma steps_core_update_page f (g : Page -> Page) :
  (forall p, page_id_ (g p) = page_id_ p /\ pin_count_ (g p) = pin_count_ p) ->
  steps_core (update_page f g).
Proof.
  intros Hg b. unfold update_page, bind, page_at, modify.
  destruct (page_lookup (pages_ b) f) as [p|] eqn:Hp; [|done].
  apply (same_core_set_pages b f p); [done|apply Hg..].
Qed.

Lemma steps_core_set_disk d : steps_core (modify (set_disk_scheduler d)).
Proof. intros b. unfold modify. repeat split; try done. intros f p Hp. by exists p. Qed.

Lemma steps_core_WriteFrame f page_id : steps_core (WriteFrame f page_id).
Proof.
  apply steps_core_bind; [apply steps_core_page_at|]. intros p.
  apply steps_core_bind; [apply steps_core_get|]. intros b0. simpl.
  apply steps_core_set_disk.
Qed.

Lemma steps_core_ReadFrame f page_id : steps_core (ReadFrame f page_id).
Proof.
  apply steps_core_bind; [apply steps_core_page_at|]. intros p.
  apply steps_core_bind; [apply steps_core_get|]. intros b0. simpl.
  apply steps_core_bind; [apply steps_core_set_disk|]. intros _.
  by apply steps_core_update_page.
Qed.

Lemma steps_core_AllocatePage : steps_core AllocatePage.
Proof.
  apply steps_core_bind; [apply steps_core_get|]. intros b0.
  apply steps_core_bind; [|intros _; apply steps_core_ret].
  intros b. unfold modify. repeat split; try done. intros f p Hp. by exists p.
Qed.

Lemma steps_core_flush_entries entries : steps_core (flush_entries entries).
Proof.
  induction entries as [|[page_id f] rest IH]; simpl; [apply steps_core_ret|].
  apply steps_core_bind; [apply steps_core_WriteFrame|]. intros _.
  apply steps_core_bind; [by apply steps_core_update_page|]. intros _. exact IH.
Qed.

Lemma steps_core_FlushAllPages : steps_core FlushAllPages.
Proof.
  apply steps_core_bind; [apply steps_core_get|]. intros b0.
  apply steps_core_flush_entries.
Qed.

Lemma steps_core_FlushPage page_id : steps_core (FlushPage page_id).
Proof.
  apply steps_core_bind.
  { unfold BUSTUB_ENSURE. destruct (negb _); [apply steps_core_ret|apply steps_core_stuck]. }
  intros _. apply steps_core_bind; [apply steps_core_get|]. intros b0.
  destruct (page_table_ b0 !! page_id); [|apply steps_core_ret].
  apply steps_core_bind; [apply steps_core_WriteFrame|]. intros _.
  apply steps_core_bind; [by apply steps_core_update_page|]. intros _.
  apply steps_core_ret.
Qed.

Lemma steps_core_latch_through page acquire :
  (forall p p', acquire p = Some p' ->
                page_id_ p' = page_id_ p /\ pin_count_ p' = pin_count_ p) ->
  steps_core (latch_through page acquire).
Proof.
  intros Hacq. destruct page as [f|]; [|apply steps_core_stuck]. simpl.
  intros b. unfold bind, page_at.
  destruct (page_lookup (pages_ b) f) as [p|] eqn:Hp; [|done].
  destruct (acquire p) as [p'|] eqn:Hp'; [|done].
  rewrite (update_page_ok _ _ _ _ Hp).
  apply (same_core_set_pages b f p p' Hp); by apply Hacq.
Qed.

Lemma RLatch_metadata p p' :
  RLatch p = Some p' -> page_id_ p' = page_id_ p /\ pin_count_ p' = pin_count_ p.
Proof. unfold RLatch. destruct (rwlatch_ p); intros Heq; by inversion Heq. Qed.

Lemma WLatch_metadata p p' :
  WLatch p = Some p' -> page_id_ p' = page_id_ p /\ pin_count_ p' = pin_count_ p.
Proof. unfold WLatch. destruct (rwlatch_ p); intros Heq; by inversion Heq. Qed.

(** *** Triples *)

Lemma triple_bind {A B : Type} P (m : M BufferPoolManager A) Q
    (k : A -> M BufferPoolManager B) R :
  triple P m Q -> (forall a, triple (Q a) (k a) R) -> triple P (bind m k) R.
Proof.
  intros Hm Hk b HP. unfold bind. specialize (Hm b HP).
  destruct (m b) as [a b1|e b1|]; [|done..]. by apply Hk.
Qed.

Lemma triple_ret {A : Type} (a : A) (Q : A -> BufferPoolManager -> Prop) :
  triple (Q a) (ret a) Q.
Proof. by intros b HQ. Qed.

Lemma triple_weaken {A : Type} (P P' : BufferPoolManager -> Prop)
    (m : M BufferPoolManager A) (Q Q' : A -> BufferPoolManager -> Prop) :
  (forall b, P' b -> P b) -> (forall a b, Q a b -> Q' a b) ->
  triple P m Q -> triple P' m Q'.
Proof.
  intros HP HQ Hm b HP'. specialize (Hm b (HP b HP')).
  destruct (m b); try done. by apply HQ.
Qed.

Lemma allocated_same_core f (b b' : BufferPoolManager) :
  same_core b b' -> allocated f b -> allocated f b'.
Proof.
  intros Hcore (Hinv & Hvalid & Hfree & Hunmapped).
  pose proof Hcore as (Hs & Hf & Ht & _).
  split; [by eapply same_core_invariant|].
  unfold valid_frame. by rewrite Hs, Hf, Ht.
Qed.

(** A step that leaves the core alone keeps the invariant, and keeps a frame
    allocated. *)
Lemma triple_core_invariant {A : Type} (m : M BufferPoolManager A) :
  steps_core m -> triple pool_invariant m (fun _ => pool_invariant).
Proof.
  intros Hm b Hinv. specialize (Hm b).
  destruct (m b); try done; by eapply same_core_invariant.
Qed.

Lemma triple_core_allocated {A : Type} f (m : M BufferPoolManager A) :
  steps_core m -> triple (allocated f) m (fun _ => allocated f).
Proof.
  intros Hm b Halloc. specialize (Hm b).
  destruct (m b); try done.
  - by eapply allocated_same_core.
  - eapply same_core_invariant; [done|apply Halloc].
Qed.

(** *** Calls into the replacer under the invariant *)

Lemma RecordAccess_outcome (r : LRUKReplacer) fid access_type :
  to_size_t fid < replacer_size_ r ->
  map_Forall (fun _ node => history_ node <> []) (node_store_ r) ->
  RecordAccess fid access_type r
  = Ok tt (set_current_timestamp (to_size_t (current_timestamp_ r + 1))
             (set_node_store (<[fid := accessed r fid]> (node_store_ r)) r)).
Proof.
  intros Hrange Hne. unfold RecordAccess, accessed. rewrite (in_range_test _ _ Hrange).
  destruct (node_store_ r !! fid) as [node|] eqn:Hfid.
  - destruct (k_ r <=? size_ (history_ node)).
    + destruct (history_ node) as [|t0 rest] eqn:Hh.
      { by pose proof (map_Forall_lookup_1 _ _ _ _ Hne Hfid Hh). }
      unfold at_. rewrite lookup_insert_eq. simpl. by rewrite insert_insert_eq.
    + by rewrite (at_Some _ _ _ Hfid).
  - unfold at_. rewrite lookup_insert_eq. simpl. by rewrite insert_insert_eq.
Qed.

(** [RecordAccess] followed by [SetEvictable(false)], as [NewPage] and
    [FetchPage] call them on the frame they return. *)
Lemma touch_frame (r : LRUKReplacer) f access_type :
  is_int f -> to_size_t f < replacer_size_ r -> size_invariant r ->
  exists r1 r2 node,
    RecordAccess f access_type r = Ok tt r1
    /\ SetEvictable f false r1 = Ok tt r2
    /\ size_invariant r2
    /\ replacer_size_ r2 = replacer_size_ r
    /\ node_store_ r2 !! f = Some node
    /\ is_evictable_ node = false
    /\ forall g, g <> f -> node_store_ r2 !! g = node_store_ r !! g.
Proof.
  intros Hint Hrange Hinv.
  pose proof (RecordAccess_outcome r f access_type Hrange (proj2 (proj2 Hinv))) as Hrec.
  destruct (RecordAccess_invariant r f access_type Hint Hinv) as (r1 & Hr1 & Hinv1).
  rewrite Hrec in Hr1. simpl in Hr1. inversion Hr1 as [Heq1]. clear Hr1.
  assert (Hnode1 : node_store_ r1 !! f = Some (accessed r f)).
  { rewrite <- Heq1. simpl. apply lookup_insert_eq. }
  assert (Hrange1 : to_size_t f < replacer_size_ r1) by (by rewrite <- Heq1).
  destruct (SetEvictable_tracked r1 f false _ Hrange1 Hnode1) as (r2 & Hset & Hstore & Hsize).
  destruct (SetEvictable_invariant r1 f false Hint Hinv1) as (r2' & Hr2 & Hinv2).
  rewrite Hset in Hr2. simpl in Hr2. inversion Hr2; subst r2'.
  exists r1, r2, (set_is_evictable false (accessed r f)).
  rewrite Heq1 in Hrec.
  split; [exact Hrec|]. split; [exact Hset|]. split; [exact Hinv2|].
  split; [by rewrite Hsize, <- Heq1|].
  split; [rewrite Hstore; apply lookup_insert_eq|]. split; [done|].
  intros g Hg. rewrite Hstore, lookup_insert_ne by done.
  rewrite <- Heq1. simpl. by rewrite lookup_insert_ne.
Qed.

(** *** [AllocateFrame] hands out an allocated frame *)

Lemma set_replacer_same_core (b : BufferPoolManager) :
  same_core b (set_replacer (replacer_ b) b).
Proof. repeat split; try done. intros f p Hp. by exists p. Qed.

Lemma AllocateFrame_allocates (b : BufferPoolManager) :
  pool_invariant b ->
  exists f b1,
    AllocateFrame b = Ok f b1
    /\ ((f = INVALID_PAGE_ID /\ pool_invariant b1) \/ allocated f b1).
Proof.
  intros Hinv. destruct (free_list_ b) as [|f rest] eqn:Hfree.
  - destruct (Evict_outcome (replacer_ b))
      as [[Hevict _]|(f & n & t & Hf & Hev & _ & Hevict & _)].
    { intros fid node Hfid _.
      apply (map_Forall_lookup_1 _ _ _ _ (proj2 (proj2 (inv_replacer b Hinv))) Hfid). }
    + exists INVALID_PAGE_ID, (set_replacer (replacer_ b) b).
      split; [by apply AllocateFrame_none|]. left. split; [done|].
      eapply same_core_invariant; [apply set_replacer_same_core|done].
    + pose proof (inv_tracked_valid b Hinv f n Hf) as Hvalid.
      destruct (valid_frame_lookup b f Hinv Hvalid) as [p Hp].
      eexists f, _. split; [by eapply AllocateFrame_victim|]. right.
      assert (Hunmapped : forall pid,
                delete (page_id_ p) (page_table_ b) !! pid <> Some f).
      { intros pid [Hne Hres]%lookup_delete_Some.
        destruct (inv_resident b Hinv pid f Hres) as (_ & p' & _ & Hp' & Hid & _).
        rewrite Hp in Hp'. inversion Hp'; subst. done. }
      split; [|split; [done|split; [simpl; rewrite Hfree; apply not_elem_of_nil|done]]].
      split; simpl.
      * apply (inv_pool_size b Hinv).
      * apply (inv_replacer_size b Hinv).
      * rewrite Hfree. apply Forall_nil_2.
      * rewrite Hfree. apply NoDup_nil_2.
      * rewrite Hfree. intros. apply not_elem_of_nil.
      * intros pid g Hres. pose proof (Hunmapped pid) as Hnot.
        apply lookup_delete_Some in Hres as [Hne Hres].
        destruct (inv_resident b Hinv pid g Hres)
          as (Hv & pg & node & Hpg & Hid & Hpin & Hnode & Hevg).
        split; [done|]. exists pg, node. repeat split; try done.
        rewrite lookup_delete_ne; [done|]. intros <-.
        apply Hnot. by apply lookup_delete_Some.
      * intros g node [_ Hg]%lookup_delete_Some. by eapply (inv_tracked_valid b Hinv).
      * destruct (Evict_invariant (replacer_ b) (inv_replacer b Hinv)) as (r'' & Hr'' & Hinv'').
        rewrite Hevict in Hr''. simpl in Hr''. by inversion Hr''; subst.
  - exists f, (set_free_list rest b). split; [by apply AllocateFrame_free|]. right.
    pose proof (inv_free_valid b Hinv) as Hvalid. rewrite Hfree in Hvalid.
    apply Forall_cons in Hvalid as [Hf Hrest].
    pose proof (inv_free_nodup b Hinv) as Hnodup. rewrite Hfree in Hnodup.
    apply NoDup_cons in Hnodup as [Hnotin Hnodup].
    assert (Hunmapped : forall pid g, page_table_ b !! pid = Some g -> g ∉ f :: rest).
    { intros pid g Hres. rewrite <- Hfree. by eapply (inv_free_unmapped b Hinv). }
    split; [|split; [done|split; [done|]]].
    + split; simpl; try apply Hinv; try done.
      intros pid g Hres Hin. eapply Hunmapped; [done|]. by apply list_elem_of_further.
    + simpl. intros pid Hres. eapply Hunmapped; [done|]. apply list_elem_of_here.
Qed.

Lemma triple_AllocateFrame :
  triple pool_invariant AllocateFrame
    (fun f b => (f = INVALID_PAGE_ID /\ pool_invariant b) \/ allocated f b).
Proof.
  intros b Hinv. destruct (AllocateFrame_allocates b Hinv) as (f & b1 & -> & Hpost). done.
Qed.

(** *** Rebuilding the invariant around one frame *)

(** The invariant after an operation that has rewritten the frame [f],
    touched at most the node of [f] in the replacer, added at most [f] to the
    free list, and left in the page table old entries of other frames and
    entries of [f] that agree with the rewritten frame. *)
Lemma rebuilt_invariant (b : BufferPoolManager) f p q r' table' free' :
  pool_invariant b ->
  page_lookup (pages_ b) f = Some p ->
  size_invariant r' ->
  replacer_size_ r' = replacer_size_ (replacer_ b) ->
  (forall g, g <> f -> node_store_ r' !! g = node_store_ (replacer_ b) !! g) ->
  NoDup free' ->
  (forall g, g ∈ free' -> g ∈ free_list_ b \/ g = f) ->
  (forall pid g,
      table' !! pid = Some g ->
      (g <> f /\ page_table_ b !! pid = Some g)
      \/ (g = f /\ (f ∉ free') /\ page_id_ q = pid /\ 0 <= pin_count_ q
          /\ exists node', node_store_ r' !! f = Some node'
                           /\ (pin_count_ q = 0 -> is_evictable_ node' = true))) ->
  pool_invariant
    (set_free_list free'
       (set_page_table table'
          (set_replacer r' (set_pages (<[Z.to_nat f := q]> (pages_ b)) b)))).
Proof.
  intros Hinv Hp Hinv' Hsize Hother Hnodup Hfree Htable.
  assert (Hvalid : valid_frame b f).
  { pose proof (page_lookup_nonneg _ _ _ Hp) as Hlo. split; [done|].
    unfold page_lookup in Hp. rewrite (proj2 (Z.ltb_ge _ _) Hlo) in Hp.
    apply lookup_lt_Some in Hp. destruct (inv_pool_size b Hinv). lia. }
  split; simpl.
  - rewrite length_insert. apply (inv_pool_size b Hinv).
  - rewrite Hsize. apply (inv_replacer_size b Hinv).
  - apply Forall_forall. intros g Hg. destruct (Hfree g Hg) as [Hin| ->]; [|done].
    by apply (proj1 (Forall_forall _ _) (inv_free_valid b Hinv)).
  - done.
  - intros pid g Hres Hin.
    destruct (Htable pid g Hres) as [[Hne Hold]|(-> & Hnotin & _)]; [|done].
    destruct (Hfree g Hin) as [Hin'|]; [|done].
    by eapply (inv_free_unmapped b Hinv).
  - intros pid g Hres.
    destruct (Htable pid g Hres) as [[Hne Hold]|(-> & _ & Hid & Hpin & node' & Hnode' & Hev)].
    + destruct (inv_resident b Hinv pid g Hold)
        as (Hv & pg & node & Hpg & Hidg & Hping & Hnode & Hevg).
      split; [done|]. exists pg, node.
      rewrite page_lookup_insert_ne by (done || apply Hvalid).
      by rewrite Hother.
    + split; [done|]. exists q, node'.
      by rewrite (page_lookup_insert _ _ _ _ Hp).
  - intros g node Hg. destruct (decide (g = f)) as [->|Hne]; [done|].
    rewrite Hother in Hg by done. by eapply (inv_tracked_valid b Hinv).
  - done.
Qed.

(** *** The operations keep the invariant *)

Lemma install_allocated {A : Type} f page_id access_type (x : A) (b : BufferPoolManager) :
  allocated f b ->
  exists b', install f page_id access_type x b = Ok x b' /\ pool_invariant b'.
Proof.
  intros (Hinv & Hvalid & Hfree & Hunmapped).
  destruct (valid_frame_lookup b f Hinv Hvalid) as [p Hp].
  destruct (valid_frame_in_range b f Hinv Hvalid) as [Hint Hrange].
  destruct (touch_frame (replacer_ b) f access_type Hint Hrange (inv_replacer b Hinv))
    as (r1 & r2 & node & Hrec & Hset & Hinv2 & Hsize & Hnode & Hev & Hother).
  exists (set_free_list (free_list_ b)
            (set_page_table (<[page_id := f]> (page_table_ b))
               (set_replacer r2
                  (set_pages
                     (<[Z.to_nat f := set_is_dirty false (set_pin_count 1 (set_page_id page_id p))]>
                        (pages_ b)) b)))).
  split.
  - unfold install, bind.
    rewrite (update_page_ok _ _ _ _ Hp).
    erewrite update_page_ok by (simpl; by eapply page_lookup_insert).
    simpl. rewrite list_insert_insert_eq.
    erewrite update_page_ok by (simpl; by eapply page_lookup_insert).
    simpl. rewrite list_insert_insert_eq.
    erewrite replacer_ok by (simpl; exact Hrec).
    erewrite replacer_ok by (simpl; exact Hset).
    reflexivity.
  - eapply rebuilt_invariant; try done.
    + apply (inv_free_nodup b Hinv).
    + intros g Hg. by left.
    + intros pid g [[-> ->]|[Hne Hres]]%lookup_insert_Some.
      * right. split; [done|]. split; [done|]. split; [done|]. split; [done|].
        exists node. split; [done|]. simpl. done.
      * left. split; [|done]. intros ->. by eapply Hunmapped.
Qed.

Lemma triple_install {A : Type} f page_id access_type (x : A) :
  triple (allocated f) (install f page_id access_type x) (fun _ => pool_invariant).
Proof.
  intros b Halloc.
  destruct (install_allocated f page_id access_type x b Halloc) as (b' & -> & Hinv'). done.
Qed.

Lemma triple_after_AllocateFrame {A : Type} (none : A) (k : Z -> M BufferPoolManager A) :
  (forall f, triple (allocated f) (k f) (fun _ => pool_invariant)) ->
  triple pool_invariant
    (f <- AllocateFrame ;; if f =? INVALID_PAGE_ID then ret none else k f)%prog
    (fun _ => pool_invariant).
Proof.
  intros Hk. eapply triple_bind; [apply triple_AllocateFrame|]. intros f b Hpost. simpl in Hpost.
  destruct (Z.eqb_spec f INVALID_PAGE_ID) as [->|Hne].
  - destruct Hpost as [[_ Hinv]|Halloc]; [done|apply Halloc].
  - apply Hk. by destruct Hpost as [[? _]|Halloc].
Qed.

Lemma triple_NewPage : triple pool_invariant NewPage (fun _ => pool_invariant).
Proof.
  apply (triple_after_AllocateFrame None
           (fun f => (page_id <- AllocatePage ;;
                      update_page f ResetMemory ;;;
                      install f page_id Unknown (Some (page_id, f)))%prog)).
  intros f.
  eapply triple_bind; [apply triple_core_allocated, steps_core_AllocatePage|]. intros page_id.
  eapply triple_bind;
    [apply triple_core_allocated, steps_core_update_page; by intros p
    |intros ?; apply triple_install].
Qed.

Lemma FetchPage_hit (b : BufferPoolManager) page_id access_type f :
  pool_invariant b ->
  page_table_ b !! page_id = Some f ->
  match FetchPage page_id access_type b with
  | Ok _ b' => pool_invariant b'
  | Throw _ b' => pool_invariant b'
  | Stuck _ => True
  end.
Proof.
  intros Hinv Hres.
  destruct (inv_resident b Hinv page_id f Hres)
    as (Hvalid & p & node & Hp & Hid & Hpin & Hnode & Hev).
  destruct (valid_frame_in_range b f Hinv Hvalid) as [Hint Hrange].
  destruct (touch_frame (replacer_ b) f access_type Hint Hrange (inv_replacer b Hinv))
    as (r1 & r2 & node2 & Hrec & Hset & Hinv2 & Hsize & Hnode2 & Hev2 & Hother).
  unfold FetchPage, bind, get. rewrite Hres, (page_at_ok _ _ _ Hp).
  destruct (pin_count_ p =? INT_MAX); [done|].
  rewrite (update_page_ok _ _ _ _ Hp).
  erewrite replacer_ok by (simpl; exact Hrec).
  erewrite replacer_ok by (simpl; exact Hset).
  simpl.
  apply (rebuilt_invariant b f p (set_pin_count (pin_count_ p + 1) p) r2
           (page_table_ b) (free_list_ b)); try done.
  - apply (inv_free_nodup b Hinv).
  - intros g Hg. by left.
  - intros pid g Hg. destruct (decide (g = f)) as [->|Hne]; [right|by left].
    destruct (inv_resident b Hinv pid f Hg) as (_ & p' & _ & Hp' & Hid' & _).
    rewrite Hp in Hp'. inversion Hp'; subst p'.
    split; [done|]. split; [by eapply (inv_free_unmapped b Hinv)|].
    split; [done|]. split; [simpl; lia|].
    exists node2. split; [done|]. simpl. lia.
Qed.

Lemma triple_FetchPage page_id access_type :
  triple pool_invariant (FetchPage page_id access_type) (fun _ => pool_invariant).
Proof.
  intros b Hinv. destruct (page_table_ b !! page_id) as [f|] eqn:Hres.
  - by eapply FetchPage_hit.
  - pose proof (triple_after_AllocateFrame None
                  (fun f => (ReadFrame f page_id ;;;
                             install f page_id access_type (Some f))%prog)) as Hmiss.
    unfold FetchPage, bind at 1, get. rewrite Hres.
    apply Hmiss; [|done]. intros f.
    eapply triple_bind; [apply triple_core_allocated, steps_core_ReadFrame|].
    intros ?. apply triple_install.
Qed.

Lemma triple_UnpinPage page_id is_dirty access_type :
  triple pool_invariant (UnpinPage page_id is_dirty access_type) (fun _ => pool_invariant).
Proof.
  intros b Hinv. destruct (page_table_ b !! page_id) as [f|] eqn:Hres.
  2: { unfold UnpinPage, bind, get. by rewrite Hres. }
  destruct (inv_resident b Hinv page_id f Hres)
    as (Hvalid & p & node & Hp & Hid & Hpin & Hnode & Hev).
  destruct (valid_frame_in_range b f Hinv Hvalid) as [Hint Hrange].
  destruct (Z.le_gt_cases (pin_count_ p) 0) as [Hzero|Hpos].
  { unfold UnpinPage, bind, get. rewrite Hres, (page_at_ok _ _ _ Hp).
    by rewrite (proj2 (Z.leb_le _ _) Hzero). }
  rewrite (UnpinPage_resident _ _ _ _ f p Hres Hp) by lia.
  assert (Hentries : forall r' node',
    node_store_ r' !! f = Some node' ->
    (pin_count_ p = 1 -> is_evictable_ node' = true) ->
    forall pid g, page_table_ b !! pid = Some g ->
      (g <> f /\ page_table_ b !! pid = Some g)
      \/ (g = f /\ (f ∉ free_list_ b) /\ page_id_ (unpinned is_dirty p) = pid
          /\ 0 <= pin_count_ (unpinned is_dirty p)
          /\ exists node', node_store_ r' !! f = Some node'
                           /\ (pin_count_ (unpinned is_dirty p) = 0 ->
                               is_evictable_ node' = true))).
  { intros r' node' Hnode' Hev' pid g Hg.
    destruct (decide (g = f)) as [->|Hne]; [right|by left].
    destruct (inv_resident b Hinv pid f Hg) as (_ & p' & _ & Hp' & Hid' & _).
    rewrite Hp in Hp'. inversion Hp'; subst p'.
    split; [done|]. split; [by eapply (inv_free_unmapped b Hinv)|].
    split; [done|]. split; [simpl; lia|].
    exists node'. split; [done|]. simpl. intros. apply Hev'. lia. }
  unfold bind. destruct (Z.eqb_spec (pin_count_ p) 1) as [Hone|Hmore].
  - destruct (SetEvictable_tracked _ f true node Hrange Hnode) as (r' & Hset & Hstore & Hsize).
    destruct (SetEvictable_invariant _ f true Hint (inv_replacer b Hinv)) as (r'' & Hr'' & Hinv'').
    rewrite Hset in Hr''. simpl in Hr''. inversion Hr''; subst r''.
    erewrite replacer_ok by (simpl; exact Hset). simpl.
    apply (rebuilt_invariant b f p (unpinned is_dirty p) r'
             (page_table_ b) (free_list_ b)); try done.
    + intros g Hg. by rewrite Hstore, lookup_insert_ne.
    + apply (inv_free_nodup b Hinv).
    + intros g Hg. by left.
    + apply (Hentries r' (set_is_evictable true node)); [|done].
      rewrite Hstore. apply lookup_insert_eq.
  - simpl.
    apply (rebuilt_invariant b f p (unpinned is_dirty p) (replacer_ b)
             (page_table_ b) (free_list_ b)); try done.
    + apply (inv_replacer b Hinv).
    + apply (inv_free_nodup b Hinv).
    + intros g Hg. by left.
    + by apply (Hentries (replacer_ b) node).
Qed.

Lemma triple_DeletePage page_id :
  triple pool_invariant (DeletePage page_id) (fun _ => pool_invariant).
Proof.
  intros b Hinv. destruct (page_table_ b !! page_id) as [f|] eqn:Hres.
  2: { unfold DeletePage, bind, get. by rewrite Hres. }
  destruct (inv_resident b Hinv page_id f Hres)
    as (Hvalid & p & node & Hp & Hid & Hpin & Hnode & Hev).
  destruct (valid_frame_in_range b f Hinv Hvalid) as [Hint Hrange].
  destruct (Z.lt_ge_cases 0 (pin_count_ p)) as [Hpos|Hzero].
  { unfold DeletePage, bind, get. rewrite Hres, (page_at_ok _ _ _ Hp).
    by rewrite (proj2 (Z.ltb_lt _ _) Hpos). }
  pose proof (Remove_outcome _ f Hrange) as Hremove.
  rewrite Hnode, (Hev ltac:(lia)) in Hremove.
  destruct (Remove_invariant _ f (inv_replacer b Hinv)) as (r' & Hr' & Hinv').
  rewrite Hremove in Hr'. simpl in Hr'. inversion Hr' as [Heq].
  rewrite Heq in Hremove.
  rewrite (DeletePage_unpinned b page_id f p r' Hres Hp Hzero Hremove).
  apply (rebuilt_invariant b f p (emptied p) r'
           (delete page_id (page_table_ b)) (free_list_ b ++ [f])); try done.
  - by rewrite <- Heq.
  - intros g Hg. rewrite <- Heq. simpl. by rewrite lookup_delete_ne.
  - apply NoDup_app. split; [apply (inv_free_nodup b Hinv)|]. split; [|apply NoDup_singleton].
    intros g Hg ->%list_elem_of_singleton. by eapply (inv_free_unmapped b Hinv).
  - intros g [Hg| ->%list_elem_of_singleton]%elem_of_app; [by left|by right].
  - intros pid g [Hne Hg]%lookup_delete_Some. left. split; [|done]. intros ->.
    destruct (inv_resident b Hinv pid f Hg) as (_ & p' & _ & Hp' & Hid' & _).
    rewrite Hp in Hp'. inversion Hp'; subst p'. congruence.
Qed.

Lemma triple_FetchPageRead page_id :
  triple pool_invariant (FetchPageRead page_id) (fun _ => pool_invariant).
Proof.
  eapply triple_bind; [apply triple_FetchPage|]. intros page.
  eapply triple_bind;
    [apply triple_core_invariant, steps_core_latch_through, RLatch_metadata
    |intros ?; apply (triple_ret _ (fun _ => pool_invariant))].
Qed.

Lemma triple_FetchPageWrite page_id :
  triple pool_invariant (FetchPageWrite page_id) (fun _ => pool_invariant).
Proof.
  eapply triple_bind; [apply triple_FetchPage|]. intros page.
  eapply triple_bind;
    [apply triple_core_invariant, steps_core_latch_through, WLatch_metadata
    |intros ?; apply (triple_ret _ (fun _ => pool_invariant))].
Qed.

Lemma exec_pool_invariant (op : pool_op) (b b' : BufferPoolManager) :
  exec_pool op b = Some b' -> pool_invariant b -> pool_invariant b'.
Proof.
  intros Hexec Hinv.
  assert (Hstep : forall A (m : M BufferPoolManager A),
            triple pool_invariant m (fun _ => pool_invariant) ->
            state_after (m b) = Some b' -> pool_invariant b').
  { intros A m Hm Hafter. specialize (Hm b Hinv).
    destruct (m b); simpl in Hafter; inversion Hafter; by subst. }
  destruct op; simpl in Hexec; (eapply Hstep; [|exact Hexec]).
  - apply triple_NewPage.
  - apply triple_FetchPage.
  - apply triple_UnpinPage.
  - apply triple_core_invariant, steps_core_FlushPage.
  - apply triple_core_invariant, steps_core_FlushAllPages.
  - apply triple_DeletePage.
  - eapply triple_bind; [apply triple_FetchPage|]. intros page.
    apply (triple_ret _ (fun _ => pool_invariant)).
  - apply triple_FetchPageRead.
  - apply triple_FetchPageWrite.
  - eapply triple_bind; [apply triple_NewPage|]. intros created.
    apply (triple_ret _ (fun _ => pool_invariant)).
Qed.

Lemma run_pool_invariant (ops : list pool_op) :
  forall b b', run_pool ops b = Some b' -> pool_invariant b -> pool_invariant b'.
Proof.
  induction ops as [|op ops IH]; intros b b' Hrun Hinv; simpl in Hrun.
  - by inversion Hrun; subst.
  - destruct (exec_pool op b) as [b1|] eqn:Hexec; [|done].
    eapply IH; [exact Hrun|]. by eapply exec_pool_invariant.
Qed.

(** *** The pool that the constructor body builds, and what follows from it *)

Lemma to_int_small z : 0 <= z < 2 ^ 31 -> to_int z = z.
Proof. intros Hz. unfold to_int. rewrite Z.mod_small; lia. Qed.

Lemma ctor_free_list pool_size :
  pool_size <= 2 ^ 31 -> to_int <$> seqZ 0 pool_size = seqZ 0 pool_size.
Proof.
  intros Hmax. rewrite <- (list_fmap_id (seqZ 0 pool_size)) at 2.
  apply Forall_fmap_ext_1, Forall_seqZ. intros j Hj. apply to_int_small. unfold id. lia.
Qed.

Lemma ctor_body_invariant pool_size disk replacer_k log_manager :
  0 <= pool_size <= 2 ^ 31 ->
  pool_invariant (ctor_body pool_size disk replacer_k log_manager).
Proof.
  intros [Hlo Hhi]. split; simpl.
  - rewrite length_replicate. lia.
  - done.
  - rewrite ctor_free_list by done. apply Forall_seqZ. intros j Hj.
    unfold valid_frame. simpl. lia.
  - rewrite ctor_free_list by done. apply NoDup_seqZ.
  - intros pid f Hres. by rewrite lookup_empty in Hres.
  - intros pid f Hres. by rewrite lookup_empty in Hres.
  - intros f node Hnode. by rewrite lookup_empty in Hnode.
  - apply size_invariant_ctor.
Qed.

Lemma pool_invariant_consistent (b : BufferPoolManager) :
  pool_invariant b -> resident_frames_tracked b /\ unpinned_frames_evictable b.
Proof.
  intros Hinv. split; intros pid f Hres;
    destruct (inv_resident b Hinv pid f Hres)
      as (Hvalid & p & node & Hp & Hid & Hpin & Hnode & Hev).
  - destruct (valid_frame_in_range b f Hinv Hvalid) as [_ Hrange].
    split; [by exists p|]. split; [done|by exists node].
  - unfold unpinned_is_evictable. rewrite Hp, Hnode. intros Hzero. apply Hev. lia.
Qed.

(** Every pool reached from the one the constructor body builds, for at
    most [2^31] frames, is one in which [UnpinPage] and [DeletePage] are
    specified. *)
Lemma reachable_pool_consistent pool_size disk replacer_k log_manager
    (ops : list pool_op) (b : BufferPoolManager) :
  0 <= pool_size <= 2 ^ 31 ->
  run_pool ops (ctor_body pool_size disk replacer_k log_manager) = Some b ->
  resident_frames_tracked b /\ unpinned_frames_evictable b.
Proof.
  intros Hsize Hrun. apply pool_invariant_consistent.
  eapply run_pool_invariant; [exact Hrun|]. by apply ctor_body_invariant.
Qed.

(** *** The operations that reuse a frame return *)

Lemma NewPage_eq :
  NewPage
  = (f <- AllocateFrame ;;
     if f =? INVALID_PAGE_ID then ret None
     else page_id <- AllocatePage ;;
          update_page f ResetMemory ;;;
          install f page_id Unknown (Some (page_id, f)))%prog.
Proof. reflexivity. Qed.

Lemma FetchPage_miss_eq (b : BufferPoolManager) page_id access_type :
  page_table_ b !! page_id = None ->
  FetchPage page_id access_type b
  = (f <- AllocateFrame ;;
     if f =? INVALID_PAGE_ID then ret None
     else ReadFrame f page_id ;;;
          install f page_id access_type (Some f))%prog b.
Proof. intros Hmiss. unfold FetchPage, bind at 1, get. by rewrite Hmiss. Qed.

Lemma NewPage_returns (b : BufferPoolManager) :
  pool_invariant b -> exists x b', NewPage b = Ok x b'.
Proof.
  intros Hinv. destruct (AllocateFrame_allocates b Hinv) as (f & b1 & Halloc & Hpost).
  rewrite NewPage_eq. unfold bind at 1. rewrite Halloc.
  destruct (Z.eqb_spec f INVALID_PAGE_ID) as [->|Hne]; [by eexists _, _|].
  destruct Hpost as [[? _]|Hf]; [done|].
  unfold bind at 1.
  pose proof (steps_core_AllocatePage b1) as Hcore.
  destruct (AllocatePage b1) as [page_id b2| |] eqn:Hpage; [|done..].
  pose proof (allocated_same_core f b1 b2 Hcore Hf) as Hf2.
  destruct (valid_frame_lookup b2 f (proj1 Hf2) (proj1 (proj2 Hf2))) as [p Hp].
  unfold bind at 1. rewrite (update_page_ok _ _ _ _ Hp).
  destruct (install_allocated f page_id Unknown (Some (page_id, f))
              (set_pages (<[Z.to_nat f := ResetMemory p]> (pages_ b2)) b2))
    as (b' & Hinstall & _).
  { eapply allocated_same_core; [|exact Hf2]. by apply (same_core_set_pages b2 f p). }
  by eexists _, _.
Qed.

Lemma FetchPage_miss_returns (b : BufferPoolManager) page_id access_type :
  pool_invariant b -> page_table_ b !! page_id = None ->
  exists x b', FetchPage page_id access_type b = Ok x b'.
Proof.
  intros Hinv Hmiss. destruct (AllocateFrame_allocates b Hinv) as (f & b1 & Halloc & Hpost).
  rewrite (FetchPage_miss_eq _ _ _ Hmiss). unfold bind at 1. rewrite Halloc.
  destruct (Z.eqb_spec f INVALID_PAGE_ID) as [->|Hne]; [by eexists _, _|].
  destruct Hpost as [[? _]|Hf]; [done|].
  unfold bind at 1.
  pose proof (steps_core_ReadFrame f page_id b1) as Hcore.
  destruct (valid_frame_lookup b1 f (proj1 Hf) (proj1 (proj2 Hf))) as [p Hp].
  assert (Hread : exists b2, ReadFrame f page_id b1 = Ok tt b2).
  { unfold ReadFrame, bind, get. rewrite (page_at_ok _ _ _ Hp). unfold modify. simpl.
    erewrite update_page_ok by (simpl; exact Hp). by eexists. }
  destruct Hread as [b2 Hb2]. rewrite Hb2 in Hcore |- *.
  destruct (install_allocated f page_id access_type (Some f) b2) as (b' & Hinstall & _).
  { by eapply allocated_same_core. }
  by eexists _, _.
Qed.

(** C3: [AllocateFrame] takes the front of a non-empty free list and touches
    neither the replacer nor the disk.  With an empty free list and a victim
    [f] holding page [p], it returns [f] with [p]'s entry erased from the page
    table, the frame's buffer untouched and, if [p] was dirty, [p]'s bytes
    written to the disk under [p]'s id; after a [NewPage] or a missing
    [FetchPage] that reuses the frame, the disk still holds those bytes, and
    in a pool that satisfies the invariant both do return. *)
Theorem AllocateFrame_cases (b : BufferPoolManager) :
  (forall f rest, free_list_ b = f :: rest ->
                  AllocateFrame b = Ok f (set_free_list rest b))
  /\ (forall f r' p,
        free_list_ b = [] ->
        Evict (replacer_ b) = Ok (Some f) r' ->
        page_lookup (pages_ b) f = Some p ->
        AllocateFrame b
        = Ok f (set_page_table (delete (page_id_ p) (page_table_ b))
                  (set_disk_scheduler
                     (if is_dirty_ p then written_back p (disk_scheduler_ b)
                      else disk_scheduler_ b)
                     (set_replacer r' b)))
        /\ (is_dirty_ p = true ->
            (forall x b', NewPage b = Ok x b' ->
                          stable_storage (disk_scheduler_ b') !! page_id_ p = Some (data_ p))
            /\ (forall page_id access_type x b',
                  page_table_ b !! page_id = None ->
                  FetchPage page_id access_type b = Ok x b' ->
                  stable_storage (disk_scheduler_ b') !! page_id_ p = Some (data_ p))
            /\ (pool_invariant b ->
                (exists x b', NewPage b = Ok x b')
                /\ forall page_id access_type,
                     page_table_ b !! page_id = None ->
                     exists x b', FetchPage page_id access_type b = Ok x b'))).
Proof.
  split; [apply AllocateFrame_free|].
  intros f r' p Hfree Hevict Hp.
  pose proof (AllocateFrame_victim b f r' p Hfree Hevict Hp) as Halloc.
  split; [exact Halloc|]. intros Hdirty. split; [|split].
  - intros x b' Hnew.
    destruct (NewPage_after_AllocateFrame _ _ _ Hnew) as (f1 & b1 & Hb1 & ->).
    rewrite Halloc in Hb1. inversion Hb1; subst. simpl.
    rewrite Hdirty. simpl. apply lookup_insert_eq.
  - intros page_id access_type x b' Hmiss Hfetch.
    destruct (FetchPage_after_AllocateFrame _ _ _ _ _ Hmiss Hfetch) as (f1 & b1 & Hb1 & ->).
    rewrite Halloc in Hb1. inversion Hb1; subst. simpl.
    rewrite Hdirty. simpl. apply lookup_insert_eq.
  - intros Hinv. split; [by apply NewPage_returns|].
    intros page_id access_type Hmiss. by apply FetchPage_miss_returns.
Qed.

End pool_invariants.

(** ** Further properties of the replacer *)

Section replacer_extras.
Import lru_k_replacer replacer_spec.

(** X1: a frame id that is negative, or not below [num_frames], fails the
    range check of [RecordAccess], [SetEvictable] and [Remove] alike: each
    throws [std::out_of_range] and leaves the replacer as it was. *)
Theorem frame_id_range_check (r : LRUKReplacer) (fid : Z) (access_type : AccessType)
    (flag : bool) :
  is_int fid ->
  0 <= replacer_size_ r <= 2 ^ 63 ->
  fid < 0 \/ replacer_size_ r <= fid ->
  RecordAccess fid access_type r = Throw std_out_of_range r
  /\ SetEvictable fid flag r = Throw std_out_of_range r
  /\ Remove fid r = Throw std_out_of_range r.
Proof.
  intros Hint Hsize Hout.
  assert (Htest : (replacer_size_ r <=? to_size_t fid) = true).
  { apply Z.leb_le. unfold to_size_t, is_int, INT_MIN, INT_MAX in *.
    destruct (Z.lt_ge_cases fid 0) as [Hneg|Hpos].
    - rewrite <- (Z.mod_add fid 1) by lia. rewrite Z.mod_small; lia.
    - rewrite Z.mod_small; lia. }
  unfold RecordAccess, SetEvictable, Remove. by rewrite Htest.
Qed.

(** [SetEvictable] on a tracked frame id below [num_frames]. *)
Lemma SetEvictable_outcome (r : LRUKReplacer) fid flag node :
  to_size_t fid < replacer_size_ r ->
  node_store_ r !! fid = Some node ->
  SetEvictable fid flag r
  = if eqb flag (is_evictable_ node) then Ok tt r
    else Ok tt (set_node_store (<[fid := set_is_evictable flag node]> (node_store_ r))
                  (set_curr_size
                     (to_size_t (if flag then curr_size_ r + 1 else curr_size_ r - 1)) r)).
Proof.
  intros Hrange Hnode. unfold SetEvictable.
  rewrite (in_range_test _ _ Hrange), (count_Some _ _ _ Hnode), (at_Some _ _ _ Hnode).
  simpl. destruct flag, (is_evictable_ node); simpl; try done;
    by rewrite (at_Some _ _ _ Hnode).
Qed.

(** X2: in a replacer that satisfies the size invariant, [SetEvictable] with a
    flag other than the one the tracked node has returns normally, writes the
    flag, keeps the node's history and every other node, and moves [Size()] up
    by one when the node becomes evictable and down by one when it stops
    being so. *)
Theorem SetEvictable_flips (r : LRUKReplacer) (fid : Z) (node : LRUKNode) :
  size_invariant r ->
  to_size_t fid < replacer_size_ r ->
  node_store_ r !! fid = Some node ->
  exists r',
    SetEvictable fid (negb (is_evictable_ node)) r = Ok tt r'
    /\ node_store_ r'
       = <[fid := set_is_evictable (negb (is_evictable_ node)) node]> (node_store_ r)
    /\ Size r' = (if is_evictable_ node then Size r - 1 else Size r + 1)
    /\ Size r' = Z.of_nat (evictable_count r')
    /\ current_timestamp_ r' = current_timestamp_ r.
Proof.
  intros Hinv Hrange Hnode.
  pose proof (map_Forall_lookup_1 _ _ _ _ (proj1 (proj2 Hinv)) Hnode) as Hint.
  simpl in Hint.
  destruct (SetEvictable_invariant r fid (negb (is_evictable_ node)) Hint Hinv)
    as (r' & Hr' & [[Hsz' Hcount'] _]).
  pose proof (SetEvictable_outcome r fid (negb (is_evictable_ node)) node Hrange Hnode)
    as Hout.
  assert (Hneq : eqb (negb (is_evictable_ node)) (is_evictable_ node) = false)
    by (by destruct (is_evictable_ node)).
  rewrite Hneq in Hout. rewrite Hout in Hr'. simpl in Hr'. inversion Hr' as [Heq].
  exists r'. rewrite Heq in Hout. split; [exact Hout|].
  split; [by rewrite <- Heq|]. split; [|split; [exact Hcount'|by rewrite <- Heq]].
  destruct Hinv as [[Hsz Hcount] _].
  assert (Hweights :
    Z.of_nat (evictable_count r') + Z.of_nat (flag_weight node)
    = Z.of_nat (evictable_count r)
      + Z.of_nat (flag_weight (set_is_evictable (negb (is_evictable_ node)) node))).
  { unfold evictable_count. rewrite <- Heq. simpl.
    rewrite evictable_size_insert, (evictable_size_split (node_store_ r) fid), Hnode.
    simpl. lia. }
  unfold Size. rewrite Hcount', Hcount.
  unfold flag_weight in Hweights. simpl in Hweights.
  destruct (is_evictable_ node); simpl in Hweights; lia.
Qed.


(** X4: marking a tracked frame with the opposite flag and then with its
    first flag again gives back the replacer as it was. *)
Theorem SetEvictable_round_trip (r : LRUKReplacer) (fid : Z) (node : LRUKNode) :
  is_size_t (curr_size_ r) ->
  to_size_t fid < replacer_size_ r ->
  node_store_ r !! fid = Some node ->
  bind (SetEvictable fid (negb (is_evictable_ node)))
       (fun _ => SetEvictable fid (is_evictable_ node)) r
  = Ok tt r.
Proof.
  intros Hsz Hrange Hnode. unfold bind.
  rewrite (SetEvictable_outcome r fid _ node Hrange Hnode).
  assert (Hneq : eqb (negb (is_evictable_ node)) (is_evictable_ node) = false)
    by (by destruct (is_evictable_ node)).
  rewrite Hneq.
  erewrite SetEvictable_outcome; [|exact Hrange|simpl; apply lookup_insert_eq].
  simpl.
  assert (Hneq' : eqb (is_evictable_ node) (negb (is_evictable_ node)) = false)
    by (by destruct (is_evictable_ node)).
  rewrite Hneq'. f_equal.
  rewrite insert_insert_eq.
  assert (Hnode' : set_is_evictable (is_evictable_ node)
                     (set_is_evictable (negb (is_evictable_ node)) node) = node)
    by (by destruct node).
  rewrite Hnode', (insert_id _ _ _ Hnode).
  assert (Hback : to_size_t
                    (if is_evictable_ node
                     then to_size_t (curr_size_ r - 1) + 1
                     else to_size_t (curr_size_ r + 1) - 1) = curr_size_ r).
  { unfold to_size_t, is_size_t, SIZE_MAX in *.
    destruct (is_evictable_ node).
    - rewrite Zplus_mod_idemp_l. replace (curr_size_ r - 1 + 1) with (curr_size_ r) by lia.
      apply Z.mod_small. lia.
    - rewrite Zminus_mod_idemp_l. replace (curr_size_ r + 1 - 1) with (curr_size_ r) by lia.
      apply Z.mod_small. lia. }
  destruct r as [store now size frames k]. simpl in *.
  unfold set_node_store, set_curr_size. simpl.
  destruct (is_evictable_ node); simpl in *; by rewrite Hback.
Qed.

(** *** What one call does to the histories *)

(** A call leaves [k_] and [replacer_size_] alone; unless it is a
    [RecordAccess] that passed the range check, it also leaves the clock alone
    and every node that is still tracked keeps its history. *)
Lemma exec_shape (op : replacer_op) (r r' : LRUKReplacer) :
  exec op r = Some r' ->
  k_ r' = k_ r
  /\ replacer_size_ r' = replacer_size_ r
  /\ ((current_timestamp_ r' = current_timestamp_ r
       /\ forall g node', node_store_ r' !! g = Some node' ->
                          exists node, node_store_ r !! g = Some node
                                       /\ history_ node' = history_ node)
      \/ (exists fid,
            to_size_t fid < replacer_size_ r
            /\ r' = set_current_timestamp (to_size_t (current_timestamp_ r + 1))
                      (set_node_store (<[fid := accessed r fid]> (node_store_ r)) r))).
Proof.
  assert (Hsame : k_ r = k_ r /\ replacer_size_ r = replacer_size_ r
            /\ ((current_timestamp_ r = current_timestamp_ r
                 /\ forall g node', node_store_ r !! g = Some node' ->
                                    exists node, node_store_ r !! g = Some node
                                                 /\ history_ node' = history_ node)
                \/ (exists fid,
                      to_size_t fid < replacer_size_ r
                      /\ r = set_current_timestamp (to_size_t (current_timestamp_ r + 1))
                               (set_node_store (<[fid := accessed r fid]> (node_store_ r)) r)))).
  { split; [done|]. split; [done|]. left. split; [done|]. intros g node' Hg. by exists node'. }
  assert (Herase : forall f c,
            let r1 := set_curr_size c (set_node_store (delete f (node_store_ r)) r) in
            k_ r1 = k_ r /\ replacer_size_ r1 = replacer_size_ r
            /\ ((current_timestamp_ r1 = current_timestamp_ r
                 /\ forall g node', node_store_ r1 !! g = Some node' ->
                                    exists node, node_store_ r !! g = Some node
                                                 /\ history_ node' = history_ node)
                \/ (exists fid,
                      to_size_t fid < replacer_size_ r
                      /\ r1 = set_current_timestamp (to_size_t (current_timestamp_ r + 1))
                                (set_node_store (<[fid := accessed r fid]> (node_store_ r)) r)))).
  { intros f c. simpl. split; [done|]. split; [done|]. left. split; [done|].
    intros g node' [_ Hg]%lookup_delete_Some. by exists node'. }
  destruct op as [fid access_type|fid flag| |fid]; simpl; intros Hexec.
  - destruct (Z.leb_spec (replacer_size_ r) (to_size_t fid)) as [Hout|Hin].
    + unfold RecordAccess in Hexec. rewrite (proj2 (Z.leb_le _ _) Hout) in Hexec.
      by inversion Hexec; subst.
    + apply RecordAccess_state in Hexec as [->| ->]; [done|].
      split; [done|]. split; [done|]. right. by exists fid.
  - unfold SetEvictable in Hexec.
    destruct (replacer_size_ r <=? to_size_t fid); [by inversion Hexec; subst|].
    simpl in Hexec. unfold count in Hexec.
    destruct (node_store_ r !! fid) as [node|] eqn:Hfid; [|by inversion Hexec; subst].
    simpl in Hexec. rewrite (at_Some _ _ _ Hfid) in Hexec.
    destruct (negb _); [|by inversion Hexec; subst].
    assert (Hflag : forall c,
              let r1 := set_node_store (<[fid := set_is_evictable flag node]> (node_store_ r))
                          (set_curr_size c r) in
              k_ r1 = k_ r /\ replacer_size_ r1 = replacer_size_ r
              /\ ((current_timestamp_ r1 = current_timestamp_ r
                   /\ forall g node', node_store_ r1 !! g = Some node' ->
                                      exists node, node_store_ r !! g = Some node
                                                   /\ history_ node' = history_ node)
                  \/ (exists fid,
                        to_size_t fid < replacer_size_ r
                        /\ r1 = set_current_timestamp (to_size_t (current_timestamp_ r + 1))
                                  (set_node_store (<[fid := accessed r fid]> (node_store_ r))
                                     r)))).
    { intros c. simpl. split; [done|]. split; [done|]. left. split; [done|].
      intros g node'. destruct (decide (g = fid)) as [->|Hne].
      - rewrite lookup_insert_eq. intros [= <-]. by exists node.
      - rewrite lookup_insert_ne by done. intros Hg. by exists node'. }
    destruct flag; simpl in Hexec; rewrite (at_Some _ _ _ Hfid) in Hexec;
      inversion Hexec; subst; apply Hflag.
  - unfold Evict in Hexec.
    destruct (build_evict_list r (map_to_list (node_store_ r))) as [[|c cs]|]; [..|done].
    + by inversion Hexec; subst.
    + destruct (hd c (sort (c :: cs))) as [[f d] t]. simpl in Hexec.
      rewrite erase_after_clear in Hexec. inversion Hexec; subst. apply Herase.
  - unfold Remove in Hexec.
    destruct (replacer_size_ r <=? to_size_t fid); [by inversion Hexec; subst|].
    destruct (count (node_store_ r) fid =? 0); [by inversion Hexec; subst|].
    destruct (eqb _ false); [by inversion Hexec; subst|].
    simpl in Hexec. rewrite erase_after_clear in Hexec. inversion Hexec; subst.
    apply Herase.
Qed.

Lemma history_ok_later (k now now' : Z) (h : list Z) :
  now <= now' -> history_ok k now h -> history_ok k now' h.
Proof.
  intros Hle (Hne & Hlen & Hsorted & Hpast). repeat split; try done.
  eapply Forall_impl; [exact Hpast|]. simpl. intros; lia.
Qed.

Lemma history_ok_accessed (r : LRUKReplacer) fid :
  histories_ok r -> 0 <= current_timestamp_ r ->
  history_ok (k_ r) (current_timestamp_ r + 1) (history_ (accessed r fid)).
Proof.
  intros Hall Hnow. unfold accessed.
  destruct (node_store_ r !! fid) as [node|] eqn:Hfid; simpl.
  - destruct (map_Forall_lookup_1 _ _ _ _ Hall Hfid) as (Hne & Hlen & Hsorted & Hpast).
    simpl in *.
    set (kept := if k_ r <=? size_ (history_ node) then tail (history_ node)
                 else history_ node).
    assert (Hkept : size_ kept + 1 <= Z.max (k_ r) 1
                    /\ StronglySorted Z.lt kept
                    /\ Forall (fun t => 0 <= t < current_timestamp_ r) kept).
    { subst kept. destruct (Z.leb_spec (k_ r) (size_ (history_ node))) as [Hfull|Hroom].
      - destruct (history_ node) as [|t0 rest]; [done|].
        simpl. unfold size_ in *. simpl in *.
        apply StronglySorted_cons in Hsorted as [_ Hsorted].
        apply Forall_cons in Hpast as [_ Hpast]. split; [lia|done].
      - split; [lia|done]. }
    destruct Hkept as (Hlen' & Hsorted' & Hpast').
    split; [by destruct kept|]. split; [|split].
    + unfold size_ in *. rewrite length_app. simpl. lia.
    + apply StronglySorted_app_2; [|done|repeat constructor].
      intros x1 x2 Hx1 ->%list_elem_of_singleton.
      apply (proj1 (Forall_forall _ _) Hpast') in Hx1. lia.
    + apply Forall_app. split.
      * eapply Forall_impl; [exact Hpast'|]. simpl. intros; lia.
      * apply Forall_singleton. lia.
  - split; [done|]. split; [unfold size_; simpl; lia|].
    split; [repeat constructor|]. apply Forall_singleton. lia.
Qed.

Lemma exec_histories_ok (op : replacer_op) (r r' : LRUKReplacer) :
  exec op r = Some r' ->
  histories_ok r -> 0 <= current_timestamp_ r < SIZE_MAX ->
  histories_ok r'
  /\ current_timestamp_ r <= current_timestamp_ r' <= current_timestamp_ r + 1.
Proof.
  intros Hexec Hall Hnow.
  destruct (exec_shape op r r' Hexec) as (Hk & _ & [[Hclock Hold]|(fid & Hrange & ->)]).
  - split; [|lia]. intros g node' Hg.
    destruct (Hold g node' Hg) as (node & Hnode & Hh). simpl.
    rewrite Hk, Hclock, Hh. apply (map_Forall_lookup_1 _ _ _ _ Hall Hnode).
  - unfold histories_ok. simpl.
    rewrite to_size_t_small by (unfold is_size_t; lia). split; [|lia].
    apply map_Forall_insert_2.
    + apply history_ok_accessed; [done|lia].
    + eapply map_Forall_impl; [exact Hall|]. simpl. intros _ node Hnode.
      eapply history_ok_later; [|exact Hnode]. lia.
Qed.

Lemma run_histories_ok (ops : list replacer_op) :
  forall r r',
    run ops r = Some r' ->
    histories_ok r -> 0 <= current_timestamp_ r ->
    current_timestamp_ r + Z.of_nat (length ops) <= SIZE_MAX ->
    histories_ok r'
    /\ current_timestamp_ r <= current_timestamp_ r'
       <= current_timestamp_ r + Z.of_nat (length ops).
Proof.
  induction ops as [|op ops IH]; intros r r' Hrun Hall Hnow Hlen; simpl in *.
  { inversion Hrun; subst. split; [done|lia]. }
  destruct (exec op r) as [r1|] eqn:Hexec; [|done].
  destruct (exec_histories_ok op r r1 Hexec Hall ltac:(lia)) as [Hall1 Hclock1].
  destruct (IH r1 r' Hrun Hall1 ltac:(lia) ltac:(lia)) as [Hall' Hclock'].
  split; [done|lia].
Qed.

(** X5: in every state that fewer than [SIZE_MAX] calls with [int32_t] frame
    ids reach from a new replacer, each tracked frame has a history that is
    not empty, holds at most [k] timestamps (one if [k] is zero), increases
    strictly from the front to the back, and lies below the clock: the front
    of a history is its oldest entry, and a history of [k] entries starts at
    the k-th most recent access. *)
Theorem reachable_histories (num_frames k : Z) (ops : list replacer_op) :
  Forall op_typed ops ->
  Z.of_nat (length ops) < SIZE_MAX ->
  exists r,
    run ops (LRUKReplacer_ctor num_frames k) = Some r
    /\ k_ r = k
    /\ 0 <= current_timestamp_ r <= Z.of_nat (length ops)
    /\ forall fid node,
         node_store_ r !! fid = Some node ->
         history_ node <> []
         /\ size_ (history_ node) <= Z.max k 1
         /\ StronglySorted Z.lt (history_ node)
         /\ Forall (fun t => 0 <= t < current_timestamp_ r) (history_ node).
Proof.
  intros Htyped Hlen.
  destruct (run_invariant ops (LRUKReplacer_ctor num_frames k) Htyped
              (size_invariant_ctor num_frames k)) as (r & Hrun & _).
  destruct (run_histories_ok ops _ r Hrun) as [Hall Hclock]; simpl; try lia.
  { apply map_Forall_empty. }
  assert (Hk : forall ops r r', run ops r = Some r' -> k_ r' = k_ r).
  { clear. induction ops as [|op ops IH]; intros r r' Hrun; simpl in Hrun.
    - by inversion Hrun.
    - destruct (exec op r) as [r1|] eqn:Hexec; [|done].
      rewrite (IH _ _ Hrun). apply (exec_shape op r r1 Hexec). }
  exists r. split; [done|]. rewrite (Hk _ _ _ Hrun). simpl. split; [done|].
  simpl in Hclock. split; [lia|].
  intros fid node Hfid. pose proof (map_Forall_lookup_1 _ _ _ _ Hall Hfid) as Hok.
  simpl in Hok. by rewrite (Hk _ _ _ Hrun) in Hok.
Qed.

Lemma run_tracked_in_range (ops : list replacer_op) :
  forall r r', run ops r = Some r' -> tracked_in_range r ->
               tracked_in_range r' /\ replacer_size_ r' = replacer_size_ r.
Proof.
  induction ops as [|op ops IH]; intros r r' Hrun Hall; simpl in Hrun.
  { by inversion Hrun; subst. }
  destruct (exec op r) as [r1|] eqn:Hexec; [|done].
  destruct (exec_shape op r r1 Hexec) as (_ & Hsize & Hshape).
  assert (Hall1 : tracked_in_range r1).
  { destruct Hshape as [[_ Hold]|(fid & Hrange & ->)].
    - intros g node' Hg. destruct (Hold g node' Hg) as (node & Hnode & _).
      simpl. rewrite Hsize. apply (map_Forall_lookup_1 _ _ _ _ Hall Hnode).
    - simpl. by apply map_Forall_insert_2. }
  destruct (IH r1 r' Hrun Hall1) as [Hall' Hsize']. split; [done|congruence].
Qed.

(** X6: whatever the sequence of calls on a new replacer for [num_frames]
    frames (at most [2^63]), the replacer tracks only frame ids in
    [[0, num_frames)], never more than [num_frames] of them, and [Size()] never
    exceeds [num_frames]. *)
Theorem reachable_tracked_in_range (num_frames k : Z) (ops : list replacer_op) :
  Forall op_typed ops ->
  0 <= num_frames <= 2 ^ 63 ->
  exists r,
    run ops (LRUKReplacer_ctor num_frames k) = Some r
    /\ (forall fid node, node_store_ r !! fid = Some node -> 0 <= fid < num_frames)
    /\ Z.of_nat (size (node_store_ r)) <= num_frames
    /\ 0 <= Size r <= num_frames.
Proof.
  intros Htyped Hframes.
  destruct (run_invariant ops (LRUKReplacer_ctor num_frames k) Htyped
              (size_invariant_ctor num_frames k)) as (r & Hrun & [Hsz Hcount] & Hint & _).
  destruct (run_tracked_in_range ops _ r Hrun) as [Hrange Hsize].
  { apply map_Forall_empty. }
  simpl in Hsize.
  assert (Hkeys : forall fid node, node_store_ r !! fid = Some node -> 0 <= fid < num_frames).
  { intros fid node Hfid.
    pose proof (map_Forall_lookup_1 _ _ _ _ Hrange Hfid) as Hlt.
    pose proof (map_Forall_lookup_1 _ _ _ _ Hint Hfid) as Hfid_int.
    simpl in Hlt, Hfid_int. rewrite Hsize in Hlt.
    unfold to_size_t, is_int, INT_MIN, INT_MAX in *.
    destruct (Z.lt_ge_cases fid 0) as [Hneg|Hpos].
    - rewrite <- (Z.mod_add fid 1) in Hlt by lia. rewrite Z.mod_small in Hlt; lia.
    - rewrite Z.mod_small in Hlt; lia. }
  assert (Hbound : Z.of_nat (size (node_store_ r)) <= num_frames).
  { pose proof (keys_in_range_size (Z.to_nat num_frames) 0 (node_store_ r)) as Hle.
    rewrite Z2Nat.id in Hle by lia.
    assert (size (node_store_ r) <= Z.to_nat num_frames)%nat; [|lia].
    apply Hle. intros fid node Hfid. specialize (Hkeys fid node Hfid). lia. }
  exists r. split; [done|]. split; [done|]. split; [done|].
  unfold Size. rewrite Hcount. unfold evictable_count.
  pose proof (map_size_filter evictable (node_store_ r)). lia.
Qed.

(** *** The victim in reachable states *)

(** In a state reached from a new replacer, the frame that [Evict] returns is
    an evictable frame to which every other evictable frame is strictly less
    preferred. *)
(** X7: in every state that fewer than [SIZE_MAX] calls reach from a new
    replacer, the frame that [Evict] returns is the one evictable frame
    preferred to all others: every other evictable frame has a smaller
    k-distance, or the same k-distance and a larger oldest timestamp. *)
Theorem reachable_victim_preferred (num_frames k : Z) (ops : list replacer_op)
    (r r' : LRUKReplacer) (f : Z) :
  Forall op_typed ops ->
  Z.of_nat (length ops) < SIZE_MAX ->
  run ops (LRUKReplacer_ctor num_frames k) = Some r ->
  Evict r = Ok (Some f) r' ->
  exists n t,
    node_store_ r !! f = Some n
    /\ is_evictable_ n = true
    /\ head (history_ n) = Some t
    /\ forall g ng tg,
         g <> f ->
         node_store_ r !! g = Some ng -> is_evictable_ ng = true ->
         head (history_ ng) = Some tg ->
         nearer (k_distance_of r ng tg) (k_distance_of r n t)
         \/ (k_distance_of r ng tg = k_distance_of r n t /\ t < tg).
Proof.
  intros Htyped Hlen Hrun Hevict.
  destruct (reachable_evict_ready num_frames k ops Htyped Hlen) as (r0 & Hrun0 & Hready & _).
  rewrite Hrun in Hrun0. inversion Hrun0; subst r0.
  pose proof (reachable_timestamps_distinct num_frames k ops r Hlen Hrun) as Hdist.
  destruct (Evict_outcome r)
    as [[Hnone _]|(f0 & n & t & Hf & Hev & Hhd & Hevict0 & _)].
  { intros fid node. by apply evict_ready_nonempty. }
  { rewrite Hnone in Hevict. done. }
  rewrite Hevict0 in Hevict. inversion Hevict; subst f0.
  exists n, t. split; [done|]. split; [done|]. split; [done|].
  intros g ng tg Hne Hg Hevg Hhdg.
  by eapply (Evict_victim_unique r _ f n t Hready Hdist Hevict0 Hf Hhd).
Qed.



(** X9: eviction forgets: once [Evict] has returned a frame, a [RecordAccess]
    of that frame starts a new node whose history holds the one new timestamp
    and which is not evictable, and [Size()] stays as [Evict] left it. *)
Theorem eviction_forgets_history (r r' : LRUKReplacer) (f : Z) (access_type : AccessType) :
  map_Forall (fun _ node => history_ node <> []) (node_store_ r) ->
  to_size_t f < replacer_size_ r ->
  Evict r = Ok (Some f) r' ->
  exists r'',
    RecordAccess f access_type r' = Ok tt r''
    /\ node_store_ r'' !! f
       = Some {| history_ := [current_timestamp_ r]; is_evictable_ := false |}
    /\ Size r'' = Size r'.
Proof.
  intros Hne Hrange Hevict.
  destruct (Evict_outcome r) as [[Hnone _]|(f0 & n & t & Hf & Hev & Hhd & Hevict0 & _)].
  { intros fid node Hfid _. apply (map_Forall_lookup_1 _ _ _ _ Hne Hfid). }
  { rewrite Hnone in Hevict. done. }
  rewrite Hevict0 in Hevict. injection Hevict as Hf0 Hr'. subst f0 r'.
  rewrite RecordAccess_outcome; [|exact Hrange|simpl; by apply map_Forall_delete].
  eexists. split; [reflexivity|]. simpl. split; [|done].
  rewrite lookup_insert_eq. unfold accessed. simpl. by rewrite lookup_delete_eq.
Qed.

(** X22: what [Evict] does to the replacer is what [Remove] of the frame it
    returns would have done: same node store, same [Size()], same clock. *)
Theorem Evict_is_Remove_of_victim (r r' : LRUKReplacer) (f : Z) :
  map_Forall (fun _ node => history_ node <> []) (node_store_ r) ->
  to_size_t f < replacer_size_ r ->
  Evict r = Ok (Some f) r' ->
  Remove f r = Ok tt r' /\ node_store_ r' !! f = None.
Proof.
  intros Hne Hrange Hevict.
  destruct (Evict_outcome r) as [[Hnone _]|(f0 & n & t & Hn & Hev & _ & Hevict0 & _)].
  { intros fid node Hfid _. by apply (map_Forall_lookup_1 _ _ _ _ Hne Hfid). }
  { rewrite Hnone in Hevict. discriminate. }
  rewrite Hevict0 in Hevict. injection Hevict as Hf0 Hr'. subst f0 r'.
  rewrite (Remove_outcome r f Hrange), Hn, Hev. split; [done|]. simpl.
  apply lookup_delete_eq.
Qed.

End replacer_extras.

(** ** Further properties of the buffer pool manager *)

Section pool_extras.
Import lru_k_replacer buffer_pool_manager replacer_spec pool_spec.

Lemma WriteFrame_ok (b : BufferPoolManager) f page_id p :
  page_lookup (pages_ b) f = Some p ->
  WriteFrame f page_id b
  = Ok tt (set_disk_scheduler
             {| stable_storage := <[page_id := data_ p]> (stable_storage (disk_scheduler_ b));
                scheduled := scheduled (disk_scheduler_ b)
                             ++ [{| is_write_ := true; request_data_ := data_ p;
                                    request_page_id_ := page_id |}] |} b).
Proof. intros Hp. unfold WriteFrame, bind, get. by rewrite (page_at_ok _ _ _ Hp). Qed.

Lemma ReadFrame_ok (b : BufferPoolManager) f page_id p :
  page_lookup (pages_ b) f = Some p ->
  ReadFrame f page_id b
  = Ok tt (set_pages
             (<[Z.to_nat f := set_data (default (data_ p)
                                          (stable_storage (disk_scheduler_ b) !! page_id)) p]>
                (pages_ b))
             (set_disk_scheduler (read_into page_id p (disk_scheduler_ b)) b)).
Proof.
  intros Hp. unfold ReadFrame, bind, get. rewrite (page_at_ok _ _ _ Hp).
  unfold modify. simpl. by erewrite update_page_ok by (simpl; exact Hp).
Qed.

(** [FlushPage] of a resident page. *)
Lemma FlushPage_resident (b : BufferPoolManager) page_id f p :
  page_id <> INVALID_PAGE_ID ->
  page_table_ b !! page_id = Some f ->
  page_lookup (pages_ b) f = Some p ->
  FlushPage page_id b
  = Ok true
      (set_pages (<[Z.to_nat f := set_is_dirty false p]> (pages_ b))
         (set_disk_scheduler
            {| stable_storage := <[page_id := data_ p]> (stable_storage (disk_scheduler_ b));
               scheduled := scheduled (disk_scheduler_ b)
                            ++ [{| is_write_ := true; request_data_ := data_ p;
                                   request_page_id_ := page_id |}] |} b)).
Proof.
  intros Hvalid Hres Hp. unfold FlushPage, BUSTUB_ENSURE.
  rewrite (proj2 (Z.eqb_neq _ _) Hvalid). simpl. unfold bind, ret, get.
  rewrite Hres, (WriteFrame_ok _ _ _ _ Hp).
  by erewrite update_page_ok by (simpl; exact Hp).
Qed.

(** X10: [FlushPage] ends the program on the invalid page id; returns [false]
    and changes nothing when the page is not resident; and for a resident page
    schedules one write of the frame's buffer under the page id, after which
    the disk holds those bytes, clears the dirty flag, leaves the pin count and
    everything else alone (a pinned page is flushed like any other), and
    returns [true]. *)
Theorem FlushPage_cases (b : BufferPoolManager) (page_id : Z) :
  (page_id = INVALID_PAGE_ID -> FlushPage page_id b = Stuck ensure_failed)
  /\ (page_id <> INVALID_PAGE_ID -> page_table_ b !! page_id = None ->
      FlushPage page_id b = Ok false b)
  /\ (forall f p,
        page_id <> INVALID_PAGE_ID ->
        page_table_ b !! page_id = Some f ->
        page_lookup (pages_ b) f = Some p ->
        exists b',
          FlushPage page_id b = Ok true b'
          /\ stable_storage (disk_scheduler_ b') !! page_id = Some (data_ p)
          /\ scheduled (disk_scheduler_ b')
             = scheduled (disk_scheduler_ b)
               ++ [{| is_write_ := true; request_data_ := data_ p;
                      request_page_id_ := page_id |}]
          /\ page_lookup (pages_ b') f = Some (set_is_dirty false p)
          /\ (forall g, g <> f -> page_lookup (pages_ b') g = page_lookup (pages_ b) g)
          /\ page_table_ b' = page_table_ b
          /\ free_list_ b' = free_list_ b
          /\ replacer_ b' = replacer_ b
          /\ next_page_id_ b' = next_page_id_ b).
Proof.
  split; [|split].
  - intros ->. reflexivity.
  - intros Hvalid Hres. unfold FlushPage, BUSTUB_ENSURE.
    rewrite (proj2 (Z.eqb_neq _ _) Hvalid). simpl. unfold bind, ret, get. by rewrite Hres.
  - intros f p Hvalid Hres Hp. eexists. split; [by apply FlushPage_resident|]. simpl.
    split; [apply lookup_insert_eq|]. split; [done|].
    split; [by eapply page_lookup_insert|].
    split; [|done]. intros g Hg. apply page_lookup_insert_ne; [|done].
    by eapply page_lookup_nonneg.
Qed.

(** *** Steps that leave the disk scheduler alone *)

Lemma keeps_disk_ret {A : Type} (a : A) : keeps_disk (ret a).
Proof. by intros b. Qed.

Lemma keeps_disk_get : keeps_disk get.
Proof. by intros b. Qed.

Lemma keeps_disk_bind {A B : Type} (m : M BufferPoolManager A)
    (k : A -> M BufferPoolManager B) :
  keeps_disk m -> (forall a, keeps_disk (k a)) -> keeps_disk (bind m k).
Proof.
  intros Hm Hk b. unfold bind. specialize (Hm b).
  destruct (m b) as [a b1|e b1|]; [|done..].
  specialize (Hk a b1). destruct (k a b1); congruence.
Qed.

Lemma keeps_disk_modify (f : BufferPoolManager -> BufferPoolManager) :
  (forall b, disk_scheduler_ (f b) = disk_scheduler_ b) -> keeps_disk (modify f).
Proof. intros Hf b. apply Hf. Qed.

Lemma keeps_disk_page_at f : keeps_disk (page_at f).
Proof. intros b. unfold page_at. by destruct (page_lookup (pages_ b) f). Qed.

Lemma keeps_disk_update_page f g : keeps_disk (update_page f g).
Proof.
  apply keeps_disk_bind; [apply keeps_disk_page_at|]. intros p.
  by apply keeps_disk_modify.
Qed.

Lemma keeps_disk_replacer {A : Type} (m : M LRUKReplacer A) : keeps_disk (replacer m).
Proof. intros b. unfold replacer. by destruct (m (replacer_ b)). Qed.

(** X11: [UnpinPage] and [DeletePage] never schedule disk I/O: however they
    end, the disk holds what it held and nothing was scheduled; deleting a
    dirty page drops its changes. *)
Theorem UnpinPage_DeletePage_keep_disk (page_id : Z) (is_dirty : bool)
    (access_type : AccessType) :
  keeps_disk (UnpinPage page_id is_dirty access_type)
  /\ keeps_disk (DeletePage page_id).
Proof.
  split.
  - apply keeps_disk_bind; [apply keeps_disk_get|]. intros b0.
    destruct (page_table_ b0 !! page_id) as [f|]; [|apply keeps_disk_ret].
    apply keeps_disk_bind; [apply keeps_disk_page_at|]. intros p.
    destruct (pin_count_ p <=? 0); [apply keeps_disk_ret|].
    apply keeps_disk_bind; [apply keeps_disk_update_page|]. intros _.
    apply keeps_disk_bind; [apply keeps_disk_update_page|]. intros _.
    apply keeps_disk_bind; [apply keeps_disk_page_at|]. intros p'.
    apply keeps_disk_bind; [|intros _; apply keeps_disk_ret].
    destruct (pin_count_ p' =? 0); [apply keeps_disk_replacer|apply keeps_disk_ret].
  - apply keeps_disk_bind; [apply keeps_disk_get|]. intros b0.
    destruct (page_table_ b0 !! page_id) as [f|]; [|apply keeps_disk_ret].
    apply keeps_disk_bind; [apply keeps_disk_page_at|]. intros p.
    destruct (0 <? pin_count_ p); [apply keeps_disk_ret|].
    apply keeps_disk_bind; [by apply keeps_disk_modify|]. intros _.
    apply keeps_disk_bind; [by apply keeps_disk_modify|]. intros _.
    apply keeps_disk_bind; [apply keeps_disk_replacer|]. intros _.
    do 4 (apply keeps_disk_bind; [apply keeps_disk_update_page|]; intros _).
    apply keeps_disk_bind; [apply keeps_disk_ret|]. intros _. apply keeps_disk_ret.
Qed.

(** *** What [NewPage] and [FetchPage] do with the frame they obtained *)

Lemma reached_invariant (b : BufferPoolManager) : reached b -> pool_invariant b.
Proof.
  intros (pool_size & disk & k & lm & ops & Hsize & Hrun).
  eapply run_pool_invariant; [exact Hrun|]. by apply ctor_body_invariant.
Qed.

Lemma install_contract {A : Type} f page_id access_type (x : A)
    (b : BufferPoolManager) p :
  allocated f b ->
  page_lookup (pages_ b) f = Some p ->
  exists b' node,
    install f page_id access_type x b = Ok x b'
    /\ pool_invariant b'
    /\ pages_ b' = <[Z.to_nat f := installed page_id p]> (pages_ b)
    /\ page_table_ b' = <[page_id := f]> (page_table_ b)
    /\ free_list_ b' = free_list_ b
    /\ disk_scheduler_ b' = disk_scheduler_ b
    /\ next_page_id_ b' = next_page_id_ b
    /\ node_store_ (replacer_ b') !! f = Some node
    /\ is_evictable_ node = false
    /\ forall g, g <> f ->
                 node_store_ (replacer_ b') !! g = node_store_ (replacer_ b) !! g.
Proof.
  intros Halloc Hp.
  destruct (install_allocated f page_id access_type x b Halloc) as (b' & Hinstall & Hinv').
  destruct Halloc as (Hinv & Hvalid & Hfree & Hunmapped).
  destruct (valid_frame_in_range b f Hinv Hvalid) as [Hint Hrange].
  destruct (touch_frame (replacer_ b) f access_type Hint Hrange (inv_replacer b Hinv))
    as (r1 & r2 & node & Hrec & Hset & Hinv2 & Hsize & Hnode & Hev & Hother).
  exists b', node. split; [exact Hinstall|]. split; [exact Hinv'|].
  revert Hinstall. unfold install, bind.
  rewrite (update_page_ok _ _ _ _ Hp).
  erewrite update_page_ok by (simpl; by eapply page_lookup_insert).
  simpl. rewrite list_insert_insert_eq.
  erewrite update_page_ok by (simpl; by eapply page_lookup_insert).
  simpl. rewrite list_insert_insert_eq.
  erewrite replacer_ok by (simpl; exact Hrec).
  erewrite replacer_ok by (simpl; exact Hset).
  intros Hb'. inversion Hb'; subst b'. clear Hb'. simpl. done.
Qed.

(** What [AllocateFrame] leaves alone, and what it can do to the replacer and
    to the free list. *)
Lemma AllocateFrame_shape (b : BufferPoolManager) f b1 :
  pool_invariant b ->
  AllocateFrame b = Ok f b1 ->
  pages_ b1 = pages_ b
  /\ next_page_id_ b1 = next_page_id_ b
  /\ (forall g node, node_store_ (replacer_ b1) !! g = Some node ->
                     node_store_ (replacer_ b) !! g = Some node)
  /\ (forall g, g ∈ free_list_ b1 -> g ∈ free_list_ b)
  /\ ((f = INVALID_PAGE_ID /\ pool_invariant b1) \/ allocated f b1).
Proof.
  intros Hinv Halloc.
  destruct (AllocateFrame_allocates b Hinv) as (f' & b1' & Halloc' & Hpost).
  rewrite Halloc in Halloc'. inversion Halloc'; subst f' b1'. clear Halloc'.
  cut (pages_ b1 = pages_ b
       /\ next_page_id_ b1 = next_page_id_ b
       /\ (forall g node, node_store_ (replacer_ b1) !! g = Some node ->
                          node_store_ (replacer_ b) !! g = Some node)
       /\ (forall g, g ∈ free_list_ b1 -> g ∈ free_list_ b)).
  { intros (? & ? & ? & ?). done. }
  clear Hpost. destruct (free_list_ b) as [|f0 rest] eqn:Hfree.
  - destruct (Evict_outcome (replacer_ b))
      as [[Hevict _]|(fv & n & t & Hf & Hev & _ & Hevict & _)].
    { intros fid node Hfid _.
      apply (map_Forall_lookup_1 _ _ _ _ (proj2 (proj2 (inv_replacer b Hinv))) Hfid). }
    + rewrite (AllocateFrame_none b _ Hfree Hevict) in Halloc.
      inversion Halloc; subst. simpl. by rewrite Hfree.
    + destruct (valid_frame_lookup b fv Hinv (inv_tracked_valid b Hinv fv n Hf)) as [p Hp].
      rewrite (AllocateFrame_victim b fv _ p Hfree Hevict Hp) in Halloc.
      inversion Halloc; subst. simpl. rewrite Hfree.
      split; [done|]. split; [done|]. split; [|done].
      by intros g node [_ Hg]%lookup_delete_Some.
  - rewrite (AllocateFrame_free b f0 rest Hfree) in Halloc.
    inversion Halloc; subst. simpl.
    split; [done|]. split; [done|]. split; [done|].
    intros g Hg. by apply list_elem_of_further.
Qed.

Lemma NewPage_run (b : BufferPoolManager) f b1 :
  pool_invariant b ->
  AllocateFrame b = Ok f b1 ->
  f <> INVALID_PAGE_ID ->
  exists p1,
    page_lookup (pages_ b1) f = Some p1
    /\ allocated f (set_pages (<[Z.to_nat f := ResetMemory p1]> (pages_ b1))
                      (set_next_page_id (to_int (next_page_id_ b + 1)) b1))
    /\ NewPage b
       = install f (next_page_id_ b) Unknown (Some (next_page_id_ b, f))
           (set_pages (<[Z.to_nat f := ResetMemory p1]> (pages_ b1))
              (set_next_page_id (to_int (next_page_id_ b + 1)) b1)).
Proof.
  intros Hinv Halloc Hne.
  destruct (AllocateFrame_shape b f b1 Hinv Halloc) as (_ & Hnext & _ & _ & [[? _]|Hf]); [done|].
  destruct (valid_frame_lookup b1 f (proj1 Hf) (proj1 (proj2 Hf))) as [p1 Hp1].
  exists p1. split; [exact Hp1|]. split.
  - eapply allocated_same_core; [|exact Hf].
    apply (same_core_trans _ (set_next_page_id (to_int (next_page_id_ b + 1)) b1)).
    + repeat split; try done. intros g p Hp. by exists p.
    + by apply (same_core_set_pages (set_next_page_id (to_int (next_page_id_ b + 1)) b1)
                  f p1).
  - rewrite NewPage_eq. unfold bind at 1. rewrite Halloc.
    rewrite (proj2 (Z.eqb_neq _ _) Hne). unfold AllocatePage, bind, get, modify. simpl.
    rewrite <- Hnext.
    by erewrite update_page_ok by (simpl; exact Hp1).
Qed.

(** X12: [NewPage] in a pool that a program can be in.  When [AllocateFrame]
    has no frame to give, [NewPage] returns [nullptr] and the page id counter
    stays as it was.  Otherwise it returns the next page id (the counter moves
    on by one) and the frame [AllocateFrame] handed out, with the buffer
    zeroed, the page id set, a pin count of one and the dirty flag cleared; the
    page table maps the new id to the frame, the frame is tracked by the
    replacer and not evictable, and the other frames and the disk are as
    [AllocateFrame] left them. *)
Theorem NewPage_contract (b : BufferPoolManager) f b1 :
  reached b ->
  AllocateFrame b = Ok f b1 ->
  (f = INVALID_PAGE_ID ->
   NewPage b = Ok None b1 /\ next_page_id_ b1 = next_page_id_ b)
  /\ (f <> INVALID_PAGE_ID ->
      exists b' p1 node,
        page_lookup (pages_ b1) f = Some p1
        /\ NewPage b = Ok (Some (next_page_id_ b, f)) b'
        /\ page_lookup (pages_ b') f
           = Some {| data_ := replicate BUSTUB_PAGE_SIZE Byte.x00;
                     page_id_ := next_page_id_ b;
                     pin_count_ := 1;
                     is_dirty_ := false;
                     rwlatch_ := rwlatch_ p1 |}
        /\ (forall g, g <> f -> page_lookup (pages_ b') g = page_lookup (pages_ b1) g)
        /\ page_table_ b' = <[next_page_id_ b := f]> (page_table_ b1)
        /\ free_list_ b' = free_list_ b1
        /\ next_page_id_ b' = to_int (next_page_id_ b + 1)
        /\ disk_scheduler_ b' = disk_scheduler_ b1
        /\ node_store_ (replacer_ b') !! f = Some node
        /\ is_evictable_ node = false).
Proof.
  intros Hinv%reached_invariant Halloc. split.
  - intros ->. split.
    + rewrite NewPage_eq. unfold bind. by rewrite Halloc.
    + by destruct (AllocateFrame_shape b _ b1 Hinv Halloc) as (_ & Hnext & _).
  - intros Hne. destruct (NewPage_run b f b1 Hinv Halloc Hne) as (p1 & Hp1 & Hf & Hnew).
    destruct (install_contract f (next_page_id_ b) Unknown (Some (next_page_id_ b, f)) _
                (ResetMemory p1) Hf)
      as (b' & node & Hinstall & _ & Hpages & Htable & Hfree & Hdisk & Hnext & Hnode & Hev & _).
    { simpl. by eapply page_lookup_insert. }
    exists b', p1, node. split; [exact Hp1|]. split; [by rewrite Hnew|].
    simpl in Hpages. rewrite list_insert_insert_eq in Hpages.
    split; [rewrite Hpages; by eapply page_lookup_insert|].
    split; [|done].
    intros g Hg. rewrite Hpages. apply page_lookup_insert_ne; [|done].
    by eapply page_lookup_nonneg.
Qed.

Lemma FetchPage_miss_run (b : BufferPoolManager) page_id access_type f b1 :
  pool_invariant b ->
  page_table_ b !! page_id = None ->
  AllocateFrame b = Ok f b1 ->
  f <> INVALID_PAGE_ID ->
  exists p1,
    page_lookup (pages_ b1) f = Some p1
    /\ allocated f
         (set_pages
            (<[Z.to_nat f := set_data (default (data_ p1)
                                         (stable_storage (disk_scheduler_ b1) !! page_id)) p1]>
               (pages_ b1))
            (set_disk_scheduler (read_into page_id p1 (disk_scheduler_ b1)) b1))
    /\ FetchPage page_id access_type b
       = install f page_id access_type (Some f)
           (set_pages
              (<[Z.to_nat f := set_data (default (data_ p1)
                                           (stable_storage (disk_scheduler_ b1) !! page_id)) p1]>
                 (pages_ b1))
              (set_disk_scheduler (read_into page_id p1 (disk_scheduler_ b1)) b1)).
Proof.
  intros Hinv Hmiss Halloc Hne.
  destruct (AllocateFrame_shape b f b1 Hinv Halloc) as (_ & _ & _ & _ & [[? _]|Hf]); [done|].
  destruct (valid_frame_lookup b1 f (proj1 Hf) (proj1 (proj2 Hf))) as [p1 Hp1].
  exists p1. split; [exact Hp1|].
  pose proof (steps_core_ReadFrame f page_id b1) as Hcore.
  rewrite (ReadFrame_ok _ _ _ _ Hp1) in Hcore.
  split; [by eapply allocated_same_core|].
  rewrite (FetchPage_miss_eq _ _ _ Hmiss). unfold bind at 1. rewrite Halloc.
  rewrite (proj2 (Z.eqb_neq _ _) Hne). unfold bind at 1.
  by rewrite (ReadFrame_ok _ _ _ _ Hp1).
Qed.


Lemma FetchPage_hit_outcome (b : BufferPoolManager) page_id access_type f :
  pool_invariant b ->
  page_table_ b !! page_id = Some f ->
  exists p,
    page_lookup (pages_ b) f = Some p
    /\ page_id_ p = page_id
    /\ (pin_count_ p = INT_MAX ->
        FetchPage page_id access_type b = Stuck signed_overflow)
    /\ (pin_count_ p <> INT_MAX ->
        exists b' node,
          FetchPage page_id access_type b = Ok (Some f) b'
          /\ pages_ b' = <[Z.to_nat f := set_pin_count (pin_count_ p + 1) p]> (pages_ b)
          /\ page_table_ b' = page_table_ b
          /\ free_list_ b' = free_list_ b
          /\ next_page_id_ b' = next_page_id_ b
          /\ disk_scheduler_ b' = disk_scheduler_ b
          /\ node_store_ (replacer_ b') !! f = Some node
          /\ is_evictable_ node = false
          /\ forall g, g <> f ->
                       node_store_ (replacer_ b') !! g = node_store_ (replacer_ b) !! g).
Proof.
  intros Hinv Hres.
  destruct (inv_resident b Hinv page_id f Hres)
    as (Hvalid & p & node & Hp & Hid & Hpin & Hnode & Hev).
  destruct (valid_frame_in_range b f Hinv Hvalid) as [Hint Hrange].
  destruct (touch_frame (replacer_ b) f access_type Hint Hrange (inv_replacer b Hinv))
    as (r1 & r2 & node2 & Hrec & Hset & Hinv2 & Hsize & Hnode2 & Hev2 & Hother).
  exists p. split; [exact Hp|]. split; [exact Hid|]. split.
  - intros Hmax. unfold FetchPage, bind, get. rewrite Hres, (page_at_ok _ _ _ Hp).
    by rewrite (proj2 (Z.eqb_eq _ _) Hmax).
  - intros Hmax. exists (set_replacer r2
                         (set_pages (<[Z.to_nat f := set_pin_count (pin_count_ p + 1) p]>
                                       (pages_ b)) b)), node2.
    split; [|done].
    unfold FetchPage, bind, get. rewrite Hres, (page_at_ok _ _ _ Hp).
    rewrite (proj2 (Z.eqb_neq _ _) Hmax).
    rewrite (update_page_ok _ _ _ _ Hp).
    erewrite replacer_ok by (simpl; exact Hrec).
    by erewrite replacer_ok by (simpl; exact Hset).
Qed.

(** X14: [FetchPage] of a resident page, in a pool that a program can be in,
    returns the page's frame with the pin count one higher, and the frame is
    not evictable afterwards; the buffer, the dirty flag, the page table, the
    free list, the page id counter and the disk are untouched.  At a pin count
    of [INT_MAX] the increment overflows. *)
Theorem FetchPage_hit_contract (b : BufferPoolManager) page_id access_type f :
  reached b ->
  page_table_ b !! page_id = Some f ->
  exists p,
    page_lookup (pages_ b) f = Some p
    /\ page_id_ p = page_id
    /\ (pin_count_ p = INT_MAX ->
        FetchPage page_id access_type b = Stuck signed_overflow)
    /\ (pin_count_ p <> INT_MAX ->
        exists b' node,
          FetchPage page_id access_type b = Ok (Some f) b'
          /\ pages_ b' = <[Z.to_nat f := set_pin_count (pin_count_ p + 1) p]> (pages_ b)
          /\ page_table_ b' = page_table_ b
          /\ free_list_ b' = free_list_ b
          /\ next_page_id_ b' = next_page_id_ b
          /\ disk_scheduler_ b' = disk_scheduler_ b
          /\ node_store_ (replacer_ b') !! f = Some node
          /\ is_evictable_ node = false
          /\ forall g, g <> f ->
                       node_store_ (replacer_ b') !! g = node_store_ (replacer_ b) !! g).
Proof. intros Hinv%reached_invariant. by apply FetchPage_hit_outcome. Qed.

(** *** The frames that can be handed out are not pinned *)

Lemma page_lookup_same_core (b b' : BufferPoolManager) g p' :
  same_core b b' ->
  page_lookup (pages_ b') g = Some p' ->
  exists p, page_lookup (pages_ b) g = Some p /\ pin_count_ p' = pin_count_ p.
Proof.
  intros (_ & _ & _ & _ & Hlen & Hpages) Hp'.
  pose proof (page_lookup_nonneg _ _ _ Hp') as Hlo.
  assert (Hsome : is_Some (page_lookup (pages_ b) g)).
  { unfold page_lookup in Hp' |- *. rewrite (proj2 (Z.ltb_ge _ _) Hlo) in Hp' |- *.
    apply lookup_lt_is_Some. rewrite <- Hlen. by eapply lookup_lt_Some. }
  destruct Hsome as [p Hp]. exists p. split; [done|].
  destruct (Hpages g p Hp) as (p'' & Hp'' & _ & Hpin). congruence.
Qed.

Lemma unpinned_same_core (b b' : BufferPoolManager) :
  same_core b b' -> reusable_frames_unpinned b -> reusable_frames_unpinned b'.
Proof.
  intros Hcore [Hev Hfree]. pose proof Hcore as (_ & Hfl & _ & Hrep & _). split.
  - intros f node p' Hnode Hevict Hp'. rewrite Hrep in Hnode.
    destruct (page_lookup_same_core b b' f p' Hcore Hp') as (p & Hp & ->). by eapply Hev.
  - intros f p' Hin Hp'. rewrite Hfl in Hin.
    destruct (page_lookup_same_core b b' f p' Hcore Hp') as (p & Hp & ->). by eapply Hfree.
Qed.

(** A pool rebuilt around one frame [f]. *)
Lemma unpinned_rebuilt (b b' : BufferPoolManager) f :
  reusable_frames_unpinned b ->
  (forall g node, g <> f -> node_store_ (replacer_ b') !! g = Some node ->
                  node_store_ (replacer_ b) !! g = Some node) ->
  (forall g, g <> f -> page_lookup (pages_ b') g = page_lookup (pages_ b) g) ->
  (forall g, g ∈ free_list_ b' -> g ∈ free_list_ b \/ g = f) ->
  (forall p, page_lookup (pages_ b') f = Some p ->
             (forall node, node_store_ (replacer_ b') !! f = Some node ->
                           is_evictable_ node = true -> pin_count_ p = 0)
             /\ (f ∈ free_list_ b' -> pin_count_ p = 0)) ->
  reusable_frames_unpinned b'.
Proof.
  intros [Hev Hfree] Hstore Hpages Hfl Hf. split.
  - intros g node p Hnode Hevict Hp. destruct (decide (g = f)) as [->|Hne].
    + by eapply (proj1 (Hf p Hp)).
    + rewrite Hpages in Hp by done. eapply Hev; [by eapply Hstore|done..].
  - intros g p Hin Hp. destruct (decide (g = f)) as [->|Hne].
    + by eapply (proj2 (Hf p Hp)).
    + rewrite Hpages in Hp by done. destruct (Hfl g Hin) as [Hin'|]; [|done].
      by eapply Hfree.
Qed.

Lemma keeps_pins_ret {A : Type} (a : A) : keeps_pins (ret a).
Proof. by intros b. Qed.

Lemma keeps_pins_core {A : Type} (m : M BufferPoolManager A) :
  steps_core m -> keeps_pins m.
Proof.
  intros Hm b _ Hpins. specialize (Hm b).
  destruct (m b); [by eapply unpinned_same_core..|done].
Qed.

Lemma keeps_pins_bind {A B : Type} (m : M BufferPoolManager A)
    (k : A -> M BufferPoolManager B) :
  triple pool_invariant m (fun _ => pool_invariant) ->
  keeps_pins m -> (forall a, keeps_pins (k a)) -> keeps_pins (bind m k).
Proof.
  intros Hm Hpins Hk b Hinv Hb. specialize (Hm b Hinv). specialize (Hpins b Hinv Hb).
  unfold bind. destruct (m b) as [a b1|e b1|]; [|done..]. by apply Hk.
Qed.

Lemma unpinned_after_AllocateFrame (b : BufferPoolManager) f b1 :
  pool_invariant b -> reusable_frames_unpinned b ->
  AllocateFrame b = Ok f b1 ->
  reusable_frames_unpinned b1.
Proof.
  intros Hinv [Hev Hfree] Halloc.
  destruct (AllocateFrame_shape b f b1 Hinv Halloc) as (Hpages & _ & Hstore & Hfl & _).
  split.
  - intros g node p Hnode Hevict Hp. rewrite Hpages in Hp. eapply Hev; [by apply Hstore|done..].
  - intros g p Hin Hp. rewrite Hpages in Hp. eapply Hfree; [by apply Hfl|done].
Qed.

Lemma unpinned_after_install {A : Type} f page_id access_type (x : A)
    (b : BufferPoolManager) p :
  allocated f b ->
  page_lookup (pages_ b) f = Some p ->
  reusable_frames_unpinned b ->
  match install f page_id access_type x b with
  | Ok _ b' => reusable_frames_unpinned b'
  | Throw _ b' => reusable_frames_unpinned b'
  | Stuck _ => True
  end.
Proof.
  intros Halloc Hp Hb.
  destruct (install_contract f page_id access_type x b p Halloc Hp)
    as (b' & node & -> & _ & Hpages & _ & Hfree & _ & _ & Hnode & Hev & Hother).
  apply (unpinned_rebuilt b b' f Hb).
  - intros g node' Hne. by rewrite Hother.
  - intros g Hne. rewrite Hpages. apply page_lookup_insert_ne; [|done].
    by eapply page_lookup_nonneg.
  - intros g. rewrite Hfree. by left.
  - intros p' _. split.
    + intros node' Hnode'. rewrite Hnode in Hnode'. inversion Hnode'; subst. congruence.
    + rewrite Hfree. intros Hin. by destruct Halloc as (_ & _ & Hnotin & _).
Qed.

Lemma keeps_pins_NewPage : keeps_pins NewPage.
Proof.
  intros b Hinv Hb.
  destruct (AllocateFrame_allocates b Hinv) as (f & b1 & Halloc & _).
  pose proof (unpinned_after_AllocateFrame b f b1 Hinv Hb Halloc) as Hb1.
  destruct (decide (f = INVALID_PAGE_ID)) as [->|Hne].
  { rewrite NewPage_eq. unfold bind. by rewrite Halloc. }
  destruct (NewPage_run b f b1 Hinv Halloc Hne) as (p1 & Hp1 & Hf & ->).
  eapply unpinned_after_install; [exact Hf|simpl; by eapply page_lookup_insert|].
  eapply unpinned_same_core; [|exact Hb1].
  apply (same_core_trans _ (set_next_page_id (to_int (next_page_id_ b + 1)) b1)).
  - repeat split; try done. intros g p Hp. by exists p.
  - by apply (same_core_set_pages (set_next_page_id (to_int (next_page_id_ b + 1)) b1)
                f p1).
Qed.

Lemma keeps_pins_FetchPage page_id access_type : keeps_pins (FetchPage page_id access_type).
Proof.
  intros b Hinv Hb. destruct (page_table_ b !! page_id) as [f|] eqn:Hres.
  - destruct (FetchPage_hit_outcome b page_id access_type f Hinv Hres)
      as (p & Hp & _ & Hmax & Hok).
    destruct (decide (pin_count_ p = INT_MAX)) as [Heq|Hne]; [by rewrite (Hmax Heq)|].
    destruct (Hok Hne) as (b' & node & -> & Hpages & _ & Hfree & _ & _ & Hnode & Hev & Hother).
    apply (unpinned_rebuilt b b' f Hb).
    + intros g node' Hg. by rewrite Hother.
    + intros g Hg. rewrite Hpages. apply page_lookup_insert_ne; [|done].
      by eapply page_lookup_nonneg.
    + intros g. rewrite Hfree. by left.
    + intros p' _. split.
      * intros node' Hnode'. rewrite Hnode in Hnode'. inversion Hnode'; subst. congruence.
      * rewrite Hfree. intros Hin. by destruct (inv_free_unmapped b Hinv page_id f Hres).
  - destruct (AllocateFrame_allocates b Hinv) as (f & b1 & Halloc & _).
    pose proof (unpinned_after_AllocateFrame b f b1 Hinv Hb Halloc) as Hb1.
    destruct (decide (f = INVALID_PAGE_ID)) as [->|Hne].
    { rewrite (FetchPage_miss_eq _ _ _ Hres). unfold bind. by rewrite Halloc. }
    destruct (FetchPage_miss_run b page_id access_type f b1 Hinv Hres Halloc Hne)
      as (p1 & Hp1 & Hf & ->).
    eapply unpinned_after_install; [exact Hf|simpl; by eapply page_lookup_insert|].
    eapply unpinned_same_core; [|exact Hb1].
    pose proof (steps_core_ReadFrame f page_id b1) as Hcore.
    by rewrite (ReadFrame_ok _ _ _ _ Hp1) in Hcore.
Qed.

Lemma UnpinPage_run (b : BufferPoolManager) page_id is_dirty access_type :
  pool_invariant b ->
  exists x b',
    UnpinPage page_id is_dirty access_type b = Ok x b'
    /\ (reusable_frames_unpinned b -> reusable_frames_unpinned b').
Proof.
  intros Hinv. destruct (page_table_ b !! page_id) as [f|] eqn:Hres.
  2: { exists false, b. unfold UnpinPage, bind, get. by rewrite Hres. }
  destruct (inv_resident b Hinv page_id f Hres)
    as (Hvalid & p & node & Hp & Hid & Hpin & Hnode & Hev).
  destruct (valid_frame_in_range b f Hinv Hvalid) as [Hint Hrange].
  destruct (Z.le_gt_cases (pin_count_ p) 0) as [Hzero|Hpos].
  { exists false, b. unfold UnpinPage, bind, get. rewrite Hres, (page_at_ok _ _ _ Hp).
    by rewrite (proj2 (Z.leb_le _ _) Hzero). }
  rewrite (UnpinPage_resident _ _ _ _ f p Hres Hp) by lia.
  unfold bind. destruct (Z.eqb_spec (pin_count_ p) 1) as [Hone|Hmore].
  - destruct (SetEvictable_tracked _ f true node Hrange Hnode) as (r' & Hset & Hstore & Hsize).
    erewrite replacer_ok by (simpl; exact Hset). simpl.
    eexists _, _. split; [reflexivity|]. intros Hb.
    apply (unpinned_rebuilt b _ f Hb); simpl.
    + intros g node' Hg. by rewrite Hstore, lookup_insert_ne.
    + intros g Hg. apply page_lookup_insert_ne; [|done]. by eapply page_lookup_nonneg.
    + intros g. by left.
    + intros p'. rewrite (page_lookup_insert _ _ _ _ Hp). intros Hp'.
      inversion Hp'; subst p'. simpl. split; [lia|].
      intros Hin. by destruct (inv_free_unmapped b Hinv page_id f Hres).
  - simpl. eexists _, _. split; [reflexivity|]. intros Hb.
    apply (unpinned_rebuilt b _ f Hb); simpl.
    + done.
    + intros g Hg. apply page_lookup_insert_ne; [|done]. by eapply page_lookup_nonneg.
    + intros g. by left.
    + intros p' _. split.
      * intros node' Hnode' Hevict. rewrite Hnode in Hnode'. inversion Hnode'; subst node'.
        pose proof (proj1 Hb f node p Hnode Hevict Hp). lia.
      * intros Hin. by destruct (inv_free_unmapped b Hinv page_id f Hres).
Qed.

Lemma DeletePage_run (b : BufferPoolManager) page_id :
  pool_invariant b ->
  exists x b',
    DeletePage page_id b = Ok x b'
    /\ (reusable_frames_unpinned b -> reusable_frames_unpinned b').
Proof.
  intros Hinv. destruct (page_table_ b !! page_id) as [f|] eqn:Hres.
  2: { exists true, b. unfold DeletePage, bind, get. by rewrite Hres. }
  destruct (inv_resident b Hinv page_id f Hres)
    as (Hvalid & p & node & Hp & Hid & Hpin & Hnode & Hev).
  destruct (valid_frame_in_range b f Hinv Hvalid) as [Hint Hrange].
  destruct (Z.lt_ge_cases 0 (pin_count_ p)) as [Hpos|Hzero].
  { exists false, b. unfold DeletePage, bind, get. rewrite Hres, (page_at_ok _ _ _ Hp).
    by rewrite (proj2 (Z.ltb_lt _ _) Hpos). }
  pose proof (Remove_outcome _ f Hrange) as Hremove.
  rewrite Hnode, (Hev ltac:(lia)) in Hremove.
  rewrite (DeletePage_unpinned b page_id f p _ Hres Hp Hzero Hremove).
  eexists _, _. split; [reflexivity|]. intros Hb.
  apply (unpinned_rebuilt b _ f Hb); simpl.
  - intros g node' Hg. by rewrite lookup_delete_ne.
  - intros g Hg. apply page_lookup_insert_ne; [|done]. by eapply page_lookup_nonneg.
  - intros g [Hg| ->%list_elem_of_singleton]%elem_of_app; [by left|by right].
  - intros p'. rewrite (page_lookup_insert _ _ _ _ Hp). intros Hp'.
    by inversion Hp'; subst p'.
Qed.

Lemma keeps_pins_run {A : Type} (m : M BufferPoolManager A) :
  (forall b, pool_invariant b ->
             exists x b', m b = Ok x b'
                          /\ (reusable_frames_unpinned b -> reusable_frames_unpinned b')) ->
  keeps_pins m.
Proof. intros Hm b Hinv Hb. destruct (Hm b Hinv) as (x & b' & -> & Hkeep). by apply Hkeep. Qed.

Lemma exec_pool_pins (op : pool_op) (b b' : BufferPoolManager) :
  exec_pool op b = Some b' -> pool_invariant b ->
  reusable_frames_unpinned b -> reusable_frames_unpinned b'.
Proof.
  intros Hexec Hinv Hb.
  assert (Hstep : forall A (m : M BufferPoolManager A),
            keeps_pins m -> state_after (m b) = Some b' -> reusable_frames_unpinned b').
  { intros A m Hm Hafter. specialize (Hm b Hinv Hb).
    destruct (m b); simpl in Hafter; inversion Hafter; by subst. }
  destruct op; simpl in Hexec; (eapply Hstep; [|exact Hexec]).
  - apply keeps_pins_NewPage.
  - apply keeps_pins_FetchPage.
  - apply keeps_pins_run. intros b0. apply UnpinPage_run.
  - apply keeps_pins_core, steps_core_FlushPage.
  - apply keeps_pins_core, steps_core_FlushAllPages.
  - apply keeps_pins_run. intros b0. apply DeletePage_run.
  - apply keeps_pins_bind; [apply triple_FetchPage|apply keeps_pins_FetchPage|].
    intros page. apply keeps_pins_ret.
  - apply keeps_pins_bind; [apply triple_FetchPage|apply keeps_pins_FetchPage|].
    intros page. apply keeps_pins_bind; [| |intros ?; apply keeps_pins_ret].
    + apply triple_core_invariant, steps_core_latch_through, RLatch_metadata.
    + apply keeps_pins_core, steps_core_latch_through, RLatch_metadata.
  - apply keeps_pins_bind; [apply triple_FetchPage|apply keeps_pins_FetchPage|].
    intros page. apply keeps_pins_bind; [| |intros ?; apply keeps_pins_ret].
    + apply triple_core_invariant, steps_core_latch_through, WLatch_metadata.
    + apply keeps_pins_core, steps_core_latch_through, WLatch_metadata.
  - apply keeps_pins_bind; [apply triple_NewPage|apply keeps_pins_NewPage|].
    intros created. apply keeps_pins_ret.
Qed.

Lemma run_pool_pins (ops : list pool_op) :
  forall b b', run_pool ops b = Some b' -> pool_invariant b ->
               reusable_frames_unpinned b -> reusable_frames_unpinned b'.
Proof.
  induction ops as [|op ops IH]; intros b b' Hrun Hinv Hb; simpl in Hrun.
  - by inversion Hrun; subst.
  - destruct (exec_pool op b) as [b1|] eqn:Hexec; [|done].
    eapply IH; [exact Hrun|by eapply exec_pool_invariant|by eapply exec_pool_pins].
Qed.

Lemma ctor_body_pins pool_size disk replacer_k log_manager :
  reusable_frames_unpinned (ctor_body pool_size disk replacer_k log_manager).
Proof.
  split.
  - intros f node p Hnode. simpl in Hnode. by rewrite lookup_empty in Hnode.
  - intros f p _ Hp. simpl in Hp. unfold page_lookup in Hp.
    destruct (f <? 0); [done|]. by apply lookup_replicate in Hp as [-> _].
Qed.

Lemma reached_pins (b : BufferPoolManager) : reached b -> reusable_frames_unpinned b.
Proof.
  intros (pool_size & disk & k & lm & ops & Hsize & Hrun).
  eapply run_pool_pins; [exact Hrun|by apply ctor_body_invariant|apply ctor_body_pins].
Qed.

(** X15: a pinned frame is never handed out for reuse.  In a pool that a
    program can be in, no frame that the replacer holds as evictable and no
    frame on the free list has a positive pin count; so the frame that
    [AllocateFrame] returns, and with it the frame that [NewPage] and a missing
    [FetchPage] overwrite, had a pin count of zero. *)
Theorem pinned_frame_never_reused (b : BufferPoolManager) :
  reached b ->
  reusable_frames_unpinned b
  /\ forall f b1,
       AllocateFrame b = Ok f b1 -> f <> INVALID_PAGE_ID ->
       exists p, page_lookup (pages_ b) f = Some p /\ pin_count_ p = 0.
Proof.
  intros Hreached. pose proof (reached_invariant b Hreached) as Hinv.
  pose proof (reached_pins b Hreached) as Hb. split; [exact Hb|].
  intros f b1 Halloc Hne. destruct (free_list_ b) as [|f0 rest] eqn:Hfree.
  - destruct (Evict_outcome (replacer_ b))
      as [[Hevict _]|(fv & n & t & Hf & Hev & _ & Hevict & _)].
    { intros fid node Hfid _.
      apply (map_Forall_lookup_1 _ _ _ _ (proj2 (proj2 (inv_replacer b Hinv))) Hfid). }
    + rewrite (AllocateFrame_none b _ Hfree Hevict) in Halloc. by inversion Halloc.
    + destruct (valid_frame_lookup b fv Hinv (inv_tracked_valid b Hinv fv n Hf)) as [p Hp].
      rewrite (AllocateFrame_victim b fv _ p Hfree Hevict Hp) in Halloc.
      inversion Halloc; subst. exists p. split; [done|]. by eapply (proj1 Hb).
  - rewrite (AllocateFrame_free b f0 rest Hfree) in Halloc. inversion Halloc; subst.
    assert (Hin : f ∈ free_list_ b) by (rewrite Hfree; apply list_elem_of_here).
    destruct (valid_frame_lookup b f Hinv) as [p Hp].
    { by apply (proj1 (Forall_forall _ _) (inv_free_valid b Hinv)). }
    exists p. split; [done|]. by eapply (proj2 Hb).
Qed.

(** X16: unique residency.  In a pool that a program can be in, no two
    resident pages share a frame, a resident page's frame is a frame of the
    array that carries the page's id and is not on the free list, and the free
    list holds distinct frames of the array. *)
Theorem reached_unique_residency (b : BufferPoolManager) :
  reached b ->
  (forall pid1 pid2 f,
      page_table_ b !! pid1 = Some f -> page_table_ b !! pid2 = Some f -> pid1 = pid2)
  /\ (forall pid f,
        page_table_ b !! pid = Some f ->
        0 <= f < Z.of_nat (length (pages_ b))
        /\ (f ∉ free_list_ b)
        /\ exists p, page_lookup (pages_ b) f = Some p
                     /\ page_id_ p = pid /\ 0 <= pin_count_ p)
  /\ NoDup (free_list_ b)
  /\ Forall (fun f => 0 <= f < Z.of_nat (length (pages_ b))) (free_list_ b).
Proof.
  intros Hinv%reached_invariant.
  destruct (inv_pool_size b Hinv) as [Hlen _].
  split; [|split; [|split]].
  - intros pid1 pid2 f H1 H2.
    destruct (inv_resident b Hinv pid1 f H1) as (_ & p1 & _ & Hp1 & Hid1 & _).
    destruct (inv_resident b Hinv pid2 f H2) as (_ & p2 & _ & Hp2 & Hid2 & _).
    congruence.
  - intros pid f Hres.
    destruct (inv_resident b Hinv pid f Hres) as (Hvalid & p & _ & Hp & Hid & Hpin & _).
    unfold valid_frame in Hvalid. rewrite Hlen in Hvalid.
    split; [done|]. split; [by eapply (inv_free_unmapped b Hinv)|]. by exists p.
  - apply (inv_free_nodup b Hinv).
  - eapply Forall_impl; [apply (inv_free_valid b Hinv)|].
    intros f Hvalid. unfold valid_frame in Hvalid. by rewrite Hlen in Hvalid.
Qed.

(** *** [FlushAllPages] *)

Lemma flush_entries_spec (entries : list (Z * Z)) :
  forall b,
    NoDup entries.*1 ->
    (forall pid f, (pid, f) ∈ entries -> is_Some (page_lookup (pages_ b) f)) ->
    exists b',
      flush_entries entries b = Ok tt b'
      /\ same_core b b'
      /\ next_page_id_ b' = next_page_id_ b
      /\ (forall g p, page_lookup (pages_ b) g = Some p ->
                      exists p', page_lookup (pages_ b') g = Some p'
                                 /\ data_ p' = data_ p
                                 /\ (g ∈ entries.*2 -> p' = set_is_dirty false p)
                                 /\ (g ∉ entries.*2 -> p' = p))
      /\ (forall pid f p, (pid, f) ∈ entries -> page_lookup (pages_ b) f = Some p ->
                          stable_storage (disk_scheduler_ b') !! pid = Some (data_ p))
      /\ (forall pid, pid ∉ entries.*1 ->
                      stable_storage (disk_scheduler_ b') !! pid
                      = stable_storage (disk_scheduler_ b) !! pid)
      /\ length (scheduled (disk_scheduler_ b'))
         = (length (scheduled (disk_scheduler_ b)) + length entries)%nat.
Proof.
  induction entries as [|[pid0 f0] rest IH]; intros b Hnodup Hvalid.
  - exists b. split; [done|]. split; [apply same_core_refl|]. split; [done|].
    split; [|split; [|split; [done|simpl; lia]]].
    + intros g p Hp. exists p. split; [done|]. split; [done|]. split; [|done].
      by intros ?%elem_of_nil.
    + by intros pid f p ?%elem_of_nil.
  - apply NoDup_cons in Hnodup as [Hfresh Hnodup]. simpl in Hfresh.
    destruct (Hvalid pid0 f0 ltac:(apply list_elem_of_here)) as [p0 Hp0].
    pose proof (page_lookup_nonneg _ _ _ Hp0) as Hlo.
    set (b1 := set_pages (<[Z.to_nat f0 := set_is_dirty false p0]> (pages_ b))
                 (set_disk_scheduler
                    {| stable_storage := <[pid0 := data_ p0]> (stable_storage (disk_scheduler_ b));
                       scheduled := scheduled (disk_scheduler_ b)
                                    ++ [{| is_write_ := true; request_data_ := data_ p0;
                                           request_page_id_ := pid0 |}] |} b)).
    assert (Hstep : flush_entries ((pid0, f0) :: rest) b = flush_entries rest b1).
    { simpl. unfold bind. rewrite (WriteFrame_ok _ _ _ _ Hp0).
      by erewrite update_page_ok by (simpl; exact Hp0). }
    assert (Hcore1 : same_core b b1).
    { apply (same_core_trans _ (set_disk_scheduler (disk_scheduler_ b1) b)).
      - repeat split; try done. intros g p Hp. by exists p.
      - by apply (same_core_set_pages (set_disk_scheduler (disk_scheduler_ b1) b) f0 p0). }
    assert (Hpages1 : forall g p, page_lookup (pages_ b) g = Some p ->
              page_lookup (pages_ b1) g
              = Some (if decide (g = f0) then set_is_dirty false p0 else p)).
    { intros g p Hp. simpl. destruct (decide (g = f0)) as [->|Hne].
      - by eapply page_lookup_insert.
      - by rewrite page_lookup_insert_ne. }
    destruct (IH b1 Hnodup) as (b' & Hflush & Hcore & Hnext & Hpages & Hwritten & Hkept & Hlen).
    { intros pid f Hin. destruct (Hvalid pid f ltac:(by apply list_elem_of_further)) as [p Hp].
      rewrite (Hpages1 f p Hp). by eexists. }
    exists b'. split; [by rewrite Hstep|]. split; [by eapply same_core_trans|].
    split; [by rewrite Hnext|].
    split; [|split; [|split]].
    + intros g p Hp. destruct (Hpages g _ (Hpages1 g p Hp)) as (p' & Hp' & Hdata & Hin & Hout).
      exists p'. split; [exact Hp'|]. simpl.
      destruct (decide (g = f0)) as [->|Hne].
      * rewrite Hp0 in Hp. inversion Hp; subst p0. split; [by rewrite Hdata|].
        split; [|by intros []; apply list_elem_of_here].
        intros _. destruct (decide (f0 ∈ rest.*2)) as [Hyes|Hno].
        -- by rewrite (Hin Hyes).
        -- by rewrite (Hout Hno).
      * split; [done|]. split.
        -- intros [?|Hyes]%elem_of_cons; [done|]. by apply Hin.
        -- intros Hno. apply Hout. intros Hyes. apply Hno. by apply list_elem_of_further.
    + intros pid f p [Heq|Hin]%elem_of_cons Hp.
      * inversion Heq; subst pid f. rewrite Hp0 in Hp. inversion Hp; subst p0.
        rewrite (Hkept pid0 Hfresh). simpl. apply lookup_insert_eq.
      * rewrite (Hwritten pid f _ Hin (Hpages1 f p Hp)).
        by destruct (decide (f = f0)) as [->|Hne]; [rewrite Hp0 in Hp; inversion Hp|].
    + intros pid Hout. simpl in Hout. apply not_elem_of_cons in Hout as [Hne Hout].
      rewrite (Hkept pid Hout). simpl. by rewrite lookup_insert_ne.
    + rewrite Hlen. simpl. rewrite length_app. simpl. lia.
Qed.

(** X17: [FlushAllPages], in a pool that a program can be in, returns after
    one write per resident page: the disk then holds the bytes of every
    resident page under the page's id and what it held for every other page,
    every resident page is clean, and the buffers, the pin counts, the frames
    that hold no page, the page table, the free list, the replacer and the page
    id counter are as they were. *)
Theorem FlushAllPages_contract (b : BufferPoolManager) :
  reached b ->
  exists b',
    FlushAllPages b = Ok tt b'
    /\ (forall pid f,
          page_table_ b !! pid = Some f ->
          exists p, page_lookup (pages_ b) f = Some p
                    /\ stable_storage (disk_scheduler_ b') !! pid = Some (data_ p)
                    /\ page_lookup (pages_ b') f = Some (set_is_dirty false p))
    /\ (forall pid, page_table_ b !! pid = None ->
                    stable_storage (disk_scheduler_ b') !! pid
                    = stable_storage (disk_scheduler_ b) !! pid)
    /\ (forall g p, page_lookup (pages_ b) g = Some p ->
                    (forall pid, page_table_ b !! pid <> Some g) ->
                    page_lookup (pages_ b') g = Some p)
    /\ length (scheduled (disk_scheduler_ b'))
       = (length (scheduled (disk_scheduler_ b)) + size (page_table_ b))%nat
    /\ page_table_ b' = page_table_ b
    /\ free_list_ b' = free_list_ b
    /\ replacer_ b' = replacer_ b
    /\ next_page_id_ b' = next_page_id_ b.
Proof.
  intros Hinv%reached_invariant.
  destruct (flush_entries_spec (map_to_list (page_table_ b)) b)
    as (b' & Hflush & Hcore & Hnext & Hpages & Hwritten & Hkept & Hlen).
  { apply NoDup_fst_map_to_list. }
  { intros pid f Hin%elem_of_map_to_list.
    destruct (inv_resident b Hinv pid f Hin) as (_ & p & _ & Hp & _). by exists p. }
  exists b'. split; [exact Hflush|].
  destruct Hcore as (_ & Hfree & Htable & Hrep & _).
  split; [|split; [|split; [|split; [|done]]]].
  - intros pid f Hres.
    destruct (inv_resident b Hinv pid f Hres) as (_ & p & _ & Hp & _).
    exists p. split; [exact Hp|]. split.
    + apply (Hwritten pid f p); [by apply elem_of_map_to_list|done].
    + destruct (Hpages f p Hp) as (p' & Hp' & _ & Hin & _). rewrite Hp'. f_equal.
      apply Hin, list_elem_of_fmap. exists (pid, f). split; [done|].
      by apply elem_of_map_to_list.
  - intros pid Hmiss. apply Hkept. intros ((pid' & f) & Heq & Hin)%list_elem_of_fmap.
    simpl in Heq. subst pid'. apply elem_of_map_to_list in Hin. congruence.
  - intros g p Hp Hfree'. destruct (Hpages g p Hp) as (p' & Hp' & _ & _ & Hout).
    rewrite Hp'. f_equal. apply Hout.
    intros ((pid & g') & Heq & Hin)%list_elem_of_fmap. simpl in Heq. subst g'.
    apply elem_of_map_to_list in Hin. by apply (Hfree' pid).
  - by rewrite Hlen, length_map_to_list.
Qed.

(** *** How the operations compose *)

(** X18: a page that is flushed, deleted and fetched again comes back with the
    bytes it had.  In a pool that a program can be in, for a resident page that
    is not pinned, [FlushPage], [DeletePage] and [FetchPage] in a row return
    the frame at the front of the free list (the page's old frame if the list
    was empty), holding the page with the buffer it had before, pinned once and
    clean. *)
Theorem flush_delete_fetch_round_trip (b : BufferPoolManager) page_id access_type f p :
  reached b ->
  page_id <> INVALID_PAGE_ID ->
  page_table_ b !! page_id = Some f ->
  page_lookup (pages_ b) f = Some p ->
  pin_count_ p = 0 ->
  exists f' b' p',
    (FlushPage page_id ;;; DeletePage page_id ;;; FetchPage page_id access_type)%prog b
    = Ok (Some f') b'
    /\ head (free_list_ b ++ [f]) = Some f'
    /\ page_table_ b' !! page_id = Some f'
    /\ page_lookup (pages_ b') f' = Some p'
    /\ data_ p' = data_ p
    /\ page_id_ p' = page_id
    /\ pin_count_ p' = 1
    /\ is_dirty_ p' = false.
Proof.
  intros Hinv%reached_invariant Hvalid Hres Hp Hpin.
  pose proof (steps_core_FlushPage page_id b) as Hcore1.
  rewrite (FlushPage_resident b page_id f p Hvalid Hres Hp) in Hcore1.
  unfold bind at 1. rewrite (FlushPage_resident b page_id f p Hvalid Hres Hp).
  set (b1 := set_pages _ _) in *.
  pose proof (same_core_invariant b b1 Hcore1 Hinv) as Hinv1.
  assert (Hres1 : page_table_ b1 !! page_id = Some f) by done.
  assert (Hp1 : page_lookup (pages_ b1) f = Some (set_is_dirty false p)).
  { simpl. by eapply page_lookup_insert. }
  destruct (inv_resident b1 Hinv1 page_id f Hres1)
    as (Hvalid1 & q & node & Hq & _ & _ & Hnode & Hev).
  rewrite Hp1 in Hq. inversion Hq; subst q. clear Hq.
  destruct (valid_frame_in_range b1 f Hinv1 Hvalid1) as [_ Hrange].
  pose proof (Remove_outcome _ f Hrange) as Hremove.
  rewrite Hnode, (Hev Hpin) in Hremove.
  pose proof (triple_DeletePage page_id b1 Hinv1) as Hinv2.
  assert (Hzero : pin_count_ (set_is_dirty false p) <= 0) by (simpl; lia).
  rewrite (DeletePage_unpinned b1 page_id f _ _ Hres1 Hp1 Hzero Hremove) in Hinv2.
  unfold bind at 1.
  rewrite (DeletePage_unpinned b1 page_id f _ _ Hres1 Hp1 Hzero Hremove).
  set (b2 := set_pages _ (set_replacer _ _)) in *.
  assert (Hmiss : page_table_ b2 !! page_id = None) by (simpl; apply lookup_delete_eq).
  assert (Hfree2 : free_list_ b2 = free_list_ b ++ [f]) by done.
  destruct (free_list_ b ++ [f]) as [|f' rest] eqn:Hfl.
  { by apply app_nil in Hfl as [_ ?]. }
  pose proof (AllocateFrame_free b2 f' rest Hfree2) as Halloc.
  assert (Hne : f' <> INVALID_PAGE_ID).
  { pose proof (inv_free_valid b2 Hinv2) as Hall. rewrite Hfree2 in Hall.
    apply Forall_cons in Hall as [[Hlo _] _]. unfold INVALID_PAGE_ID. lia. }
  destruct (FetchPage_miss_run b2 page_id access_type f' _ Hinv2 Hmiss Halloc Hne)
    as (p1 & Hp1' & Hf & Hfetch).
  destruct (install_contract f' page_id access_type (Some f') _
              (set_data (default (data_ p1)
                           (stable_storage (disk_scheduler_ (set_free_list rest b2))
                              !! page_id)) p1) Hf)
    as (b' & node' & Hinstall & _ & Hpages & Htable & _).
  { simpl. by eapply page_lookup_insert. }
  exists f', b', (installed page_id
                    (set_data (default (data_ p1)
                                 (stable_storage (disk_scheduler_ (set_free_list rest b2))
                                    !! page_id)) p1)).
  split; [by rewrite Hfetch|]. split; [done|].
  split; [rewrite Htable; apply lookup_insert_eq|].
  split.
  { rewrite Hpages. eapply page_lookup_insert. simpl. by eapply page_lookup_insert. }
  split; [|done]. simpl. by rewrite lookup_insert_eq.
Qed.

(** X19: pinning and unpinning cancel.  In a pool that a program can be in, a
    [FetchPage] of a resident page followed by an [UnpinPage] of it that
    reports no change leaves every frame, the page table, the free list, the
    page id counter and the disk as they were; the frame is evictable
    afterwards exactly when its pin count is zero. *)
Theorem fetch_unpin_round_trip (b : BufferPoolManager) page_id access_type access_type' f p :
  reached b ->
  page_table_ b !! page_id = Some f ->
  page_lookup (pages_ b) f = Some p ->
  pin_count_ p <> INT_MAX ->
  exists b' node,
    (FetchPage page_id access_type ;;; UnpinPage page_id false access_type')%prog b
    = Ok true b'
    /\ pages_ b' = pages_ b
    /\ page_table_ b' = page_table_ b
    /\ free_list_ b' = free_list_ b
    /\ next_page_id_ b' = next_page_id_ b
    /\ disk_scheduler_ b' = disk_scheduler_ b
    /\ node_store_ (replacer_ b') !! f = Some node
    /\ (is_evictable_ node = true <-> pin_count_ p = 0).
Proof.
  intros Hinv%reached_invariant Hres Hp Hmax.
  destruct (FetchPage_hit_outcome b page_id access_type f Hinv Hres)
    as (q & Hq & _ & _ & Hok).
  rewrite Hp in Hq. inversion Hq; subst q. clear Hq.
  destruct (Hok Hmax)
    as (b1 & node1 & Hfetch & Hpages & Htable & Hfree & Hnext & Hdisk & Hnode1 & Hev1 & _).
  pose proof (triple_FetchPage page_id access_type b Hinv) as Hinv1. rewrite Hfetch in Hinv1.
  destruct (inv_resident b Hinv page_id f Hres) as (_ & q & _ & Hq & _ & Hpin & _).
  rewrite Hp in Hq. inversion Hq; subst q. clear Hq.
  assert (Hres1 : page_table_ b1 !! page_id = Some f) by (by rewrite Htable).
  assert (Hp1 : page_lookup (pages_ b1) f = Some (set_pin_count (pin_count_ p + 1) p)).
  { rewrite Hpages. by eapply page_lookup_insert. }
  destruct (inv_resident b1 Hinv1 page_id f Hres1) as (Hvalid1 & _).
  destruct (valid_frame_in_range b1 f Hinv1 Hvalid1) as [_ Hrange].
  assert (Hback : <[Z.to_nat f := unpinned false (set_pin_count (pin_count_ p + 1) p)]>
                    (pages_ b1) = pages_ b).
  { rewrite Hpages, list_insert_insert_eq. apply list_insert_id.
    pose proof (page_lookup_nonneg _ _ _ Hp) as Hlo. unfold page_lookup in Hp.
    rewrite (proj2 (Z.ltb_ge _ _) Hlo) in Hp. rewrite Hp. f_equal.
    destruct p as [d i n dirty l]. unfold unpinned. simpl.
    rewrite orb_false_r. unfold set_is_dirty, set_pin_count. simpl. f_equal. lia. }
  unfold bind at 1. rewrite Hfetch.
  rewrite (UnpinPage_resident b1 page_id false access_type' f _ Hres1 Hp1)
    by (simpl; lia).
  rewrite Hback. simpl pin_count_. unfold bind.
  destruct (Z.eqb_spec (pin_count_ p + 1) 1) as [Hone|Hmore].
  - destruct (SetEvictable_tracked (replacer_ b1) f true node1 Hrange Hnode1)
      as (r' & Hset & Hstore & _).
    erewrite replacer_ok by (simpl; exact Hset). simpl.
    eexists _, _. split; [reflexivity|]. simpl.
    split; [done|]. split; [done|]. split; [done|]. split; [done|]. split; [done|].
    split; [rewrite Hstore; apply lookup_insert_eq|]. simpl. split; [lia|done].
  - simpl. eexists _, node1. split; [reflexivity|]. simpl.
    split; [done|]. split; [done|]. split; [done|]. split; [done|]. split; [done|].
    split; [done|]. rewrite Hev1. split; [done|lia].
Qed.

(** X20: with the free list empty and no evictable frame in the replacer,
    [NewPage] and a [FetchPage] of a page that is not resident return [nullptr]
    and leave the pool as it was: no page id is used up and nothing is read
    from or written to the disk. *)
Theorem no_frame_to_reuse (b : BufferPoolManager) :
  free_list_ b = [] ->
  (forall f node, node_store_ (replacer_ b) !! f = Some node ->
                  is_evictable_ node = false) ->
  AllocateFrame b = Ok INVALID_PAGE_ID b
  /\ NewPage b = Ok None b
  /\ forall page_id access_type,
       page_table_ b !! page_id = None ->
       FetchPage page_id access_type b = Ok None b.
Proof.
  intros Hfree Hpinned.
  assert (Halloc : AllocateFrame b = Ok INVALID_PAGE_ID b).
  { destruct (Evict_outcome (replacer_ b))
      as [[Hevict _]|(fv & n & t & Hf & Hev & _)].
    - intros f node Hnode Hev. rewrite (Hpinned f node Hnode) in Hev. done.
    - rewrite (AllocateFrame_none b _ Hfree Hevict). f_equal. by destruct b.
    - rewrite (Hpinned fv n Hf) in Hev. done. }
  split; [exact Halloc|]. split.
  - rewrite NewPage_eq. unfold bind. by rewrite Halloc.
  - intros page_id access_type Hmiss. rewrite (FetchPage_miss_eq _ _ _ Hmiss).
    unfold bind. by rewrite Halloc.
Qed.

(** *** The operations return *)

Lemma FlushAllPages_returns (b : BufferPoolManager) :
  pool_invariant b -> exists b', FlushAllPages b = Ok tt b'.
Proof.
  intros Hinv.
  destruct (flush_entries_spec (map_to_list (page_table_ b)) b) as (b' & Hflush & _).
  { apply NoDup_fst_map_to_list. }
  { intros pid f Hin%elem_of_map_to_list.
    destruct (inv_resident b Hinv pid f Hin) as (_ & p & _ & Hp & _). by exists p. }
  by exists b'.
Qed.

(** X21: in a pool that a program can be in, the operations come back with a
    result: [NewPage], [UnpinPage], [DeletePage], [FlushAllPages] always,
    [FlushPage] for every page id but the invalid one, and [FetchPage] unless
    the page is resident with a pin count of [INT_MAX].  None of them indexes
    the frame array out of bounds, and no call into the replacer throws. *)
Theorem operations_return (b : BufferPoolManager) :
  reached b ->
  (exists x b', NewPage b = Ok x b')
  /\ (forall page_id is_dirty access_type,
        exists x b', UnpinPage page_id is_dirty access_type b = Ok x b')
  /\ (forall page_id, exists x b', DeletePage page_id b = Ok x b')
  /\ (exists b', FlushAllPages b = Ok tt b')
  /\ (forall page_id, page_id <> INVALID_PAGE_ID ->
                      exists x b', FlushPage page_id b = Ok x b')
  /\ (forall page_id access_type,
        (forall f p, page_table_ b !! page_id = Some f ->
                     page_lookup (pages_ b) f = Some p -> pin_count_ p <> INT_MAX) ->
        exists x b', FetchPage page_id access_type b = Ok x b').
Proof.
  intros Hinv%reached_invariant.
  split; [by apply NewPage_returns|].
  split.
  { intros page_id is_dirty access_type.
    destruct (UnpinPage_run b page_id is_dirty access_type Hinv) as (x & b' & Hrun & _).
    by exists x, b'. }
  split.
  { intros page_id. destruct (DeletePage_run b page_id Hinv) as (x & b' & Hrun & _).
    by exists x, b'. }
  split; [by apply FlushAllPages_returns|].
  split.
  - intros page_id Hvalid. destruct (page_table_ b !! page_id) as [f|] eqn:Hres.
    + destruct (inv_resident b Hinv page_id f Hres) as (_ & p & _ & Hp & _).
      eexists _, _. by apply FlushPage_resident.
    + exists false, b. unfold FlushPage, BUSTUB_ENSURE.
      rewrite (proj2 (Z.eqb_neq _ _) Hvalid). simpl. unfold bind, ret, get. by rewrite Hres.
  - intros page_id access_type Hmax. destruct (page_table_ b !! page_id) as [f|] eqn:Hres.
    + destruct (FetchPage_hit_outcome b page_id access_type f Hinv Hres)
        as (p & Hp & _ & _ & Hok).
      destruct (Hok (Hmax f p eq_refl Hp)) as (b' & node & Hfetch & _). by eexists _, _.
    + by apply FetchPage_miss_returns.
Qed.

End pool_extras.

(** ** The properties at concrete states *)

Section instances.
Import lru_k_replacer buffer_pool_manager replacer_spec pool_spec.

Lemma SetEvictable_same_flag_noop_witness :
  to_size_t 1 < replacer_size_ warmup_replacer
  /\ node_store_ warmup_replacer !! 1 = Some {| history_ := [1; 2]; is_evictable_ := true |}
  /\ SetEvictable 1 true warmup_replacer = Ok tt warmup_replacer.
Proof.
  assert (Hrange : to_size_t 1 < replacer_size_ warmup_replacer) by (vm_compute; reflexivity).
  assert (Hnode : node_store_ warmup_replacer !! 1
                  = Some {| history_ := [1; 2]; is_evictable_ := true |})
    by (vm_compute; reflexivity).
  split; [exact Hrange|]. split; [exact Hnode|].
  exact (proj1 (SetEvictable_same_flag_noop warmup_replacer 1 _ Hrange Hnode)).
Defined.

Lemma Remove_cases_witness :
  to_size_t 0 < replacer_size_ warmup_replacer
  /\ size_accounted warmup_replacer
  /\ Remove 0 warmup_replacer
     = Ok tt (set_curr_size (curr_size_ warmup_replacer - 1)
                (set_node_store (delete 0 (node_store_ warmup_replacer)) warmup_replacer)).
Proof.
  assert (Hrange : to_size_t 0 < replacer_size_ warmup_replacer) by (vm_compute; reflexivity).
  assert (Hacc : size_accounted warmup_replacer)
    by (apply (bool_decide_unpack _); vm_compute; exact I).
  split; [exact Hrange|]. split; [exact Hacc|].
  pose proof (Remove_cases warmup_replacer 0 Hrange Hacc) as Hcases.
  assert (Hnode : node_store_ warmup_replacer !! 0
                  = Some {| history_ := [0]; is_evictable_ := true |})
    by (vm_compute; reflexivity).
  rewrite Hnode in Hcases. exact Hcases.
Defined.

Lemma RecordAccess_refines_spec_witness :
  1 <= k_ warmup_replacer
  /\ to_size_t 1 < replacer_size_ warmup_replacer
  /\ RecordAccess 1 Unknown warmup_replacer = record_access_spec 1 Unknown warmup_replacer
  /\ RecordAccess 1 Unknown warmup_replacer = record_access_trim 1 Unknown warmup_replacer.
Proof.
  assert (Hk : 1 <= k_ warmup_replacer) by (vm_compute; discriminate).
  assert (Hrange : to_size_t 1 < replacer_size_ warmup_replacer) by (vm_compute; reflexivity).
  assert (Hwithin : history_within_k 1 warmup_replacer)
    by (apply (bool_decide_unpack _); vm_compute; exact I).
  destruct (RecordAccess_refines_spec warmup_replacer 1 Unknown Hk Hrange) as [Hspec Htrim].
  split; [exact Hk|]. split; [exact Hrange|]. split; [exact Hspec|exact (Htrim Hwithin)].
Defined.

Lemma Evict_selects_largest_k_distance_witness :
  evict_ready warmup_replacer
  /\ size_accounted warmup_replacer
  /\ exists f n t,
       node_store_ warmup_replacer !! f = Some n
       /\ k_distance_of warmup_replacer n t = Infinite
       /\ Evict warmup_replacer
          = Ok (Some f) (set_curr_size (curr_size_ warmup_replacer - 1)
                           (set_node_store (delete f (node_store_ warmup_replacer))
                              warmup_replacer)).
Proof.
  assert (Hready : evict_ready warmup_replacer)
    by (apply (bool_decide_unpack _); vm_compute; exact I).
  assert (Hacc : size_accounted warmup_replacer)
    by (apply (bool_decide_unpack _); vm_compute; exact I).
  split; [exact Hready|]. split; [exact Hacc|].
  destruct (Evict_selects_largest_k_distance warmup_replacer Hready Hacc) as [_ Hsome].
  assert (Hzero : node_store_ warmup_replacer !! 0
                  = Some {| history_ := [0]; is_evictable_ := true |})
    by (vm_compute; reflexivity).
  destruct Hsome as (f & n & t & Hf & Hev & Hhd & Hevict & Hbest).
  { eexists 0, _. split; [exact Hzero|reflexivity]. }
  exists f, n, t. split; [exact Hf|]. split; [|exact Hevict].
  destruct (Hbest 0 _ 0 Hzero eq_refl eq_refl) as [Hnear|[Heq _]].
  - destruct (k_distance_of warmup_replacer n t); [|reflexivity].
    vm_compute in Hnear. destruct Hnear.
  - rewrite <- Heq. vm_compute. reflexivity.
Defined.

Lemma Size_counts_evictable_nodes_witness :
  Forall op_typed (warmup_ops ++ [op_evict; op_remove 1; op_remove 5])
  /\ exists r, run (warmup_ops ++ [op_evict; op_remove 1; op_remove 5])
                 (LRUKReplacer_ctor 7 2) = Some r
               /\ Size r = Z.of_nat (evictable_count r).
Proof.
  assert (Htyped : Forall op_typed (warmup_ops ++ [op_evict; op_remove 1; op_remove 5]))
    by (apply (bool_decide_unpack _); vm_compute; exact I).
  split; [exact Htyped|].
  exact (Size_counts_evictable_nodes 7 2 _ Htyped).
Defined.

Lemma UnpinPage_cases_witness :
  resident_frames_tracked pinned_pool
  /\ exists r' b',
       SetEvictable 0 true (replacer_ pinned_pool) = Ok tt r'
       /\ replacer_ b' = r'
       /\ UnpinPage 0 true Unknown pinned_pool = Ok true b'.
Proof.
  assert (Htracked : resident_frames_tracked pinned_pool)
    by (apply (bool_decide_unpack _); vm_compute; exact I).
  split; [exact Htracked|].
  pose proof (UnpinPage_cases pinned_pool 0 true Unknown Htracked) as Hcases.
  assert (Hres : page_table_ pinned_pool !! 0 = Some 0) by (vm_compute; reflexivity).
  rewrite Hres in Hcases. destruct Hcases as (p & Hp & _ & _ & Hone).
  assert (Hpin : pin_count_ <$> page_lookup (pages_ pinned_pool) 0 = Some 1)
    by (vm_compute; reflexivity).
  rewrite Hp in Hpin. simpl in Hpin.
  destruct (Hone ltac:(congruence)) as (r' & node & Hset & _ & _ & Hunpin).
  exists r'. eexists. split; [exact Hset|]. split; [|exact Hunpin]. reflexivity.
Defined.

Lemma DeletePage_cases_witness :
  resident_frames_tracked dirty_pool
  /\ unpinned_frames_evictable dirty_pool
  /\ exists b', DeletePage 0 dirty_pool = Ok true b'
                /\ page_table_ b' = delete 0 (page_table_ dirty_pool)
                /\ free_list_ b' = free_list_ dirty_pool ++ [0]
                /\ node_store_ (replacer_ b') = delete 0 (node_store_ (replacer_ dirty_pool)).
Proof.
  assert (Htracked : resident_frames_tracked dirty_pool)
    by (apply (bool_decide_unpack _); vm_compute; exact I).
  assert (Hevictable : unpinned_frames_evictable dirty_pool)
    by (apply (bool_decide_unpack _); vm_compute; exact I).
  split; [exact Htracked|]. split; [exact Hevictable|].
  pose proof (DeletePage_cases dirty_pool 0 Htracked Hevictable) as Hcases.
  assert (Hres : page_table_ dirty_pool !! 0 = Some 0) by (vm_compute; reflexivity).
  rewrite Hres in Hcases. destruct Hcases as (p & Hp & _ & Hzero).
  assert (Hpin : pin_count_ <$> page_lookup (pages_ dirty_pool) 0 = Some 0)
    by (vm_compute; reflexivity).
  rewrite Hp in Hpin. simpl in Hpin.
  destruct (Hzero ltac:(injection Hpin; lia)) as (r' & _ & Hstore & Hdelete).
  eexists. split; [exact Hdelete|]. split; [reflexivity|]. split; [reflexivity|].
  exact Hstore.
Defined.

Lemma AllocateFrame_cases_witness :
  free_list_ dirty_pool = []
  /\ exists p b',
       page_lookup (pages_ dirty_pool) 0 = Some p
       /\ is_dirty_ p = true
       /\ AllocateFrame dirty_pool = Ok 0 b'
       /\ stable_storage (disk_scheduler_ b') !! page_id_ p = Some (data_ p)
       /\ page_table_ b' = delete (page_id_ p) (page_table_ dirty_pool)
       /\ exists x b'', NewPage dirty_pool = Ok x b''
                        /\ stable_storage (disk_scheduler_ b'') !! page_id_ p
                           = Some (data_ p).
Proof.
  assert (Hfree : free_list_ dirty_pool = []) by (vm_compute; reflexivity).
  split; [exact Hfree|].
  destruct (page_lookup (pages_ dirty_pool) 0) as [p|] eqn:Hp;
    [|vm_compute in Hp; discriminate Hp].
  assert (Hdirty : is_dirty_ <$> page_lookup (pages_ dirty_pool) 0 = Some true)
    by (vm_compute; reflexivity).
  rewrite Hp in Hdirty. simpl in Hdirty. injection Hdirty as Hdirty.
  destruct (Evict (replacer_ dirty_pool)) as [victim r'| |] eqn:Hevict;
    [|vm_compute in Hevict; discriminate Hevict..].
  assert (Hvictim : fst <$> state_after_result (Evict (replacer_ dirty_pool)) = Some (Some 0))
    by (vm_compute; reflexivity).
  rewrite Hevict in Hvictim. simpl in Hvictim. injection Hvictim as ->.
  assert (Hinv : pool_invariant dirty_pool).
  { apply (run_pool_invariant [op_new_page; op_unpin_page 0 true Unknown] (fresh_pool 1)).
    - vm_compute. reflexivity.
    - apply ctor_body_invariant. lia. }
  destruct (proj2 (AllocateFrame_cases dirty_pool) 0 r' p Hfree Hevict Hp)
    as [Halloc Hreuse].
  destruct (Hreuse Hdirty) as (Hnew & _ & Hreturns).
  destruct (proj1 (Hreturns Hinv)) as (x & b'' & Hnewpage).
  rewrite Hdirty in Halloc.
  exists p. eexists. split; [reflexivity|]. split; [exact Hdirty|].
  split; [exact Halloc|].
  split; [apply lookup_insert_eq|]. split; [reflexivity|].
  exists x, b''. split; [exact Hnewpage|]. exact (Hnew x b'' Hnewpage).
Defined.

End instances.

(** ** The further properties at concrete states *)

Section further_instances.
Import lru_k_replacer buffer_pool_manager replacer_spec pool_spec.

Lemma frame_id_range_check_witness :
  is_int 7
  /\ 0 <= replacer_size_ warmup_replacer <= 2 ^ 63
  /\ replacer_size_ warmup_replacer <= 7
  /\ RecordAccess 7 Unknown warmup_replacer = Throw std_out_of_range warmup_replacer
  /\ SetEvictable 7 true warmup_replacer = Throw std_out_of_range warmup_replacer
  /\ Remove 7 warmup_replacer = Throw std_out_of_range warmup_replacer.
Proof.
  assert (Hint : is_int 7) by (vm_compute; split; discriminate).
  assert (Hsize : 0 <= replacer_size_ warmup_replacer <= 2 ^ 63)
    by (vm_compute; split; discriminate).
  assert (Hout : replacer_size_ warmup_replacer <= 7) by (vm_compute; discriminate).
  split; [exact Hint|]. split; [exact Hsize|]. split; [exact Hout|].
  exact (frame_id_range_check warmup_replacer 7 Unknown true Hint Hsize (or_intror Hout)).
Defined.

Lemma SetEvictable_flips_witness :
  size_invariant warmup_replacer
  /\ to_size_t 1 < replacer_size_ warmup_replacer
  /\ node_store_ warmup_replacer !! 1 = Some {| history_ := [1; 2]; is_evictable_ := true |}
  /\ exists r', SetEvictable 1 false warmup_replacer = Ok tt r'
                /\ Size r' = Size warmup_replacer - 1.
Proof.
  assert (Hinv : size_invariant warmup_replacer).
  { split; [apply (bool_decide_unpack _); vm_compute; exact I|].
    split; apply map_Forall_to_list, (bool_decide_unpack _); vm_compute; exact I. }
  assert (Hrange : to_size_t 1 < replacer_size_ warmup_replacer) by (vm_compute; reflexivity).
  assert (Hnode : node_store_ warmup_replacer !! 1
                  = Some {| history_ := [1; 2]; is_evictable_ := true |})
    by (vm_compute; reflexivity).
  split; [exact Hinv|]. split; [exact Hrange|]. split; [exact Hnode|].
  destruct (SetEvictable_flips warmup_replacer 1 _ Hinv Hrange Hnode)
    as (r' & Hset & _ & Hsize & _).
  exists r'. split; [exact Hset|exact Hsize].
Defined.


Lemma SetEvictable_round_trip_witness :
  is_size_t (curr_size_ warmup_replacer)
  /\ to_size_t 1 < replacer_size_ warmup_replacer
  /\ node_store_ warmup_replacer !! 1 = Some {| history_ := [1; 2]; is_evictable_ := true |}
  /\ bind (SetEvictable 1 false) (fun _ => SetEvictable 1 true) warmup_replacer
     = Ok tt warmup_replacer.
Proof.
  assert (Hsize : is_size_t (curr_size_ warmup_replacer))
    by (vm_compute; split; discriminate).
  assert (Hrange : to_size_t 1 < replacer_size_ warmup_replacer) by (vm_compute; reflexivity).
  assert (Hnode : node_store_ warmup_replacer !! 1
                  = Some {| history_ := [1; 2]; is_evictable_ := true |})
    by (vm_compute; reflexivity).
  split; [exact Hsize|]. split; [exact Hrange|]. split; [exact Hnode|].
  exact (SetEvictable_round_trip warmup_replacer 1 _ Hsize Hrange Hnode).
Defined.

Lemma reachable_histories_witness :
  Forall op_typed warmup_ops
  /\ Z.of_nat (length warmup_ops) < SIZE_MAX
  /\ exists r,
       run warmup_ops (LRUKReplacer_ctor 7 2) = Some r
       /\ forall fid node,
            node_store_ r !! fid = Some node ->
            history_ node <> [] /\ size_ (history_ node) <= 2
            /\ StronglySorted Z.lt (history_ node).
Proof.
  assert (Htyped : Forall op_typed warmup_ops)
    by (apply (bool_decide_unpack _); vm_compute; exact I).
  assert (Hlen : Z.of_nat (length warmup_ops) < SIZE_MAX) by (vm_compute; reflexivity).
  split; [exact Htyped|]. split; [exact Hlen|].
  destruct (reachable_histories 7 2 warmup_ops Htyped Hlen) as (r & Hrun & _ & _ & Hall).
  exists r. split; [exact Hrun|]. intros fid node Hnode.
  destruct (Hall fid node Hnode) as (Hne & Hsize & Hsorted & _).
  split; [exact Hne|]. split; [exact Hsize|exact Hsorted].
Defined.

Lemma reachable_tracked_in_range_witness :
  Forall op_typed (warmup_ops ++ [op_record_access 9 Unknown])
  /\ 0 <= 7 <= 2 ^ 63
  /\ exists r,
       run (warmup_ops ++ [op_record_access 9 Unknown]) (LRUKReplacer_ctor 7 2) = Some r
       /\ (forall fid node, node_store_ r !! fid = Some node -> 0 <= fid < 7)
       /\ 0 <= Size r <= 7.
Proof.
  assert (Htyped : Forall op_typed (warmup_ops ++ [op_record_access 9 Unknown]))
    by (apply (bool_decide_unpack _); vm_compute; exact I).
  assert (Hsize : 0 <= 7 <= 2 ^ 63) by lia.
  split; [exact Htyped|]. split; [exact Hsize|].
  destruct (reachable_tracked_in_range 7 2 _ Htyped Hsize) as (r & Hrun & Hin & _ & Hmax).
  exists r. split; [exact Hrun|]. split; [exact Hin|exact Hmax].
Defined.

Lemma reachable_victim_preferred_witness :
  Forall op_typed warmup_ops
  /\ Z.of_nat (length warmup_ops) < SIZE_MAX
  /\ run warmup_ops (LRUKReplacer_ctor 7 2) = Some warmup_replacer
  /\ Evict warmup_replacer
     = Ok (Some 0) (set_curr_size 1
                      (set_node_store (delete 0 (node_store_ warmup_replacer))
                         warmup_replacer))
  /\ exists n t,
       node_store_ warmup_replacer !! 0 = Some n
       /\ head (history_ n) = Some t
       /\ forall ng tg,
            node_store_ warmup_replacer !! 1 = Some ng -> is_evictable_ ng = true ->
            head (history_ ng) = Some tg ->
            nearer (k_distance_of warmup_replacer ng tg) (k_distance_of warmup_replacer n t)
            \/ (k_distance_of warmup_replacer ng tg = k_distance_of warmup_replacer n t
                /\ t < tg).
Proof.
  assert (Htyped : Forall op_typed warmup_ops)
    by (apply (bool_decide_unpack _); vm_compute; exact I).
  assert (Hlen : Z.of_nat (length warmup_ops) < SIZE_MAX) by (vm_compute; reflexivity).
  assert (Hrun : run warmup_ops (LRUKReplacer_ctor 7 2) = Some warmup_replacer)
    by (vm_compute; reflexivity).
  assert (Hevict : Evict warmup_replacer
                   = Ok (Some 0) (set_curr_size 1
                                    (set_node_store (delete 0 (node_store_ warmup_replacer))
                                       warmup_replacer)))
    by (vm_compute; reflexivity).
  split; [exact Htyped|]. split; [exact Hlen|]. split; [exact Hrun|]. split; [exact Hevict|].
  destruct (reachable_victim_preferred 7 2 warmup_ops _ _ 0 Htyped Hlen Hrun Hevict)
    as (n & t & Hn & _ & Hhd & Hbest).
  exists n, t. split; [exact Hn|]. split; [exact Hhd|].
  intros ng tg. apply (Hbest 1). discriminate.
Defined.


Lemma eviction_forgets_history_witness :
  map_Forall (fun _ node => history_ node <> []) (node_store_ warmup_replacer)
  /\ to_size_t 0 < replacer_size_ warmup_replacer
  /\ Evict warmup_replacer
     = Ok (Some 0) (set_curr_size 1
                      (set_node_store (delete 0 (node_store_ warmup_replacer))
                         warmup_replacer))
  /\ exists r'',
       RecordAccess 0 Unknown
         (set_curr_size 1
            (set_node_store (delete 0 (node_store_ warmup_replacer)) warmup_replacer))
       = Ok tt r''
       /\ node_store_ r'' !! 0
          = Some {| history_ := [current_timestamp_ warmup_replacer];
                    is_evictable_ := false |}.
Proof.
  assert (Hne : map_Forall (fun _ node => history_ node <> [])
                  (node_store_ warmup_replacer))
    by (apply map_Forall_to_list, (bool_decide_unpack _); vm_compute; exact I).
  assert (Hrange : to_size_t 0 < replacer_size_ warmup_replacer) by (vm_compute; reflexivity).
  assert (Hevict : Evict warmup_replacer
                   = Ok (Some 0) (set_curr_size 1
                                    (set_node_store (delete 0 (node_store_ warmup_replacer))
                                       warmup_replacer)))
    by (vm_compute; reflexivity).
  split; [exact Hne|]. split; [exact Hrange|]. split; [exact Hevict|].
  destruct (eviction_forgets_history warmup_replacer _ 0 Unknown Hne Hrange Hevict)
    as (r'' & Hrec & Hnode & _).
  exists r''. split; [exact Hrec|exact Hnode].
Defined.

Lemma Evict_is_Remove_of_victim_witness :
  map_Forall (fun _ node => history_ node <> []) (node_store_ warmup_replacer)
  /\ to_size_t 0 < replacer_size_ warmup_replacer
  /\ Evict warmup_replacer
     = Ok (Some 0) (set_curr_size 1
                      (set_node_store (delete 0 (node_store_ warmup_replacer))
                         warmup_replacer))
  /\ Remove 0 warmup_replacer
     = Ok tt (set_curr_size 1
                (set_node_store (delete 0 (node_store_ warmup_replacer)) warmup_replacer)).
Proof.
  assert (Hne : map_Forall (fun _ node => history_ node <> [])
                  (node_store_ warmup_replacer))
    by (apply map_Forall_to_list, (bool_decide_unpack _); vm_compute; exact I).
  assert (Hrange : to_size_t 0 < replacer_size_ warmup_replacer) by (vm_compute; reflexivity).
  assert (Hevict : Evict warmup_replacer
                   = Ok (Some 0) (set_curr_size 1
                                    (set_node_store (delete 0 (node_store_ warmup_replacer))
                                       warmup_replacer)))
    by (vm_compute; reflexivity).
  split; [exact Hne|]. split; [exact Hrange|]. split; [exact Hevict|].
  exact (proj1 (Evict_is_Remove_of_victim warmup_replacer _ 0 Hne Hrange Hevict)).
Defined.

Lemma FlushPage_cases_witness :
  page_table_ dirty_pool !! 0 = Some 0
  /\ exists p b',
       page_lookup (pages_ dirty_pool) 0 = Some p
       /\ FlushPage 0 dirty_pool = Ok true b'
       /\ stable_storage (disk_scheduler_ b') !! 0 = Some (data_ p)
       /\ page_lookup (pages_ b') 0 = Some (set_is_dirty false p).
Proof.
  assert (Hres : page_table_ dirty_pool !! 0 = Some 0) by (vm_compute; reflexivity).
  split; [exact Hres|].
  destruct (page_lookup (pages_ dirty_pool) 0) as [p|] eqn:Hp;
    [|vm_compute in Hp; discriminate Hp].
  destruct (proj2 (proj2 (FlushPage_cases dirty_pool 0)) 0 p ltac:(discriminate) Hres Hp)
    as (b' & Hflush & Hdisk & _ & Hpage & _).
  exists p, b'. split; [reflexivity|]. split; [exact Hflush|]. split; [exact Hdisk|exact Hpage].
Defined.

Lemma UnpinPage_DeletePage_keep_disk_witness :
  exists b',
    DeletePage 0 dirty_pool = Ok true b'
    /\ disk_scheduler_ b' = disk_scheduler_ dirty_pool.
Proof.
  pose proof (proj2 (UnpinPage_DeletePage_keep_disk 0 false Unknown) dirty_pool) as Hkeep.
  destruct (DeletePage 0 dirty_pool) as [x b'| |] eqn:Hdelete;
    [|vm_compute in Hdelete; discriminate Hdelete..].
  assert (Hx : fst <$> state_after_result (DeletePage 0 dirty_pool) = Some true)
    by (vm_compute; reflexivity).
  rewrite Hdelete in Hx. injection Hx as ->.
  exists b'. split; [reflexivity|exact Hkeep].
Defined.

Lemma NewPage_contract_witness :
  reached (fresh_pool 1)
  /\ AllocateFrame (fresh_pool 1) = Ok 0 (set_free_list [] (fresh_pool 1))
  /\ exists b' p,
       NewPage (fresh_pool 1) = Ok (Some (0, 0)) b'
       /\ page_lookup (pages_ b') 0 = Some p
       /\ pin_count_ p = 1
       /\ page_table_ b' !! 0 = Some 0
       /\ next_page_id_ b' = 1.
Proof.
  assert (Hreached : reached (fresh_pool 1)).
  { exists 1, empty_disk, 2, None, []. split; [lia|reflexivity]. }
  assert (Halloc : AllocateFrame (fresh_pool 1) = Ok 0 (set_free_list [] (fresh_pool 1)))
    by (vm_compute; reflexivity).
  split; [exact Hreached|]. split; [exact Halloc|].
  destruct (proj2 (NewPage_contract (fresh_pool 1) 0 _ Hreached Halloc) ltac:(discriminate))
    as (b' & p1 & node & _ & Hnew & Hpage & _ & Htable & _ & Hnext & _).
  exists b'. eexists. split; [exact Hnew|]. split; [exact Hpage|]. split; [reflexivity|].
  split; [rewrite Htable; apply lookup_insert_eq|exact Hnext].
Defined.


Lemma FetchPage_hit_contract_witness :
  reached pinned_pool
  /\ page_table_ pinned_pool !! 0 = Some 0
  /\ exists p b',
       page_lookup (pages_ pinned_pool) 0 = Some p
       /\ FetchPage 0 Unknown pinned_pool = Ok (Some 0) b'
       /\ page_lookup (pages_ b') 0 = Some (set_pin_count 2 p).
Proof.
  assert (Hreached : reached pinned_pool).
  { exists 1, empty_disk, 2, None, [op_new_page]. split; [lia|vm_compute; reflexivity]. }
  assert (Hres : page_table_ pinned_pool !! 0 = Some 0) by (vm_compute; reflexivity).
  split; [exact Hreached|]. split; [exact Hres|].
  destruct (FetchPage_hit_contract pinned_pool 0 Unknown 0 Hreached Hres)
    as (p & Hp & _ & _ & Hok).
  assert (Hpin : pin_count_ <$> page_lookup (pages_ pinned_pool) 0 = Some 1)
    by (vm_compute; reflexivity).
  rewrite Hp in Hpin. injection Hpin as Hpin.
  destruct Hok as (b' & node & Hfetch & Hpages & _).
  { rewrite Hpin. discriminate. }
  exists p, b'. split; [exact Hp|]. split; [exact Hfetch|].
  rewrite Hpages, Hpin. by eapply page_lookup_insert.
Defined.

Lemma pinned_frame_never_reused_witness :
  reached dirty_pool
  /\ exists b1 p,
       AllocateFrame dirty_pool = Ok 0 b1
       /\ page_lookup (pages_ dirty_pool) 0 = Some p
       /\ pin_count_ p = 0.
Proof.
  assert (Hreached : reached dirty_pool).
  { exists 1, empty_disk, 2, None, [op_new_page; op_unpin_page 0 true Unknown].
    split; [lia|vm_compute; reflexivity]. }
  split; [exact Hreached|].
  destruct (AllocateFrame dirty_pool) as [f b1| |] eqn:Halloc;
    [|vm_compute in Halloc; discriminate Halloc..].
  assert (Hf : fst <$> state_after_result (AllocateFrame dirty_pool) = Some 0)
    by (vm_compute; reflexivity).
  rewrite Halloc in Hf. injection Hf as ->.
  destruct (proj2 (pinned_frame_never_reused dirty_pool Hreached) 0 b1 Halloc
              ltac:(discriminate))
    as (p & Hp & Hpin).
  exists b1, p. split; [reflexivity|]. split; [exact Hp|exact Hpin].
Defined.

Lemma reached_unique_residency_witness :
  reached pinned_pool
  /\ page_table_ pinned_pool !! 0 = Some 0
  /\ (0 ∉ free_list_ pinned_pool)
  /\ NoDup (free_list_ pinned_pool).
Proof.
  assert (Hreached : reached pinned_pool).
  { exists 1, empty_disk, 2, None, [op_new_page]. split; [lia|vm_compute; reflexivity]. }
  assert (Hres : page_table_ pinned_pool !! 0 = Some 0) by (vm_compute; reflexivity).
  split; [exact Hreached|]. split; [exact Hres|].
  destruct (reached_unique_residency pinned_pool Hreached) as (_ & Hresident & Hnodup & _).
  split; [exact (proj1 (proj2 (Hresident 0 0 Hres)))|exact Hnodup].
Defined.

Lemma FlushAllPages_contract_witness :
  reached dirty_pool
  /\ page_table_ dirty_pool !! 0 = Some 0
  /\ exists b' p,
       FlushAllPages dirty_pool = Ok tt b'
       /\ page_lookup (pages_ dirty_pool) 0 = Some p
       /\ stable_storage (disk_scheduler_ b') !! 0 = Some (data_ p)
       /\ page_lookup (pages_ b') 0 = Some (set_is_dirty false p).
Proof.
  assert (Hreached : reached dirty_pool).
  { exists 1, empty_disk, 2, None, [op_new_page; op_unpin_page 0 true Unknown].
    split; [lia|vm_compute; reflexivity]. }
  assert (Hres : page_table_ dirty_pool !! 0 = Some 0) by (vm_compute; reflexivity).
  split; [exact Hreached|]. split; [exact Hres|].
  destruct (FlushAllPages_contract dirty_pool Hreached) as (b' & Hflush & Hresident & _).
  destruct (Hresident 0 0 Hres) as (p & Hp & Hdisk & Hpage).
  exists b', p. split; [exact Hflush|]. split; [exact Hp|]. split; [exact Hdisk|exact Hpage].
Defined.

Lemma flush_delete_fetch_round_trip_witness :
  reached dirty_pool
  /\ page_table_ dirty_pool !! 0 = Some 0
  /\ exists p f' b' p',
       page_lookup (pages_ dirty_pool) 0 = Some p
       /\ is_dirty_ p = true
       /\ pin_count_ p = 0
       /\ (FlushPage 0 ;;; DeletePage 0 ;;; FetchPage 0 Unknown)%prog dirty_pool
          = Ok (Some f') b'
       /\ page_lookup (pages_ b') f' = Some p'
       /\ data_ p' = data_ p.
Proof.
  assert (Hreached : reached dirty_pool).
  { exists 1, empty_disk, 2, None, [op_new_page; op_unpin_page 0 true Unknown].
    split; [lia|vm_compute; reflexivity]. }
  assert (Hres : page_table_ dirty_pool !! 0 = Some 0) by (vm_compute; reflexivity).
  split; [exact Hreached|]. split; [exact Hres|].
  destruct (page_lookup (pages_ dirty_pool) 0) as [p|] eqn:Hp;
    [|vm_compute in Hp; discriminate Hp].
  assert (Hdirty : is_dirty_ <$> page_lookup (pages_ dirty_pool) 0 = Some true)
    by (vm_compute; reflexivity).
  rewrite Hp in Hdirty. injection Hdirty as Hdirty.
  assert (Hpin : pin_count_ <$> page_lookup (pages_ dirty_pool) 0 = Some 0)
    by (vm_compute; reflexivity).
  rewrite Hp in Hpin. injection Hpin as Hpin.
  destruct (flush_delete_fetch_round_trip dirty_pool 0 Unknown 0 p Hreached
              ltac:(discriminate) Hres Hp Hpin)
    as (f' & b' & p' & Hrun & _ & _ & Hp' & Hdata & _).
  exists p, f', b', p'. split; [reflexivity|]. split; [exact Hdirty|]. split; [exact Hpin|].
  split; [exact Hrun|]. split; [exact Hp'|exact Hdata].
Defined.

Lemma fetch_unpin_round_trip_witness :
  reached pinned_pool
  /\ page_table_ pinned_pool !! 0 = Some 0
  /\ exists b',
       (FetchPage 0 Unknown ;;; UnpinPage 0 false Unknown)%prog pinned_pool = Ok true b'
       /\ pages_ b' = pages_ pinned_pool
       /\ page_table_ b' = page_table_ pinned_pool.
Proof.
  assert (Hreached : reached pinned_pool).
  { exists 1, empty_disk, 2, None, [op_new_page]. split; [lia|vm_compute; reflexivity]. }
  assert (Hres : page_table_ pinned_pool !! 0 = Some 0) by (vm_compute; reflexivity).
  split; [exact Hreached|]. split; [exact Hres|].
  destruct (page_lookup (pages_ pinned_pool) 0) as [p|] eqn:Hp;
    [|vm_compute in Hp; discriminate Hp].
  assert (Hpin : pin_count_ <$> page_lookup (pages_ pinned_pool) 0 = Some 1)
    by (vm_compute; reflexivity).
  rewrite Hp in Hpin. injection Hpin as Hpin.
  destruct (fetch_unpin_round_trip pinned_pool 0 Unknown Unknown 0 p Hreached Hres Hp)
    as (b' & node & Hrun & Hpages & Htable & _).
  { rewrite Hpin. discriminate. }
  exists b'. split; [exact Hrun|]. split; [exact Hpages|exact Htable].
Defined.

Lemma no_frame_to_reuse_witness :
  free_list_ pinned_pool = []
  /\ map_Forall (fun _ node => is_evictable_ node = false)
       (node_store_ (replacer_ pinned_pool))
  /\ NewPage pinned_pool = Ok None pinned_pool
  /\ FetchPage 5 Unknown pinned_pool = Ok None pinned_pool.
Proof.
  assert (Hfree : free_list_ pinned_pool = []) by (vm_compute; reflexivity).
  assert (Hpinned : map_Forall (fun _ node => is_evictable_ node = false)
                      (node_store_ (replacer_ pinned_pool)))
    by (apply map_Forall_to_list, (bool_decide_unpack _); vm_compute; exact I).
  split; [exact Hfree|]. split; [exact Hpinned|].
  destruct (no_frame_to_reuse pinned_pool Hfree
              (fun f node Hnode => map_Forall_lookup_1 _ _ _ _ Hpinned Hnode))
    as (_ & Hnew & Hfetch).
  split; [exact Hnew|]. apply Hfetch. vm_compute. reflexivity.
Defined.

Lemma operations_return_witness :
  reached pinned_pool
  /\ (exists x b', NewPage pinned_pool = Ok x b')
  /\ (exists x b', UnpinPage 0 true Unknown pinned_pool = Ok x b')
  /\ (exists x b', DeletePage 0 pinned_pool = Ok x b')
  /\ (exists b', FlushAllPages pinned_pool = Ok tt b').
Proof.
  assert (Hreached : reached pinned_pool).
  { exists 1, empty_disk, 2, None, [op_new_page]. split; [lia|vm_compute; reflexivity]. }
  split; [exact Hreached|].
  destruct (operations_return pinned_pool Hreached) as (Hnew & Hunpin & Hdelete & Hflush & _).
  split; [exact Hnew|]. split; [exact (Hunpin 0 true Unknown)|].
  split; [exact (Hdelete 0)|exact Hflush].
Defined.

End further_instances.
